(** * Virtual-time test scheduling of ruscello: TestSchedule, TestSource,
      SharedTestSource and watchSourceEvents

    A shallow embedding of the testing utilities (the module that defines
    [TestSchedule], [getActionInsertIndex], [watchSubscriptionInfo],
    [TestSource], [SharedTestSource] and [watchSourceEvents]) and the
    properties of the virtual-time scheduler that the specification states.

    JavaScript objects that are shared and mutated (Disposables, subscription
    info records, recorded event arrays, subject registries) live in a store
    indexed by allocation order; closures are represented by the code they
    run together with the references they capture. *)

From Stdlib Require Import ZArith List Bool Lia.
From stdpp Require Import base list.

Local Open Scope Z_scope.

(** ** Numbers

    Frames are JavaScript numbers.  The scheduler only adds and compares
    them; the embedding covers the integers together with [Infinity], which
    [watchSubscriptionInfo] stores as the end of an open subscription.
    (NaN, negative infinity and fractions are outside the embedding.) *)

Inductive num : Type :=
| Fin (z : Z)
| Infinity.

(** [a + b].  The sum of two integers is the exact one, which is the sum
    that JavaScript computes as long as the operands and the result are within
    2^53 of 0; the rounding of larger sums is outside the embedding. *)
Definition num_add (a b : num) : num :=
  match a, b with
  | Fin x, Fin y => Fin (x + y)
  | _, _ => Infinity
  end.

Definition num_ltb (a b : num) : bool :=
  match a, b with
  | Fin x, Fin y => x <? y
  | Fin _, Infinity => true
  | Infinity, _ => false
  end.

Definition num_eqb (a b : num) : bool :=
  match a, b with
  | Fin x, Fin y => x =? y
  | Infinity, Infinity => true
  | _, _ => false
  end.

Definition num_leb (a b : num) : bool := negb (num_ltb b a).

Definition num_lt (a b : num) : Prop := num_ltb a b = true.
Definition num_le (a b : num) : Prop := num_ltb b a = false.

(** [x | 0]: ToInt32 of an integral number. *)
Definition to_int32 (z : Z) : Z := (z + 2 ^ 31) mod 2 ^ 32 - 2 ^ 31.

(** ** Events *)

Inductive Event : Type :=
| Push (value : Z)
| Throw (error : Z)
| End.

(** [TestSourceEvent<T> = Event<T> & { frame }]; [P], [T] and [E] build
    them. *)
Record TestSourceEvent : Type := mkEvent {
  event : Event;
  frame : num
}.

Definition P (value : Z) (frame : num) : TestSourceEvent := mkEvent (Push value) frame.
Definition T (error : Z) (frame : num) : TestSourceEvent := mkEvent (Throw error) frame.
Definition E (frame : num) : TestSourceEvent := mkEvent End frame.

(** ** Closures

    Every function value that the module stores is one of finitely many
    closures.  A [Callback] is what is handed to the schedule: one of the four
    arrow functions of the module, or a callback of the caller, which is a
    sequence of operations on the schedule and on the caller's own log. *)

Inductive Callback : Type :=
| CbUser (body : list Op)
    (* a callback supplied by the caller *)
| CbSinkEvent (sink : nat) (ev : TestSourceEvent)
    (* TestSource: () => sink(event) *)
| CbSubjectEvent (subject : nat) (ev : TestSourceEvent)
    (* SharedTestSource.schedule: () => subject(event) *)
| CbSubscribe (source : nat) (events : nat) (subscription : nat)
    (* watchSourceEvents: () => source(Sink(event => events.push(..), subscription)) *)
| CbDispose (subscription : nat)
    (* watchSourceEvents: () => subscription.dispose() *)
with Op : Type :=
| OLog (tag : nat)                   (* an effect private to the caller *)
| OThrow (error : Z)                 (* throw error *)
| OFlush                             (* testSchedule.flush() *)
| OReset                             (* testSchedule.reset() *)
| OSchedule (callback : Callback) (delayFrames : num) (subscription : option nat)
                                     (* testSchedule(callback, delayFrames, subscription) *)
| ODispose (disposable : nat).       (* disposable.dispose() *)

(** The teardown closures wrapped in a [Disposable(...)]. *)
Inductive Teardown : Type :=
| TdCancel (action : nat)
    (* testSchedule: () => { action.shouldCall = false } *)
| TdEndInfo (info : nat)
    (* watchSubscriptionInfo: () => { info.subscriptionEndFrame = testSchedule.currentFrame } *)
| TdUnsubscribe (subject : nat) (sink : nat).
    (* Subject: remove the sink from the registry *)

(** The consumers wrapped in a [Sink(...)]. *)
Inductive SinkCallback : Type :=
| ScRecord (events : nat)
    (* watchSourceEvents: (event) => events.push({...event, frame: testSchedule.currentFrame}) *)
| ScUser (body : list Op).
    (* a consumer supplied by the caller *)

(** ** Objects *)

Record TestScheduleAction : Type := mkAction {
  action_id : nat;           (* identity of the object, captured by its cancel teardown *)
  callback : Callback;
  executionFrame : num;
  shouldCall : bool
}.

Record TestSubscriptionInfo : Type := mkInfo {
  subscriptionStartFrame : num;
  subscriptionEndFrame : num
}.

(** Modelled from the spec: a teardown entry of a Disposable, "either a raw
    teardown callback or another Disposable".  The Disposable module is not
    part of the sources at hand. *)
Inductive Child : Type :=
| ChildCallback (td : Teardown)
| ChildDisposable (d : nat).

(** Modelled from the spec: the Disposable of the Disposable module, with
    "[active: bool] (false once disposed), ordered list of child teardown
    entries". *)
Record DisposableObj : Type := mkDisposable {
  active : bool;
  children : list Child
}.

(** Modelled from the spec: the Sink of the source module, "an Event consumer
    permanently bound to one Disposable". *)
Record SinkObj : Type := mkSink {
  onEvent : SinkCallback;
  bound : nat
}.

(** The two sources of the module, with the arrays their closures capture. *)
Inductive SourceObj : Type :=
| TestSourceObj (events : list TestSourceEvent) (subscriptions : list nat)
| SharedTestSourceObj (events : list TestSourceEvent) (subscriptions : list nat)
                      (subject : nat).

(** ** The store: one TestSchedule and the objects reachable from it *)

Record World : Type := mkWorld {
  (* const actions, let currentFrame, let isFlushing of TestSchedule() *)
  actions : list TestScheduleAction;
  currentFrame : num;
  isFlushing : bool;
  next_action : nat;                     (* identity of the next action object *)
  disposables : list DisposableObj;
  infos : list TestSubscriptionInfo;
  sinks : list SinkObj;
  subjects : list (list nat);            (* registry of each Subject, in subscription order *)
  arrays : list (list TestSourceEvent);  (* the events arrays of watchSourceEvents *)
  sources : list SourceObj;
  log : list nat                         (* what the caller's callbacks observed *)
}.

(** [TestSchedule()] in an otherwise empty store. *)
Definition fresh : World :=
  mkWorld [] (Fin 0) false 0%nat [] [] [] [] [] [] [].

Definition set_actions (l : list TestScheduleAction) (w : World) : World :=
  mkWorld l (currentFrame w) (isFlushing w) (next_action w) (disposables w)
          (infos w) (sinks w) (subjects w) (arrays w) (sources w) (log w).
Definition set_currentFrame (f : num) (w : World) : World :=
  mkWorld (actions w) f (isFlushing w) (next_action w) (disposables w)
          (infos w) (sinks w) (subjects w) (arrays w) (sources w) (log w).
Definition set_isFlushing (b : bool) (w : World) : World :=
  mkWorld (actions w) (currentFrame w) b (next_action w) (disposables w)
          (infos w) (sinks w) (subjects w) (arrays w) (sources w) (log w).
Definition set_next_action (n : nat) (w : World) : World :=
  mkWorld (actions w) (currentFrame w) (isFlushing w) n (disposables w)
          (infos w) (sinks w) (subjects w) (arrays w) (sources w) (log w).
Definition set_disposables (l : list DisposableObj) (w : World) : World :=
  mkWorld (actions w) (currentFrame w) (isFlushing w) (next_action w) l
          (infos w) (sinks w) (subjects w) (arrays w) (sources w) (log w).
Definition set_infos (l : list TestSubscriptionInfo) (w : World) : World :=
  mkWorld (actions w) (currentFrame w) (isFlushing w) (next_action w) (disposables w)
          l (sinks w) (subjects w) (arrays w) (sources w) (log w).
Definition set_sinks (l : list SinkObj) (w : World) : World :=
  mkWorld (actions w) (currentFrame w) (isFlushing w) (next_action w) (disposables w)
          (infos w) l (subjects w) (arrays w) (sources w) (log w).
Definition set_subjects (l : list (list nat)) (w : World) : World :=
  mkWorld (actions w) (currentFrame w) (isFlushing w) (next_action w) (disposables w)
          (infos w) (sinks w) l (arrays w) (sources w) (log w).
Definition set_arrays (l : list (list TestSourceEvent)) (w : World) : World :=
  mkWorld (actions w) (currentFrame w) (isFlushing w) (next_action w) (disposables w)
          (infos w) (sinks w) (subjects w) l (sources w) (log w).
Definition set_sources (l : list SourceObj) (w : World) : World :=
  mkWorld (actions w) (currentFrame w) (isFlushing w) (next_action w) (disposables w)
          (infos w) (sinks w) (subjects w) (arrays w) l (log w).
Definition set_log (l : list nat) (w : World) : World :=
  mkWorld (actions w) (currentFrame w) (isFlushing w) (next_action w) (disposables w)
          (infos w) (sinks w) (subjects w) (arrays w) (sources w) l.

(** ** getActionInsertIndex *)

(** The inner loop
    [while (mid + 1 < len && actions[mid + 1].executionFrame === frame) mid++]. *)
Fixpoint walk_equal (fuel : nat) (actions : list TestScheduleAction) (frame : num)
         (mid : Z) : option Z :=
  match fuel with
  | O => None
  | S fuel' =>
      if mid + 1 <? Z.of_nat (length actions) then
        match actions !! Z.to_nat (mid + 1) with
        | Some a =>
            if num_eqb (executionFrame a) frame
            then walk_equal fuel' actions frame (mid + 1)
            else Some mid
        | None => None
        end
      else Some mid
  end.

(** The loop [while (low <= high)] followed by the three-way exit.  [None]
    stands for running out of fuel or for reading [executionFrame] of
    [undefined]. *)
Fixpoint search (fuel : nat) (actions : list TestScheduleAction) (frame : num)
         (low high : Z) : option Z :=
  match fuel with
  | O => None
  | S fuel' =>
      let len := Z.of_nat (length actions) in
      if low <=? high then
        let mid := to_int32 (Z.quot (low + high) 2) in
        if mid <? 0 then None else
        match actions !! Z.to_nat mid with
        | Some a =>
            if num_ltb (executionFrame a) frame then
              search fuel' actions frame (mid + 1) high
            else if num_ltb frame (executionFrame a) then
              search fuel' actions frame low (mid - 1)
            else
              match walk_equal (S (length actions)) actions frame mid with
              | Some mid' => Some (mid' + 1)
              | None => None
              end
        | None => None
        end
      else if high <? 0 then Some 0
      else if len - 1 <? low then Some len
      else Some (if low <? high then low + 1 else high + 1)
  end.

Definition getActionInsertIndex (actions : list TestScheduleAction) (frame : num)
  : option Z :=
  search (S (length actions)) actions frame 0 (Z.of_nat (length actions) - 1).

(** ** Effects: a state and exception monad over the store *)

Inductive Outcome (A : Type) : Type :=
| Returns (a : A) (w : World)      (* normal completion *)
| Throws (error : Z) (w : World)   (* an exception propagates *)
| OutOfFuel                        (* the bound on loop iterations and call depth was hit *)
| Stuck.                           (* a reference that was never allocated was followed *)
Arguments Returns {A} a w.
Arguments Throws {A} error w.
Arguments OutOfFuel {A}.
Arguments Stuck {A}.

Definition M (A : Type) : Type := World -> Outcome A.

Definition ret {A : Type} (a : A) : M A := fun w => Returns a w.

Definition bind {A B : Type} (m : M A) (k : A -> M B) : M B :=
  fun w =>
    match m w with
    | Returns a w' => k a w'
    | Throws e w' => Throws e w'
    | OutOfFuel => OutOfFuel
    | Stuck => Stuck
    end.

Notation "x <- m ;; k" := (bind m (fun x => k))
  (at level 100, m at next level, right associativity).
Notation "m ;;; k" := (bind m (fun _ => k))
  (at level 100, right associativity).

Definition modify (f : World -> World) : M unit := fun w => Returns tt (f w).

(** [list.forEach(f)] *)
Fixpoint for_each {A : Type} (f : A -> M unit) (l : list A) : M unit :=
  match l with
  | [] => ret tt
  | x :: l' => f x ;;; for_each f l'
  end.

(** ** Disposable *)

(** [action.shouldCall = false] *)
Definition cancel (a : TestScheduleAction) : TestScheduleAction :=
  mkAction (action_id a) (callback a) (executionFrame a) false.

(** The bodies of the teardown closures: the two of the module, and the
    removal from the registry of a Subject. *)
Definition run_teardown (td : Teardown) (w : World) : World :=
  match td with
  | TdCancel id =>
      set_actions
        (map (fun a => if Nat.eqb (action_id a) id then cancel a else a) (actions w)) w
  | TdEndInfo i =>
      set_infos
        (alter (fun info => mkInfo (subscriptionStartFrame info) (currentFrame w)) i
               (infos w)) w
  | TdUnsubscribe subject sink =>
      set_subjects
        (alter (List.filter (fun s => negb (Nat.eqb s sink))) subject (subjects w)) w
  end.

Definition deactivate (o : DisposableObj) : DisposableObj :=
  mkDisposable false (children o).

(** Modelled from the spec: running one teardown entry of a Disposable, a
    callback or a nested Disposable, whose disposal is [dispose]. *)
Definition run_child (dispose : nat -> M unit) (ch : Child) : M unit :=
  match ch with
  | ChildCallback td => modify (run_teardown td)
  | ChildDisposable c => dispose c
  end.

(** Modelled from the spec: [dispose()] of the Disposable module, which is
    not part of the sources at hand.  "If already inactive, no-op; else
    executes every registered teardown in insertion order (propagating
    dispose into nested Disposables), then sets [active = false]." *)
Fixpoint dispose (fuel : nat) (d : nat) : M unit :=
  fun w =>
  match fuel with
  | O => OutOfFuel
  | S fuel' =>
      match disposables w !! d with
      | None => Stuck
      | Some obj =>
          if active obj then
            (for_each (run_child (dispose fuel')) (children obj) ;;;
             modify (fun w' => set_disposables (alter deactivate d (disposables w')) w')) w
          else Returns tt w
      end
  end.

(** Modelled from the spec: [add(child)] of the Disposable module.  It
    "registers a teardown (callback or nested Disposable) if [active]; else
    runs it immediately". *)
Definition add (fuel : nat) (d : nat) (ch : Child) : M unit :=
  fun w =>
  match disposables w !! d with
  | None => Stuck
  | Some obj =>
      if active obj then
        Returns tt
          (set_disposables
             (alter (fun o => mkDisposable (active o) (children o ++ [ch])) d
                    (disposables w)) w)
      else run_child (dispose fuel) ch w
  end.

(** Modelled from the spec: the constructor [Disposable(teardown?)] of the
    Disposable module: a new active Disposable that holds the teardown, if
    one is given. *)
Definition Disposable (teardown : option Teardown) : M nat :=
  fun w =>
    Returns (length (disposables w))
      (set_disposables
         (disposables w ++
          [mkDisposable true match teardown with
                             | Some td => [ChildCallback td]
                             | None => []
                             end]) w).

(** [subscription?.active === false] *)
Definition is_inactive (subscription : option nat) : M bool :=
  fun w =>
  match subscription with
  | None => Returns false w
  | Some d =>
      match disposables w !! d with
      | Some obj => Returns (negb (active obj)) w
      | None => Stuck
      end
  end.

(** ** TestSchedule *)

(** [actions.splice(index, 0, action)] for [0 <= index <= actions.length]. *)
Definition splice (index : Z) (a : TestScheduleAction) (l : list TestScheduleAction)
  : list TestScheduleAction :=
  take (Z.to_nat index) l ++ a :: drop (Z.to_nat index) l.

(** The invocation [testSchedule(callback, delayFrames, subscription)]. *)
Definition testSchedule (fuel : nat) (callback : Callback) (delayFrames : num)
           (subscription : option nat) : M unit :=
  inactive <- is_inactive subscription ;;
  if (inactive : bool) then ret tt else
  fun w =>
    let executionFrame := num_add (currentFrame w) delayFrames in
    match getActionInsertIndex (actions w) executionFrame with
    | None => Stuck
    | Some index =>
        let action := mkAction (next_action w) callback executionFrame true in
        let w1 := set_next_action (S (next_action w))
                    (set_actions (splice index action (actions w)) w) in
        match subscription with
        | None => Returns tt w1
        | Some s =>
            (c <- Disposable (Some (TdCancel (action_id action))) ;;
             add fuel s (ChildDisposable c)) w1
        end
    end.

Definition reset (w : World) : World :=
  set_isFlushing false (set_currentFrame (Fin 0) (set_actions [] w)).

(** ** What callbacks do

    The functions below are parameterised by [flush], the meaning of a nested
    [testSchedule.flush()]; the knot is tied in [flush] itself. *)

Section Callbacks.
Variable flush : M unit.
Variable fuel : nat.

Definition run_op (op : Op) : M unit :=
  match op with
  | OLog tag => modify (fun w => set_log (log w ++ [tag]) w)
  | OThrow error => fun w => Throws error w
  | OFlush => flush
  | OReset => modify reset
  | OSchedule cb delayFrames subscription =>
      testSchedule fuel cb delayFrames subscription
  | ODispose d => dispose fuel d
  end.

Definition run_ops (body : list Op) : M unit := for_each run_op body.

(** Modelled from the spec: [Sink(callback, disposable)] of the source
    module, which is not part of the sources at hand.  The Sink is bound to
    the disposable it is given, and forwards an event to its callback only
    when that disposable is still active. *)
Definition Sink (cb : SinkCallback) (disposable : nat) : M nat :=
  fun w => Returns (length (sinks w)) (set_sinks (sinks w ++ [mkSink cb disposable]) w).

(** Modelled from the spec: the invocation [sink(event)] of a Sink of the
    source module, which checks "the bound Disposable's [active] flag before
    forwarding".  The two consumers are the one of watchSourceEvents and a
    consumer of the caller. *)
Definition sink_call (sink : nat) (ev : TestSourceEvent) : M unit :=
  fun w =>
  match sinks w !! sink with
  | None => Stuck
  | Some s =>
      match disposables w !! bound s with
      | None => Stuck
      | Some obj =>
          if active obj then
            match onEvent s with
            | ScRecord arr =>
                (* events.push({ ...event, frame: testSchedule.currentFrame }) *)
                Returns tt
                  (set_arrays
                     (alter (fun l => l ++ [mkEvent (event ev) (currentFrame w)]) arr
                            (arrays w)) w)
            | ScUser body => run_ops body w
            end
          else Returns tt w
      end
  end.

(** Modelled from the spec: [Subject()] of the Subject module, which is not
    part of the sources at hand: a new Subject with an empty registry. *)
Definition Subject : M nat :=
  fun w => Returns (length (subjects w)) (set_subjects (subjects w ++ [[]]) w).

(** Modelled from the spec: [subject(sink)] of the Subject module.
    "Subscribing adds the new Sink to an internal registry, removed
    automatically when its Disposable becomes inactive." *)
Definition subject_subscribe (subject : nat) (sink : nat) : M unit :=
  fun w =>
  match subjects w !! subject, sinks w !! sink with
  | Some _, Some s =>
      (modify (fun w => set_subjects (alter (fun l => l ++ [sink]) subject (subjects w)) w) ;;;
       add fuel (bound s) (ChildCallback (TdUnsubscribe subject sink))) w
  | _, _ => Stuck
  end.

(** Modelled from the spec: [subject(event)] of the Subject module.
    Pushing forwards the event to "a frozen snapshot of the subscriber list
    taken at the start of the push", in subscription order. *)
Definition subject_push (subject : nat) (ev : TestSourceEvent) : M unit :=
  fun w =>
  match subjects w !! subject with
  | Some registry => for_each (fun s => sink_call s ev) registry w
  | None => Stuck
  end.

(** [watchSubscriptionInfo(testSchedule, subscription?)]; the result is the
    info object, which the teardown keeps a reference to. *)
Definition watchSubscriptionInfo (subscription : option nat) : M nat :=
  fun w =>
  let info := length (infos w) in
  let w1 := set_infos (infos w ++ [mkInfo (currentFrame w) Infinity]) w in
  match subscription with
  | Some s =>
      (c <- Disposable (Some (TdEndInfo info)) ;;
       add fuel s (ChildDisposable c) ;;;
       ret info) w1
  | None => Returns info w1
  end.

(** [subscriptions.push(info)] on the array of the given source. *)
Definition push_subscription (source info : nat) : M unit :=
  modify (fun w =>
    set_sources
      (alter (fun o => match o with
                       | TestSourceObj evs subs => TestSourceObj evs (subs ++ [info])
                       | SharedTestSourceObj evs subs sj =>
                           SharedTestSourceObj evs (subs ++ [info]) sj
                       end) source (sources w)) w).

(** Modelled from the spec: [Source(subscribeFn)] of the source module,
    which is not part of the sources at hand.  "A Source takes a Sink and
    performs subscription logic": invoking the Source runs the function it
    was built from on the Sink. *)
Definition Source (subscribeFn : nat -> M unit) : nat -> M unit := subscribeFn.

(** [source(sink)] for the two sources of the module: the functions that
    TestSource and SharedTestSource give to [Source(...)].  The Sink is used
    as the subscription too; it stands for the Disposable it is bound to. *)
Definition subscribe (source : nat) (sink : nat) : M unit :=
  fun w =>
  match sources w !! source, sinks w !! sink with
  | Some (TestSourceObj events _), Some s =>
      Source (fun sink =>
        info <- watchSubscriptionInfo (Some (bound s)) ;;
        push_subscription source info ;;;
        for_each
          (fun ev => testSchedule fuel (CbSinkEvent sink ev) (frame ev) (Some (bound s)))
          events) sink w
  | Some (SharedTestSourceObj _ _ subject), Some s =>
      Source (fun sink =>
        info <- watchSubscriptionInfo (Some (bound s)) ;;
        push_subscription source info ;;;
        subject_subscribe subject sink) sink w
  | _, _ => Stuck
  end.

(** Running a scheduled callback: [callback()] in flush. *)
Definition call (cb : Callback) : M unit :=
  match cb with
  | CbUser body => run_ops body
  | CbSinkEvent sink ev => sink_call sink ev
  | CbSubjectEvent subject ev => subject_push subject ev
  | CbSubscribe source events subscription =>
      sink <- Sink (ScRecord events) subscription ;;
      subscribe source sink
  | CbDispose subscription => dispose fuel subscription
  end.
End Callbacks.

(** [flush()], and [drain], its loop
    [let action = actions.shift(); while (action) { ... action = actions.shift(); }]. *)
Fixpoint flush (fuel : nat) : M unit :=
  fun w =>
  match fuel with
  | O => OutOfFuel
  | S fuel' =>
      if isFlushing w then Returns tt w
      else (drain fuel' ;;; modify (set_isFlushing false)) (set_isFlushing true w)
  end
with drain (fuel : nat) : M unit :=
  fun w =>
  match fuel with
  | O => OutOfFuel
  | S fuel' =>
      match actions w with
      | [] => Returns tt w
      | action :: rest =>
          let w1 := set_currentFrame (executionFrame action) (set_actions rest w) in
          if shouldCall action then
            match call (flush fuel') fuel' (callback action) w1 with
            | Returns _ w2 => drain fuel' w2
            | Throws error w2 => Throws error (reset w2)
            | OutOfFuel => OutOfFuel
            | Stuck => Stuck
            end
          else drain fuel' w1
      end
  end.

(** ** TestSource, SharedTestSource, watchSourceEvents *)

Definition TestSource (events : list TestSourceEvent) : M nat :=
  fun w => Returns (length (sources w)) (set_sources (sources w ++ [TestSourceObj events []]) w).

Definition SharedTestSource (events : list TestSourceEvent) : M nat :=
  subject <- Subject ;;
  fun w =>
    Returns (length (sources w))
      (set_sources (sources w ++ [SharedTestSourceObj events [] subject]) w).

(** The [subscriptions] getter of both sources. *)
Definition subscriptions_of (source : nat) (w : World) : option (list TestSubscriptionInfo) :=
  match sources w !! source with
  | Some (TestSourceObj _ subs) | Some (SharedTestSourceObj _ subs _) =>
      mapM (fun i => infos w !! i) subs
  | None => None
  end.

(** The [schedule(subscription?)] method of a SharedTestSource. *)
Definition shared_schedule (fuel : nat) (source : nat) (subscription : option nat) : M unit :=
  fun w =>
  match sources w !! source with
  | Some (SharedTestSourceObj events _ subject) =>
      for_each
        (fun ev => testSchedule fuel (CbSubjectEvent subject ev) (frame ev) subscription)
        events w
  | _ => Stuck
  end.

(** [watchSourceEvents(source, testSchedule, subscriptionInfo?)]; the result
    is the events array. *)
Definition watchSourceEvents (fuel : nat) (source : nat)
           (subscriptionInfo : option TestSubscriptionInfo) : M nat :=
  info <- match subscriptionInfo with
          | Some info => ret info
          | None =>
              i <- watchSubscriptionInfo fuel None ;;
              fun w => match infos w !! i with
                       | Some info => Returns info w
                       | None => Stuck
                       end
          end ;;
  subscription <- Disposable None ;;
  events <- (fun w => Returns (length (arrays w)) (set_arrays (arrays w ++ [[]]) w)) ;;
  testSchedule fuel (CbSubscribe source events subscription)
               (subscriptionStartFrame info) None ;;;
  testSchedule fuel (CbDispose subscription) (subscriptionEndFrame info) None ;;;
  ret events.

(** ** The action queue as a sorted list *)

Fixpoint sortedb (l : list num) : bool :=
  match l with
  | [] => true
  | x :: l' => forallb (num_leb x) l' && sortedb l'
  end.

(** The queue is ordered by [executionFrame] ascending. *)
Definition sorted (l : list TestScheduleAction) : Prop :=
  sortedb (map executionFrame l) = true.

(** The number of queued actions whose [executionFrame] is at most [f]. *)
Definition count_le (f : num) (l : list TestScheduleAction) : nat :=
  length (List.filter (fun a => num_leb (executionFrame a) f) l).

(** ** Fuel

    [refines o1 o2]: [o2] is what [o1] becomes when the run is given more
    fuel. *)

Definition refines {A : Type} (o1 o2 : Outcome A) : Prop :=
  o1 = OutOfFuel \/ o1 = o2.

(** ** Callbacks that only observe

    A callback of the caller that neither throws nor calls back into the
    schedule or a Disposable; [tags] is what it appends to the caller's
    log. *)

Definition is_log (op : Op) : bool :=
  match op with OLog _ => true | _ => false end.

Definition passive (cb : Callback) : bool :=
  match cb with
  | CbUser body => forallb is_log body
  | _ => false
  end.

Definition op_tags (op : Op) : list nat :=
  match op with OLog tag => [tag] | _ => [] end.

Definition tags (cb : Callback) : list nat :=
  match cb with
  | CbUser body => flat_map op_tags body
  | _ => []
  end.

(** What the callbacks of a queue log when they are run front to back,
    skipping the cancelled ones. *)
Definition queue_tags (q : list TestScheduleAction) : list nat :=
  flat_map (fun a => tags (callback a)) (List.filter shouldCall q).

(** The state in which a flush that started in [w] with the queue [q] and ran
    only observing callbacks leaves the store. *)
Definition drained (q : list TestScheduleAction) (w : World) : World :=
  set_log (log w ++ queue_tags q)
    (set_currentFrame (List.last (map executionFrame q) (currentFrame w))
       (set_actions [] w)).

(** The store after a flush that started in [w] ran the observing prefix
    [pre] of its queue, with [rest] still queued. *)
Definition advanced (pre rest : list TestScheduleAction) (w : World) : World :=
  set_log (log w ++ queue_tags pre)
    (set_currentFrame (List.last (map executionFrame pre) (currentFrame w))
       (set_actions rest w)).

(** ** Scheduling calls *)

Definition is_active (d : nat) (w : World) : bool :=
  match disposables w !! d with
  | Some obj => active obj
  | None => false
  end.

(** The optional subscription of a scheduling call is absent or active. *)
Definition usable (subscription : option nat) (w : World) : bool :=
  match subscription with
  | None => true
  | Some d => is_active d w
  end.

(** The store after [testSchedule(callback, delayFrames, subscription)] put
    its action at [index] and registered the cancelling teardown. *)
Definition scheduled (cb : Callback) (delayFrames : num) (subscription : option nat)
           (index : Z) (w : World) : World :=
  let action := mkAction (next_action w) cb (num_add (currentFrame w) delayFrames) true in
  let w1 := set_next_action (S (next_action w))
              (set_actions (splice index action (actions w)) w) in
  match subscription with
  | None => w1
  | Some s =>
      set_disposables
        (alter (fun o => mkDisposable (active o)
                           (children o ++ [ChildDisposable (length (disposables w))])) s
               (disposables w ++
                [mkDisposable true [ChildCallback (TdCancel (next_action w))]])) w1
  end.

(** One invocation of the schedule, as the caller writes it. *)
Record Call : Type := mkCall {
  call_callback : Callback;
  call_delayFrames : num;
  call_subscription : option nat
}.

Definition schedule_all (fuel : nat) (calls : list Call) : M unit :=
  for_each
    (fun c => testSchedule fuel (call_callback c) (call_delayFrames c) (call_subscription c))
    calls.

(** The frame at which a call made at frame [now] executes. *)
Definition call_frame (now : num) (c : Call) : num := num_add now (call_delayFrames c).

(** The action objects that a sequence of calls made at frame [now] creates,
    in call order; [n] is the identity of the first. *)
Fixpoint enqueue (n : nat) (now : num) (calls : list Call) : list TestScheduleAction :=
  match calls with
  | [] => []
  | c :: calls' =>
      mkAction n (call_callback c) (call_frame now c) true :: enqueue (S n) now calls'
  end.

(** The schedule itself is the same in both stores. *)
Definition same_schedule (w w' : World) : Prop :=
  actions w' = actions w /\ currentFrame w' = currentFrame w /\
  isFlushing w' = isFlushing w /\ next_action w' = next_action w /\ log w' = log w.

(** ** Cancellation *)


Definition is_cancelled (ids : list nat) (a : TestScheduleAction) : bool :=
  existsb (Nat.eqb (action_id a)) ids.

(** The queue with the actions of the given identities cancelled in place. *)
Definition cancel_ids (ids : list nat) (q : list TestScheduleAction)
  : list TestScheduleAction :=
  map (fun a => if is_cancelled ids a then cancel a else a) q.

(** What testSchedule wraps around the teardown that cancels action [id]. *)
Definition wrapper (id : nat) : DisposableObj :=
  mkDisposable true [ChildCallback (TdCancel id)].

(** The subscription [d], allocated before [base], is active and holds
    exactly the wrappers [regs], each with the action it cancels; the
    wrappers were allocated from [base] on. *)
Definition registered (base d : nat) (regs : list (nat * nat)) (w : World) : Prop :=
  (d < base <= length (disposables w))%nat /\
  disposables w !! d =
    Some (mkDisposable true (map (fun r => ChildDisposable (fst r)) regs)) /\
  NoDup (map fst regs) /\
  Forall (fun r => (base <= fst r)%nat /\ disposables w !! fst r = Some (wrapper (snd r)))
         regs.

(** ** The scenarios of the specification, and variations *)

(** Scenario A: schedule (cb1, 5), (cb2, 2), (cb3, 2), then flush; callback
    [cbN] logs [N]. *)
Definition scenario_A (fuel : nat) : M unit :=
  testSchedule fuel (CbUser [OLog 1]) (Fin 5) None ;;;
  testSchedule fuel (CbUser [OLog 2]) (Fin 2) None ;;;
  testSchedule fuel (CbUser [OLog 3]) (Fin 2) None ;;;
  flush fuel.

(** Scenario B: a TestSource watched from frame 0 to frame 25. *)
Definition scenario_B (fuel : nat) : M (nat * nat) :=
  source <- TestSource [P 1 (Fin 0); P 2 (Fin 10); E (Fin 20)] ;;
  events <- watchSourceEvents fuel source (Some (mkInfo (Fin 0) (Fin 25))) ;;
  flush fuel ;;;
  ret (source, events).

(** Scenario B with the window closed at frame 15, before the End event. *)
Definition early_unsubscribe (fuel : nat) : M (nat * nat) :=
  source <- TestSource [P 1 (Fin 0); P 2 (Fin 10); E (Fin 20)] ;;
  events <- watchSourceEvents fuel source (Some (mkInfo (Fin 0) (Fin 15))) ;;
  flush fuel ;;;
  ret (source, events).

(** A flush brings the schedule to frame 3; then a TestSource is watched
    with [TestSubscriptionInfo(5, 8)]. *)
Definition late_watch (fuel : nat) : M (nat * nat) :=
  testSchedule fuel (CbUser []) (Fin 3) None ;;;
  flush fuel ;;;
  source <- TestSource [P 1 (Fin 0)] ;;
  events <- watchSourceEvents fuel source (Some (mkInfo (Fin 5) (Fin 8))) ;;
  flush fuel ;;;
  ret (source, events).

(** As [late_watch], with the subscriptionInfo left to its default. *)
Definition default_watch (fuel : nat) : M (nat * nat) :=
  testSchedule fuel (CbUser []) (Fin 3) None ;;;
  flush fuel ;;;
  source <- TestSource [P 1 (Fin 0)] ;;
  events <- watchSourceEvents fuel source None ;;
  flush fuel ;;;
  ret (source, events).

(** A SharedTestSource whose [schedule] is called with a subscription that
    was disposed before; the result is the length of the queue. *)
Definition schedule_disposed (fuel : nat) : M nat :=
  source <- SharedTestSource [P 1 (Fin 0); E (Fin 5)] ;;
  subscription <- Disposable None ;;
  dispose fuel subscription ;;;
  shared_schedule fuel source (Some subscription) ;;;
  fun w => Returns (length (actions w)) w.

(** ** Concrete queues, calls and stores *)

(** A sorted queue with two actions at frame 2 and one at frame 5. *)
Definition queue3 : list TestScheduleAction :=
  [mkAction 0 (CbUser []) (Fin 2) true; mkAction 1 (CbUser []) (Fin 2) true;
   mkAction 2 (CbUser []) (Fin 5) true].

(** Three calls with the delays 2, 2 and 5. *)
Definition calls3 : list Call :=
  [mkCall (CbUser [OLog 1]) (Fin 2) None; mkCall (CbUser [OLog 2]) (Fin 2) None;
   mkCall (CbUser [OLog 3]) (Fin 5) None].

(** A callback that, called with the guard set, calls flush() in between two
    observations, followed by a second callback. *)
Definition reentrant_queue : list TestScheduleAction :=
  [mkAction 0 (CbUser [OLog 1; OFlush; OLog 2]) (Fin 1) true;
   mkAction 1 (CbUser [OLog 3]) (Fin 2) true].

(** The second of three callbacks throws 42 between two observations. *)
Definition throwing_queue : list TestScheduleAction :=
  [mkAction 0 (CbUser [OLog 1]) (Fin 1) true;
   mkAction 1 (CbUser [OLog 2; OThrow 42; OLog 3]) (Fin 2) true;
   mkAction 2 (CbUser [OLog 4]) (Fin 3) true].

(** Three calls, the second one under the subscription 0, which is created
    first. *)
Definition cancel_calls : list Call :=
  [mkCall (CbUser [OLog 1]) (Fin 1) None; mkCall (CbUser [OLog 2]) (Fin 1) (Some 0%nat);
   mkCall (CbUser [OLog 3]) (Fin 0) None].

(** A fresh schedule and [Disposable()], the subscription 0. *)
Definition cancel_store : World :=
  match Disposable None fresh with
  | Returns _ w => w
  | _ => fresh
  end.

(** A store with one SharedTestSource of two events and one Sink bound to a
    new Disposable. *)
Definition shared_store : World :=
  match (source <- SharedTestSource [P 1 (Fin 0); E (Fin 5)] ;;
         d <- Disposable None ;;
         Sink (ScRecord 0) d) fresh with
  | Returns _ w => w
  | _ => fresh
  end.

(** ** The order of the queue

    [a] is not after [b]: by frame, and by identity, that is by call order,
    within a frame. *)

Definition key_leb (a b : TestScheduleAction) : bool :=
  num_ltb (executionFrame a) (executionFrame b) ||
  (num_eqb (executionFrame a) (executionFrame b) && Nat.leb (action_id a) (action_id b)).

Fixpoint fifo_sortedb (l : list TestScheduleAction) : bool :=
  match l with
  | [] => true
  | x :: l' => forallb (key_leb x) l' && fifo_sortedb l'
  end.

(** The queue is ordered by frame, first scheduled first within a frame, and
    holds only actions that were created already. *)
Definition fifo_queue (w : World) : Prop :=
  fifo_sortedb (actions w) = true /\
  Forall (fun a => (action_id a < next_action w)%nat) (actions w).

(** Four calls in no particular order, two of them for the same frame. *)
Definition unordered_calls : list Call :=
  [mkCall (CbUser [OLog 1]) (Fin 7) None; mkCall (CbUser [OLog 2]) (Fin 2) None;
   mkCall (CbUser [OLog 3]) (Fin 7) None; mkCall (CbUser [OLog 4]) (Fin 0) None].

(** A queue of two actions that were both cancelled. *)
Definition cancelled_queue : list TestScheduleAction :=
  [mkAction 0 (CbUser [OLog 1]) (Fin 4) false; mkAction 1 (CbUser [OLog 2]) (Fin 9) false].

(** The first of two callbacks resets the schedule between two observations. *)
Definition resetting_queue : list TestScheduleAction :=
  [mkAction 0 (CbUser [OLog 1; OReset; OLog 2]) (Fin 4) true;
   mkAction 1 (CbUser [OLog 3]) (Fin 9) true].

(** The first callback schedules a third one, two frames after its own, in
    between the two that are queued. *)
Definition scheduling_queue : list TestScheduleAction :=
  [mkAction 0 (CbUser [OLog 1; OSchedule (CbUser [OLog 3]) (Fin 2) None; OLog 2]) (Fin 4) true;
   mkAction 1 (CbUser [OLog 4]) (Fin 9) true].

(** ** The calls of a timeline *)

(** The calls that the [forEach] of TestSource and of
    SharedTestSource.schedule makes for a timeline: one per event, with the
    frame of the event as the delay. *)
Definition timeline_calls (mk : TestSourceEvent -> Callback) (subscription : option nat)
           (events : list TestSourceEvent) : list Call :=
  map (fun ev => mkCall (mk ev) (frame ev) subscription) events.

(** Running teardowns one after the other. *)
Definition run_teardowns (tds : list Teardown) (w : World) : World :=
  fold_left (fun w td => run_teardown td w) tds w.

(** The subscription [d], allocated before [base], is active and holds
    exactly the Disposables [regs], each wrapping one teardown and allocated
    from [base] on. *)
Definition holds (base d : nat) (regs : list (nat * Teardown)) (w : World) : Prop :=
  (d < base <= length (disposables w))%nat /\
  disposables w !! d =
    Some (mkDisposable true (map (fun r => ChildDisposable (fst r)) regs)) /\
  NoDup (map fst regs) /\
  Forall (fun r => (base <= fst r)%nat /\
                   disposables w !! fst r = Some (mkDisposable true [ChildCallback (snd r)]))
         regs.

(** The two stores differ in their Disposables at most. *)
Definition same_but_disposables (w w' : World) : Prop :=
  set_disposables [] w = set_disposables [] w'.

(** A store at frame 4 with one TestSource of two events and one Sink of the
    caller, bound to a new Disposable. *)
Definition source_store : World :=
  match (source <- TestSource [P 1 (Fin 1); E (Fin 3)] ;;
         d <- Disposable None ;;
         Sink (ScUser [OLog 1]) d) (set_currentFrame (Fin 4) fresh) with
  | Returns _ w => w
  | _ => fresh
  end.

(** The same store after the Disposable of the Sink was disposed. *)
Definition disposed_source_store : World :=
  match dispose 1 0 source_store with
  | Returns _ w => w
  | _ => fresh
  end.

(** A sorted queue of one action at frame 9 on a schedule at frame 3. *)
Definition watch_store : World :=
  set_next_action 1 (set_currentFrame (Fin 3)
    (set_actions [mkAction 0 (CbUser []) (Fin 9) true] fresh)).

(** A queue whose callbacks flush, schedule and reset. *)
Definition busy_queue : list TestScheduleAction :=
  [mkAction 0 (CbUser [OFlush; OSchedule (CbUser [OLog 1; OReset]) (Fin 2) None]) (Fin 1) true;
   mkAction 1 (CbUser [OLog 2]) (Fin 5) true].

(** A queue whose second callback throws after it scheduled another one. *)
Definition failing_queue : list TestScheduleAction :=
  [mkAction 0 (CbUser [OLog 1]) (Fin 1) true;
   mkAction 1 (CbUser [OSchedule (CbUser []) (Fin 2) None; OThrow 7]) (Fin 5) true].

(** ** What the watcher of a TestSource records *)

(** An event of a timeline subscribed to at frame [opened], as the Sink of
    watchSourceEvents records it: with the frame of its delivery. *)
Definition stamp (opened : num) (ev : TestSourceEvent) : TestSourceEvent :=
  mkEvent (event ev) (num_add opened (frame ev)).

(** The event of a timeline subscribed to at frame [opened] is due before
    the frame [closed]. *)
Definition in_window (opened closed : num) (ev : TestSourceEvent) : bool :=
  num_ltb (num_add opened (frame ev)) closed.

(** What the recording Sink pushes when the action is run. *)
Definition delivered (a : TestScheduleAction) : list TestSourceEvent :=
  match callback a with
  | CbSinkEvent _ ev => [mkEvent (event ev) (executionFrame a)]
  | _ => []
  end.

(** The action is due before the frame [closed]. *)
Definition due_before (closed : num) (a : TestScheduleAction) : bool :=
  num_ltb (executionFrame a) closed.

(** ** What the watcher of a SharedTestSource records *)

(** What a Subject with one recording subscriber has recorded when the
    action is run. *)
Definition pushed (a : TestScheduleAction) : list TestSourceEvent :=
  match callback a with
  | CbSubjectEvent _ ev => [mkEvent (event ev) (executionFrame a)]
  | _ => []
  end.

(** The event of a timeline scheduled at frame [now] is due from the frame
    [opened] on and before the frame [closed]. *)
Definition in_shared_window (now opened closed : num) (ev : TestSourceEvent) : bool :=
  num_leb opened (num_add now (frame ev)) && num_ltb (num_add now (frame ev)) closed.

(** A store with one SharedTestSource of three events. *)
Definition shared_timeline_store : World :=
  match SharedTestSource [P 1 (Fin 1); P 2 (Fin 4); E (Fin 9)] fresh with
  | Returns _ w => w
  | _ => fresh
  end.

(** ** Callbacks that leave the guard alone *)

(** The operation is not a call of reset(). *)
Definition no_reset (op : Op) : bool :=
  match op with OReset => false | _ => true end.

(** A callback that resets the schedule, schedules another callback and then
    calls flush(), all this while it is run by a flush. *)
Definition reset_reentrant_queue : list TestScheduleAction :=
  [mkAction 0 (CbUser [OLog 1; OReset; OSchedule (CbUser [OLog 5]) (Fin 0) None;
                       OFlush; OLog 6]) (Fin 2) true].

(** The same callback without the call of flush(). *)
Definition reset_plain_queue : list TestScheduleAction :=
  [mkAction 0 (CbUser [OLog 1; OReset; OSchedule (CbUser [OLog 5]) (Fin 0) None;
                       OLog 6]) (Fin 2) true].

(** A callback that schedules, disposes and observes before it calls
    flush(), followed by a second callback. *)
Definition busy_reentrant_queue : list TestScheduleAction :=
  [mkAction 0 (CbUser [OLog 1; OSchedule (CbUser [OLog 4]) (Fin 0) None; OFlush; OLog 2])
            (Fin 1) true;
   mkAction 1 (CbUser [OLog 3]) (Fin 2) true].

(** A TestSource is watched without a subscriptionInfo, so that the disposal
    is scheduled for frame Infinity, and the schedule is flushed. *)
Definition flush_to_infinity (fuel : nat) : M unit :=
  source <- TestSource [P 1 (Fin 0)] ;;
  watchSourceEvents fuel source None ;;;
  flush fuel.

(** * Properties *)

(** ** Order on numbers *)

Lemma num_eqb_eq a b : num_eqb a b = true <-> a = b.
Proof.
  destruct a, b; simpl; split; intros H; try discriminate; try reflexivity.
  - apply Z.eqb_eq in H. by subst.
  - inversion H. apply Z.eqb_refl.
Qed.

Ltac num_order :=
  intros; unfold num_lt, num_le, num_leb in *;
  repeat match goal with x : num |- _ => destruct x end;
  simpl in *; try done;
  rewrite ?negb_true_iff, ?negb_false_iff in *;
  rewrite ?Z.ltb_lt, ?Z.ltb_ge in *;
  try lia; try (f_equal; lia).

Lemma num_ltb_irrefl a : num_ltb a a = false.
Proof. num_order. Qed.

Lemma num_le_refl a : num_le a a.
Proof. num_order. Qed.

Lemma num_lt_le a b : num_lt a b -> num_le a b.
Proof. num_order. Qed.

Lemma num_le_trans a b c : num_le a b -> num_le b c -> num_le a c.
Proof. num_order. Qed.

Lemma num_le_lt_trans a b c : num_le a b -> num_lt b c -> num_lt a c.
Proof. num_order. Qed.

Lemma num_lt_le_trans a b c : num_lt a b -> num_le b c -> num_lt a c.
Proof. num_order. Qed.

Lemma num_le_antisym a b : num_le a b -> num_le b a -> a = b.
Proof. num_order. Qed.

Lemma num_lt_not_le a b : num_lt a b -> ~ num_le b a.
Proof. unfold num_lt, num_le. intros H H'. congruence. Qed.

Lemma num_leb_le a b : num_leb a b = true <-> num_le a b.
Proof. unfold num_leb, num_le. destruct (num_ltb b a); simpl; split; congruence. Qed.

Lemma num_leb_gt a b : num_leb a b = false <-> num_lt b a.
Proof. unfold num_leb, num_lt. destruct (num_ltb b a); simpl; split; congruence. Qed.

Lemma to_int32_small z : - 2 ^ 31 <= z < 2 ^ 31 -> to_int32 z = z.
Proof.
  intros H. unfold to_int32. rewrite Z.mod_small; lia.
Qed.

Lemma sorted_cons a l :
  sorted (a :: l) <->
  (forall b, In b l -> num_le (executionFrame a) (executionFrame b)) /\ sorted l.
Proof.
  unfold sorted. simpl. rewrite andb_true_iff, forallb_forall.
  split; intros [H1 H2]; split; try done.
  - intros b Hb. apply num_leb_le, H1, in_map, Hb.
  - intros x Hx. apply in_map_iff in Hx as (b & <- & Hb). apply num_leb_le, H1, Hb.
Qed.

Lemma sorted_lookup l i j a b :
  sorted l -> (i <= j)%nat -> l !! i = Some a -> l !! j = Some b ->
  num_le (executionFrame a) (executionFrame b).
Proof.
  revert i j. induction l as [|x l IH]; intros i j Hs Hij Hi Hj; [done|].
  apply sorted_cons in Hs as [Hx Hs].
  destruct i as [|i], j as [|j]; simpl in *.
  - inversion Hi; inversion Hj; subst. apply num_le_refl.
  - inversion Hi; subst. apply Hx, list_elem_of_In. eapply list_elem_of_lookup_2, Hj.
  - lia.
  - apply (IH i j); [done | lia | done | done].
Qed.

Lemma count_le_length f l : (count_le f l <= length l)%nat.
Proof. unfold count_le. apply List.filter_length_le. Qed.

(** In a sorted queue the actions with frame at most [f] are exactly the
    first [count_le f l]. *)
Lemma count_le_lookup f l i a :
  sorted l -> l !! i = Some a ->
  ((i < count_le f l)%nat <-> num_le (executionFrame a) f).
Proof.
  revert i. induction l as [|x l IH]; intros i Hs Hi; [done|].
  apply sorted_cons in Hs as [Hx Hs]. unfold count_le in *. simpl.
  destruct (num_leb (executionFrame x) f) eqn:Hxf.
  - destruct i as [|i]; simpl in *.
    + inversion Hi; subst. apply num_leb_le in Hxf. split; [done | lia].
    + rewrite <- (IH i Hs Hi). lia.
  - apply num_leb_gt in Hxf.
    assert (Hall : forall b, In b l -> num_lt f (executionFrame b)).
    { intros b Hb. eapply num_lt_le_trans; [exact Hxf | by apply Hx]. }
    assert (Hnil : List.filter (fun a => num_leb (executionFrame a) f) l = []).
    { clear -Hall. induction l as [|y l IH]; [done|]. simpl.
      assert (Hy : num_leb (executionFrame y) f = false)
        by (apply num_leb_gt, Hall; by left).
      rewrite Hy. apply IH. intros b Hb. apply Hall. by right. }
    rewrite Hnil. simpl. split; [lia|]. intros Hle. exfalso.
    destruct i as [|i]; simpl in *.
    + inversion Hi; subst. by apply (num_lt_not_le _ _ Hxf).
    + apply (num_lt_not_le f (executionFrame a)); [|done].
      apply Hall, list_elem_of_In. eapply list_elem_of_lookup_2, Hi.
Qed.

(** A position that separates the frames at most [f] from the larger ones is
    the count. *)
Lemma count_le_boundary f l k :
  sorted l -> (k <= length l)%nat ->
  (forall i a, (i < k)%nat -> l !! i = Some a -> num_le (executionFrame a) f) ->
  (forall i a, (k <= i)%nat -> l !! i = Some a -> num_lt f (executionFrame a)) ->
  count_le f l = k.
Proof.
  intros Hs Hk Hlow Hhigh.
  destruct (Nat.lt_trichotomy (count_le f l) k) as [Hlt | [Heq | Hgt]]; [|done|].
  - exfalso. destruct (lookup_lt_is_Some_2 l (count_le f l)) as [a Ha]; [lia|].
    pose proof (Hlow _ _ Hlt Ha) as Hle.
    apply (count_le_lookup f l _ a Hs Ha) in Hle. lia.
  - exfalso. destruct (lookup_lt_is_Some_2 l k) as [a Ha].
    { pose proof (count_le_length f l). lia. }
    pose proof (Hhigh k a (Nat.le_refl k) Ha) as Hlt.
    apply (num_lt_not_le _ _ Hlt). by apply (count_le_lookup f l k a Hs Ha).
Qed.

(** ** getActionInsertIndex *)

Section InsertIndex.
Variable l : list TestScheduleAction.
Variable f : num.
Let len := Z.of_nat (length l).

Lemma lookup_Z_in_range i : 0 <= i < len -> exists a, l !! Z.to_nat i = Some a.
Proof.
  intros H. destruct (lookup_lt_is_Some_2 l (Z.to_nat i)) as [a Ha]; [subst len; lia|].
  by exists a.
Qed.

Lemma walk_equal_ok fuel mid :
  0 <= mid < len -> (Z.to_nat (len - mid) <= fuel)%nat ->
  exists mid',
    walk_equal fuel l f mid = Some mid' /\ mid <= mid' < len /\
    (forall i a, mid < i <= mid' -> l !! Z.to_nat i = Some a -> executionFrame a = f) /\
    (forall a, l !! Z.to_nat (mid' + 1) = Some a -> executionFrame a <> f).
Proof.
  revert mid. induction fuel as [|fuel IH]; intros mid Hmid Hfuel; [lia|].
  simpl. fold len. destruct (Z.ltb_spec (mid + 1) len) as [Hlt | Hge].
  - destruct (lookup_Z_in_range (mid + 1)) as [a Ha]; [lia|]. rewrite Ha.
    destruct (num_eqb (executionFrame a) f) eqn:Heq.
    + destruct (IH (mid + 1)) as (mid' & Hw & Hr & Hall & Hnext); [lia | lia |].
      exists mid'. repeat split; [done | lia | lia | | done].
      intros i b Hi Hb. destruct (Z.eq_dec i (mid + 1)) as [-> | Hne].
      * rewrite Ha in Hb. inversion Hb; subst. by apply num_eqb_eq.
      * apply (Hall i); [lia | done].
    + exists mid. repeat split; [lia | lia | intros; lia |].
      intros b Hb. rewrite Ha in Hb. inversion Hb; subst.
      intros Hf. apply num_eqb_eq in Hf. congruence.
  - exists mid. repeat split; [lia | lia | intros; lia |].
    intros b Hb. apply lookup_lt_Some in Hb. subst len. lia.
Qed.

Lemma search_S fuel low high :
  search (S fuel) l f low high =
  if low <=? high then
    let mid := to_int32 (Z.quot (low + high) 2) in
    if mid <? 0 then None else
    match l !! Z.to_nat mid with
    | Some a =>
        if num_ltb (executionFrame a) f then search fuel l f (mid + 1) high
        else if num_ltb f (executionFrame a) then search fuel l f low (mid - 1)
        else match walk_equal (S (length l)) l f mid with
             | Some mid' => Some (mid' + 1)
             | None => None
             end
    | None => None
    end
  else if high <? 0 then Some 0
  else if len - 1 <? low then Some len
  else Some (if low <? high then low + 1 else high + 1).
Proof. reflexivity. Qed.

Hypothesis Hlen : len <= 2 ^ 31.

(** On any queue, sorted or not, the search ends with an index into it. *)
Lemma search_total fuel low high :
  0 <= low -> high < len -> low <= high + 1 ->
  (Z.to_nat (high - low + 1) < fuel)%nat ->
  exists i, search fuel l f low high = Some i /\ 0 <= i <= len.
Proof.
  revert low high.
  induction fuel as [|fuel IH]; intros low high Hlow Hhigh Hlh Hfuel; [lia|].
  rewrite search_S. destruct (Z.leb_spec low high) as [Hle | Hgt].
  - assert (Hq : Z.quot (low + high) 2 = (low + high) / 2)
      by (apply Z.quot_div_nonneg; lia).
    assert (Hm : low <= (low + high) / 2 <= high)
      by (split; [apply Z.div_le_lower_bound | apply Z.div_le_upper_bound]; lia).
    cbv zeta. rewrite Hq, to_int32_small by lia.
    set (mid := (low + high) / 2) in *.
    destruct (Z.ltb_spec mid 0) as [? | _]; [lia|].
    destruct (lookup_Z_in_range mid) as [a Ha]; [lia|]. rewrite Ha.
    destruct (num_ltb (executionFrame a) f); [apply IH; lia|].
    destruct (num_ltb f (executionFrame a)); [apply IH; lia|].
    destruct (walk_equal_ok (S (length l)) mid) as (mid' & -> & Hr & _);
      [lia | subst len; lia |].
    exists (mid' + 1). split; [done | lia].
  - destruct (Z.ltb_spec high 0); [exists 0; split; [done | lia]|].
    destruct (Z.ltb_spec (len - 1) low); [exists len; split; [done | lia]|].
    destruct (Z.ltb_spec low high); eexists; (split; [done | lia]).
Qed.

Lemma getActionInsertIndex_total :
  exists i, getActionInsertIndex l f = Some i /\ 0 <= i <= len.
Proof.
  unfold getActionInsertIndex. fold len. apply search_total; lia.
Qed.

Hypothesis Hsorted : sorted l.

Lemma search_ok fuel low high :
  0 <= low -> high < len -> low <= high + 1 ->
  (forall i a, 0 <= i < low -> l !! Z.to_nat i = Some a -> num_lt (executionFrame a) f) ->
  (forall i a, high < i -> l !! Z.to_nat i = Some a -> num_lt f (executionFrame a)) ->
  (Z.to_nat (high - low + 1) < fuel)%nat ->
  search fuel l f low high = Some (Z.of_nat (count_le f l)).
Proof.
  revert low high.
  induction fuel as [|fuel IH]; intros low high Hlow Hhigh Hlh Hlo Hhi Hfuel; [lia|].
  rewrite search_S. destruct (Z.leb_spec low high) as [Hle | Hgt].
  - assert (Hq : Z.quot (low + high) 2 = (low + high) / 2)
      by (apply Z.quot_div_nonneg; lia).
    assert (Hm : low <= (low + high) / 2 <= high)
      by (split; [apply Z.div_le_lower_bound | apply Z.div_le_upper_bound]; lia).
    cbv zeta. rewrite Hq, to_int32_small by lia.
    set (mid := (low + high) / 2) in *.
    destruct (Z.ltb_spec mid 0) as [? | _]; [lia|].
    destruct (lookup_Z_in_range mid) as [a Ha]; [lia|]. rewrite Ha.
    destruct (num_ltb (executionFrame a) f) eqn:Hlt.
    { apply IH; try lia; [|done].
      intros i b Hi Hb. eapply num_le_lt_trans; [|exact Hlt].
      apply (sorted_lookup l (Z.to_nat i) (Z.to_nat mid)); [done | lia | done | done]. }
    destruct (num_ltb f (executionFrame a)) eqn:Hgt.
    { apply IH; try lia; [done|].
      intros i b Hi Hb. eapply num_lt_le_trans; [exact Hgt|].
      apply (sorted_lookup l (Z.to_nat mid) (Z.to_nat i)); [done | lia | done | done]. }
    assert (Heq : executionFrame a = f) by (by apply num_le_antisym).
    destruct (walk_equal_ok (S (length l)) mid) as (mid' & -> & Hr & Hall & Hnext);
      [lia | subst len; lia |].
    f_equal. replace (mid' + 1) with (Z.of_nat (Z.to_nat (mid' + 1))) by lia.
    f_equal. symmetry. apply count_le_boundary; [done | subst len; lia | |].
    + intros i b Hi Hb.
      destruct (lookup_Z_in_range mid') as [c Hc]; [lia|].
      assert (Hcf : executionFrame c = f).
      { destruct (Z.eq_dec mid' mid) as [-> | Hne]; [congruence|].
        apply (Hall mid'); [lia | done]. }
      rewrite <- Hcf.
      apply (sorted_lookup l i (Z.to_nat mid')); [done | lia | done | done].
    + intros i b Hi Hb.
      destruct (lookup_Z_in_range (mid' + 1)) as [c Hc].
      { apply lookup_lt_Some in Hb. subst len. lia. }
      assert (Hfc : num_lt f (executionFrame c)).
      { assert (Hle' : num_le (executionFrame a) (executionFrame c))
          by (apply (sorted_lookup l (Z.to_nat mid) (Z.to_nat (mid' + 1)));
              [done | lia | done | done]).
        rewrite Heq in Hle'. unfold num_lt.
        destruct (num_ltb f (executionFrame c)) eqn:Hfc; [done|]. exfalso.
        apply (Hnext c Hc). by apply num_le_antisym. }
      eapply num_lt_le_trans; [exact Hfc|].
      apply (sorted_lookup l (Z.to_nat (mid' + 1)) i); [done | lia | done | done].
  - assert (Hcount : Z.of_nat (count_le f l) = low).
    { transitivity (Z.of_nat (Z.to_nat low)); [f_equal | lia].
      apply count_le_boundary; [done | subst len; lia | |].
      - intros i a Hi Ha. apply num_lt_le, (Hlo (Z.of_nat i)); [lia|].
        by rewrite Nat2Z.id.
      - intros i a Hi Ha. apply (Hhi (Z.of_nat i)); [lia|]. by rewrite Nat2Z.id. }
    rewrite Hcount.
    destruct (Z.ltb_spec high 0); [f_equal; lia|].
    destruct (Z.ltb_spec (len - 1) low); [f_equal; lia|].
    destruct (Z.ltb_spec low high); f_equal; lia.
Qed.

Lemma getActionInsertIndex_count :
  getActionInsertIndex l f = Some (Z.of_nat (count_le f l)).
Proof.
  unfold getActionInsertIndex. fold len.
  apply search_ok; [lia | lia | lia | intros; lia | | lia].
  intros i a Hi Ha. apply lookup_lt_Some in Ha. subst len. lia.
Qed.
End InsertIndex.

(** C2.  On a queue sorted by executionFrame (of at most 2^31 actions, the
    range in which [| 0] is the identity on the midpoint), the insertion
    index is the number of queued actions with executionFrame at most the
    frame; so the new action goes right after the last action of the same
    frame when there is one, to position 0 when the frame is below every
    queued frame, and to the end when it is above all of them. *)
Theorem getActionInsertIndex_spec (l : list TestScheduleAction) (f : num) :
  sorted l -> Z.of_nat (length l) <= 2 ^ 31 ->
  let index := count_le f l in
  getActionInsertIndex l f = Some (Z.of_nat index) /\
  ((exists a, a ∈ l /\ executionFrame a = f) ->
     (exists a, (1 <= index)%nat /\ l !! (index - 1)%nat = Some a /\ executionFrame a = f) /\
     (forall j b, (index <= j)%nat -> l !! j = Some b -> num_lt f (executionFrame b))) /\
  ((forall a, a ∈ l -> num_lt f (executionFrame a)) -> index = 0%nat) /\
  ((forall a, a ∈ l -> num_lt (executionFrame a) f) -> index = length l).
Proof.
  intros Hs Hlen index. split; [by apply getActionInsertIndex_count|].
  assert (Hidx : (index <= length l)%nat) by apply count_le_length.
  assert (Hafter : forall j b, (index <= j)%nat -> l !! j = Some b ->
                               num_lt f (executionFrame b)).
  { intros j b Hj Hb. unfold num_lt.
    destruct (num_ltb f (executionFrame b)) eqn:Hlt; [done|]. exfalso.
    apply (count_le_lookup f l j b Hs Hb) in Hlt. subst index. lia. }
  split; [|split].
  - intros (a & Hin & Ha). split; [|done].
    apply list_elem_of_lookup in Hin as [i Hi].
    assert (Hi' : (i < index)%nat).
    { apply (count_le_lookup f l i a Hs Hi). rewrite Ha. apply num_le_refl. }
    destruct (lookup_lt_is_Some_2 l (index - 1)) as [b Hb].
    { lia. }
    exists b. split; [lia|]. split; [done|].
    apply num_le_antisym.
    + apply (count_le_lookup f l (index - 1) b Hs Hb). lia.
    + rewrite <- Ha. apply (sorted_lookup l i (index - 1)); [done | lia | done | done].
  - intros Hall. destruct index as [|k] eqn:Hk; [done|]. exfalso.
    destruct (lookup_lt_is_Some_2 l 0) as [a Ha].
    { lia. }
    apply (num_lt_not_le f (executionFrame a)).
    + apply Hall. eapply list_elem_of_lookup_2, Ha.
    + apply (count_le_lookup f l 0 a Hs Ha). fold index. lia.
  - intros Hall. apply count_le_boundary; [done | lia | | ].
    + intros i a _ Ha. apply num_lt_le, Hall. eapply list_elem_of_lookup_2, Ha.
    + intros i a Hi Ha. apply lookup_lt_Some in Ha. lia.
Qed.


Lemma getActionInsertIndex_spec_witness :
  sorted queue3 /\ getActionInsertIndex queue3 (Fin 2) = Some 2.
Proof.
  split; [reflexivity|].
  apply (getActionInsertIndex_spec queue3 (Fin 2)); [reflexivity | vm_compute; congruence].
Defined.

(** ** More fuel does not change a finished run *)

Lemma refines_refl {A} (o : Outcome A) : refines o o.
Proof. by right. Qed.

Lemma refines_done {A} (o1 o2 : Outcome A) :
  refines o1 o2 -> o1 <> OutOfFuel -> o2 = o1.
Proof. intros [H | H] Hne; congruence. Qed.

Lemma bind_refines {A B} (m1 m2 : M A) (k1 k2 : A -> M B) w :
  refines (m1 w) (m2 w) ->
  (forall a w', refines (k1 a w') (k2 a w')) ->
  refines (bind m1 k1 w) (bind m2 k2 w).
Proof.
  intros [H | H] Hk; unfold bind.
  - rewrite H. by left.
  - rewrite <- H. destruct (m1 w); try by right. apply Hk.
Qed.

Lemma for_each_refines {A} (f1 f2 : A -> M unit) l w :
  (forall x w', refines (f1 x w') (f2 x w')) ->
  refines (for_each f1 l w) (for_each f2 l w).
Proof.
  intros Hf. revert w. induction l as [|x l IH]; intros w; simpl.
  - apply refines_refl.
  - apply bind_refines; [apply Hf | intros _ w'; apply IH].
Qed.

Lemma dispose_mono n m d w : (n <= m)%nat -> refines (dispose n d w) (dispose m d w).
Proof.
  revert m d w. induction n as [|n IH]; intros m d w Hnm; [by left|].
  destruct m as [|m]; [lia|]. simpl.
  destruct (disposables w !! d) as [obj|]; [|apply refines_refl].
  destruct (active obj); [|apply refines_refl].
  apply bind_refines; [|intros; apply refines_refl].
  apply for_each_refines. intros [td | c] w'; [apply refines_refl|].
  apply IH. lia.
Qed.

Lemma add_mono n m d ch w : (n <= m)%nat -> refines (add n d ch w) (add m d ch w).
Proof.
  intros Hnm. unfold add.
  destruct (disposables w !! d) as [obj|]; [|apply refines_refl].
  destruct (active obj); [apply refines_refl|].
  destruct ch; [apply refines_refl | by apply dispose_mono].
Qed.

Lemma testSchedule_mono n m cb delay sub w :
  (n <= m)%nat ->
  refines (testSchedule n cb delay sub w) (testSchedule m cb delay sub w).
Proof.
  intros Hnm. unfold testSchedule.
  apply bind_refines; [apply refines_refl|]. intros [|] w'; [apply refines_refl|].
  destruct (getActionInsertIndex _ _); [|apply refines_refl].
  destruct sub; [|apply refines_refl].
  apply bind_refines; [apply refines_refl|]. intros c w''. by apply add_mono.
Qed.

Section CallbacksMono.
Variables flush1 flush2 : M unit.
Variables n m : nat.
Hypothesis Hflush : forall w, refines (flush1 w) (flush2 w).
Hypothesis Hnm : (n <= m)%nat.

Lemma run_op_mono op w : refines (run_op flush1 n op w) (run_op flush2 m op w).
Proof.
  destruct op; simpl; try apply refines_refl.
  - apply Hflush.
  - by apply testSchedule_mono.
  - by apply dispose_mono.
Qed.

Lemma run_ops_mono body w : refines (run_ops flush1 n body w) (run_ops flush2 m body w).
Proof. apply for_each_refines. intros; apply run_op_mono. Qed.

Lemma sink_call_mono sink ev w :
  refines (sink_call flush1 n sink ev w) (sink_call flush2 m sink ev w).
Proof.
  unfold sink_call. destruct (sinks w !! sink) as [s|]; [|apply refines_refl].
  destruct (disposables w !! bound s) as [obj|]; [|apply refines_refl].
  destruct (active obj); [|apply refines_refl].
  destruct (onEvent s); [apply refines_refl | apply run_ops_mono].
Qed.

Lemma subject_subscribe_mono sj sink w :
  refines (subject_subscribe n sj sink w) (subject_subscribe m sj sink w).
Proof.
  unfold subject_subscribe. destruct (subjects w !! sj); [|apply refines_refl].
  destruct (sinks w !! sink); [|apply refines_refl].
  apply bind_refines; [apply refines_refl|]. intros _ w'. by apply add_mono.
Qed.

Lemma subject_push_mono sj ev w :
  refines (subject_push flush1 n sj ev w) (subject_push flush2 m sj ev w).
Proof.
  unfold subject_push. destruct (subjects w !! sj); [|apply refines_refl].
  apply for_each_refines. intros; apply sink_call_mono.
Qed.

Lemma watchSubscriptionInfo_mono sub w :
  refines (watchSubscriptionInfo n sub w) (watchSubscriptionInfo m sub w).
Proof.
  unfold watchSubscriptionInfo. destruct sub; [|apply refines_refl].
  apply bind_refines; [apply refines_refl|]. intros c w'.
  apply bind_refines; [by apply add_mono | intros; apply refines_refl].
Qed.

Lemma subscribe_mono source sink w :
  refines (subscribe n source sink w) (subscribe m source sink w).
Proof.
  unfold subscribe, Source. destruct (sources w !! source) as [[evs subs | evs subs sj]|];
    [| |apply refines_refl];
    (destruct (sinks w !! sink) as [s|]; [|apply refines_refl]);
    (apply bind_refines; [apply watchSubscriptionInfo_mono|]); intros info w';
    (apply bind_refines; [apply refines_refl|]); intros _ w''.
  - apply for_each_refines. intros; by apply testSchedule_mono.
  - apply subject_subscribe_mono.
Qed.

Lemma call_mono cb w : refines (call flush1 n cb w) (call flush2 m cb w).
Proof.
  destruct cb; simpl.
  - apply run_ops_mono.
  - apply sink_call_mono.
  - apply subject_push_mono.
  - apply bind_refines; [apply refines_refl|]. intros; apply subscribe_mono.
  - by apply dispose_mono.
Qed.
End CallbacksMono.

Lemma flush_drain_mono n :
  (forall m w, (n <= m)%nat -> refines (flush n w) (flush m w)) /\
  (forall m w, (n <= m)%nat -> refines (drain n w) (drain m w)).
Proof.
  induction n as [|n [IHf IHd]]; [split; intros; by left|].
  split; intros [|m] w Hnm; try lia; simpl.
  - destruct (isFlushing w); [apply refines_refl|].
    apply bind_refines; [apply IHd; lia | intros; apply refines_refl].
  - destruct (actions w) as [|a rest]; [apply refines_refl|].
    destruct (shouldCall a); [|apply IHd; lia].
    destruct (call_mono (flush n) (flush m) n m (fun w => IHf m w ltac:(lia)) ltac:(lia)
                        (callback a)
                        (set_currentFrame (executionFrame a) (set_actions rest w)))
      as [H | H].
    + rewrite H. by left.
    + rewrite <- H. destruct (call _ _ _ _); try apply refines_refl. apply IHd. lia.
Qed.

Lemma flush_mono n m w : (n <= m)%nat -> refines (flush n w) (flush m w).
Proof. intros. by apply flush_drain_mono. Qed.

Lemma drain_mono n m w : (n <= m)%nat -> refines (drain n w) (drain m w).
Proof. intros. by apply flush_drain_mono. Qed.

Lemma shared_schedule_mono n m source sub w :
  (n <= m)%nat -> refines (shared_schedule n source sub w) (shared_schedule m source sub w).
Proof.
  intros Hnm. unfold shared_schedule.
  destruct (sources w !! source) as [[|evs subs sj]|]; try apply refines_refl.
  apply for_each_refines. intros; by apply testSchedule_mono.
Qed.

Lemma watchSourceEvents_mono n m source info w :
  (n <= m)%nat ->
  refines (watchSourceEvents n source info w) (watchSourceEvents m source info w).
Proof.
  intros Hnm. unfold watchSourceEvents.
  apply bind_refines.
  - destruct info; [apply refines_refl|].
    apply bind_refines; [by apply watchSubscriptionInfo_mono | intros; apply refines_refl].
  - intros i w1. apply bind_refines; [apply refines_refl|]. intros s w2.
    apply bind_refines; [apply refines_refl|]. intros e w3.
    apply bind_refines; [by apply testSchedule_mono|]. intros _ w4.
    apply bind_refines; [by apply testSchedule_mono|]. intros; apply refines_refl.
Qed.

(** ** Flushing a queue of observing callbacks *)

Lemma last_cons_default {A} (l : list A) x d : List.last (x :: l) d = List.last l x.
Proof.
  revert x d. induction l as [|y l IH]; intros x d; [done|].
  change (List.last (x :: y :: l) d) with (List.last (y :: l) d).
  by rewrite (IH y d), (IH y x).
Qed.

Lemma run_ops_passive fl fuel body w :
  forallb is_log body = true ->
  run_ops fl fuel body w = Returns tt (set_log (log w ++ flat_map op_tags body) w).
Proof.
  revert w. induction body as [|op body IH]; intros w Hp; simpl in *.
  - rewrite app_nil_r. by destruct w.
  - apply andb_true_iff in Hp as [Hop Hp]. destruct op; try discriminate.
    unfold run_ops in *. simpl. unfold bind, modify.
    rewrite IH by done. f_equal. destruct w; simpl. unfold set_log; simpl.
    by rewrite <- app_assoc.
Qed.

Lemma call_passive fl fuel cb w :
  passive cb = true ->
  call fl fuel cb w = Returns tt (set_log (log w ++ tags cb) w).
Proof.
  destruct cb; try discriminate. simpl. apply run_ops_passive.
Qed.

Lemma drain_passive q : forall w fuel,
  actions w = q -> Forall (fun a => passive (callback a) = true) q ->
  (length q < fuel)%nat ->
  drain fuel w = Returns tt (drained q w).
Proof.
  induction q as [|a q IH]; intros w fuel Hq Hp Hfuel;
    (destruct fuel as [|fuel]; [simpl in Hfuel; lia|]); simpl; rewrite Hq.
  - unfold drained, queue_tags. simpl. rewrite app_nil_r.
    destruct w; simpl in *. by subst.
  - inversion Hp as [|? ? Ha Hp']; subst. destruct (shouldCall a) eqn:Hcall.
    + rewrite call_passive by done.
      rewrite (IH _ fuel); [| done | done | simpl in Hfuel; lia].
      f_equal. unfold drained, queue_tags. simpl. rewrite Hcall. simpl.
      destruct w; simpl in *. unfold set_log, set_currentFrame, set_actions; simpl.
      rewrite <- app_assoc. do 2 f_equal.
      symmetry. apply (last_cons_default (map executionFrame q)).
    + rewrite (IH _ fuel); [| done | done | simpl in Hfuel; lia].
      f_equal. unfold drained, queue_tags. simpl. rewrite Hcall.
      destruct w; simpl in *. unfold set_log, set_currentFrame, set_actions; simpl.
      do 2 f_equal. symmetry. apply (last_cons_default (map executionFrame q)).
Qed.

Lemma flush_passive w fuel :
  isFlushing w = false ->
  Forall (fun a => passive (callback a) = true) (actions w) ->
  (S (length (actions w)) < fuel)%nat ->
  flush fuel w = Returns tt (drained (actions w) w).
Proof.
  intros Hfl Hp Hfuel. destruct fuel as [|fuel]; [lia|]. simpl. rewrite Hfl.
  unfold bind. rewrite (drain_passive (actions w)); [| done | done | lia].
  unfold modify. f_equal. destruct w; simpl in *. by subst.
Qed.

(** ** What one scheduling call does *)

Lemma testSchedule_scheduled fuel cb delay sub w :
  usable sub w = true -> Z.of_nat (length (actions w)) <= 2 ^ 31 ->
  exists index,
    getActionInsertIndex (actions w) (num_add (currentFrame w) delay) = Some index /\
    0 <= index <= Z.of_nat (length (actions w)) /\
    testSchedule fuel cb delay sub w = Returns tt (scheduled cb delay sub index w).
Proof.
  intros Hsub Hlen.
  destruct (getActionInsertIndex_total (actions w) (num_add (currentFrame w) delay) Hlen)
    as (index & Hindex & Hrange).
  exists index. split; [done|]. split; [done|].
  unfold testSchedule, bind, is_inactive, scheduled.
  destruct sub as [s|]; simpl in *.
  - unfold is_active in Hsub. destruct (disposables w !! s) as [obj|] eqn:Hs; [|done].
    rewrite Hsub. simpl. rewrite Hindex. unfold Disposable, add. simpl.
    rewrite (lookup_app_l_Some _ _ _ _ Hs), Hsub. reflexivity.
  - unfold ret. by rewrite Hindex.
Qed.

Lemma testSchedule_inactive fuel cb delay d w :
  (exists obj, disposables w !! d = Some obj /\ active obj = false) ->
  testSchedule fuel cb delay (Some d) w = Returns tt w.
Proof.
  intros (obj & Hd & Hobj). unfold testSchedule, bind, is_inactive.
  by rewrite Hd, Hobj.
Qed.

Lemma scheduled_actions cb delay sub index w :
  actions (scheduled cb delay sub index w) =
  splice index (mkAction (next_action w) cb (num_add (currentFrame w) delay) true)
         (actions w).
Proof. by destruct sub. Qed.

Lemma scheduled_frame cb delay sub index w :
  currentFrame (scheduled cb delay sub index w) = currentFrame w /\
  isFlushing (scheduled cb delay sub index w) = isFlushing w /\
  log (scheduled cb delay sub index w) = log w /\
  next_action (scheduled cb delay sub index w) = S (next_action w).
Proof. by destruct sub. Qed.

Lemma scheduled_is_active cb delay sub index w d :
  is_active d w = true -> is_active d (scheduled cb delay sub index w) = true.
Proof.
  unfold is_active, scheduled. intros Hd.
  destruct (disposables w !! d) as [obj|] eqn:Hobj; [|done].
  destruct sub as [s|]; simpl; [|by rewrite Hobj].
  destruct (decide (s = d)) as [-> | Hne].
  - by rewrite list_lookup_alter_eq, (lookup_app_l_Some _ _ _ _ Hobj).
  - by rewrite list_lookup_alter_ne, (lookup_app_l_Some _ _ _ _ Hobj).
Qed.

Lemma scheduled_usable cb delay sub index w s :
  usable s w = true -> usable s (scheduled cb delay sub index w) = true.
Proof. destruct s; [apply scheduled_is_active | done]. Qed.

Lemma splice_end a l : splice (Z.of_nat (length l)) a l = l ++ [a].
Proof.
  unfold splice. rewrite Nat2Z.id, firstn_all, drop_all. reflexivity.
Qed.

Lemma splice_length index a l : length (splice index a l) = S (length l).
Proof.
  unfold splice. rewrite length_app. simpl.
  pose proof (take_drop (Z.to_nat index) l) as H.
  apply (f_equal length) in H. rewrite length_app in H. lia.
Qed.

Lemma splice_Permutation index a l : Permutation (splice index a l) (a :: l).
Proof.
  unfold splice. rewrite <- Permutation_middle. by rewrite take_drop.
Qed.

Lemma elem_of_splice index a l x : x ∈ splice index a l <-> x = a \/ x ∈ l.
Proof. rewrite (splice_Permutation index a l). apply elem_of_cons. Qed.

Lemma sortedb_app_le l1 x l2 y :
  sortedb (l1 ++ x :: l2) = true -> In y l1 -> num_le y x.
Proof.
  induction l1 as [|z l1 IH]; intros Hs Hy; [done|]. simpl in Hs.
  apply andb_true_iff in Hs as [Hz Hs]. destruct Hy as [-> | Hy]; [|by apply IH].
  rewrite forallb_forall in Hz. apply num_leb_le, Hz, in_or_app. right. by left.
Qed.

(** A frame that is not below any queued frame goes to the end. *)
Lemma getActionInsertIndex_last l f :
  sorted l -> Z.of_nat (length l) <= 2 ^ 31 ->
  (forall a, In a l -> num_le (executionFrame a) f) ->
  getActionInsertIndex l f = Some (Z.of_nat (length l)).
Proof.
  intros Hs Hlen Hall. rewrite getActionInsertIndex_count by done. do 2 f_equal.
  apply count_le_boundary; [done | lia | |].
  - intros i a _ Ha. apply Hall, list_elem_of_In. eapply list_elem_of_lookup_2, Ha.
  - intros i a Hi Ha. apply lookup_lt_Some in Ha. lia.
Qed.

Lemma sortedb_app_l l1 l2 : sortedb (l1 ++ l2) = true -> sortedb l1 = true.
Proof.
  induction l1 as [|x l1 IH]; [done|]. simpl. rewrite !andb_true_iff.
  intros [Hx Hs]. split; [|by apply IH].
  rewrite forallb_forall in *. intros y Hy. apply Hx, in_or_app. by left.
Qed.

(** ** The queue stays sorted *)

Lemma count_le_cons f x l :
  count_le f (x :: l) =
  if num_leb (executionFrame x) f then S (count_le f l) else count_le f l.
Proof. unfold count_le. simpl. by destruct (num_leb (executionFrame x) f). Qed.

Lemma count_le_above f l :
  (forall b, In b l -> num_lt f (executionFrame b)) -> count_le f l = 0%nat.
Proof.
  induction l as [|x l IH]; intros Hall; [done|].
  rewrite count_le_cons.
  assert (Hx : num_leb (executionFrame x) f = false) by (apply num_leb_gt, Hall; by left).
  rewrite Hx. apply IH. intros b Hb. apply Hall. by right.
Qed.

Lemma splice_S k a x l :
  splice (Z.of_nat (S k)) a (x :: l) = x :: splice (Z.of_nat k) a l.
Proof. unfold splice. by rewrite !Nat2Z.id. Qed.

(** Inserting at the index that getActionInsertIndex computes keeps the queue
    sorted. *)
Lemma sorted_splice a l :
  sorted l -> sorted (splice (Z.of_nat (count_le (executionFrame a) l)) a l).
Proof.
  induction l as [|x l IH]; intros Hs; [done|].
  apply sorted_cons in Hs as [Hx Hs]. rewrite count_le_cons.
  destruct (num_leb (executionFrame x) (executionFrame a)) eqn:Hxa.
  - rewrite splice_S. apply sorted_cons. split; [|by apply IH].
    intros b Hb. apply list_elem_of_In, elem_of_splice in Hb as [-> | Hb].
    + by apply num_leb_le.
    + by apply Hx, list_elem_of_In.
  - apply num_leb_gt in Hxa. rewrite count_le_above.
    + unfold splice. simpl. apply sorted_cons. split.
      * intros b [<- | Hb]; [by apply num_lt_le|].
        eapply num_le_trans; [by apply num_lt_le | by apply Hx].
      * by apply sorted_cons.
    + intros b Hb. eapply num_lt_le_trans; [exact Hxa | by apply Hx].
Qed.

Lemma testSchedule_sorted fuel cb delay sub w :
  sorted (actions w) -> usable sub w = true ->
  Z.of_nat (length (actions w)) <= 2 ^ 31 ->
  exists w',
    testSchedule fuel cb delay sub w = Returns tt w' /\ sorted (actions w').
Proof.
  intros Hs Hsub Hlen.
  destruct (testSchedule_scheduled fuel cb delay sub w Hsub Hlen)
    as (index & Hindex & _ & Hrun).
  rewrite getActionInsertIndex_count in Hindex by done. inversion Hindex; subst index.
  eexists. split; [exact Hrun|]. rewrite scheduled_actions.
  apply (sorted_splice (mkAction (next_action w) cb (num_add (currentFrame w) delay) true)).
  done.
Qed.

(** ** Calls in frame order *)

(** Calls whose frames do not decrease, made on a queue that holds no later
    frame, are appended in call order. *)
Lemma schedule_all_append fuel calls : forall w,
  sortedb (map executionFrame (actions w) ++ map (call_frame (currentFrame w)) calls) = true ->
  Forall (fun c => usable (call_subscription c) w = true) calls ->
  Z.of_nat (length (actions w) + length calls) <= 2 ^ 31 ->
  exists w1,
    schedule_all fuel calls w = Returns tt w1 /\
    actions w1 = actions w ++ enqueue (next_action w) (currentFrame w) calls /\
    currentFrame w1 = currentFrame w /\ isFlushing w1 = isFlushing w /\
    log w1 = log w.
Proof.
  induction calls as [|c calls IH]; intros w Hs Hu Hlen.
  - exists w. simpl. by rewrite app_nil_r.
  - inversion Hu as [|? ? Hc Hu']; subst.
    destruct (testSchedule_scheduled fuel (call_callback c) (call_delayFrames c)
                (call_subscription c) w Hc) as (index & Hindex & _ & Hrun); [lia|].
    assert (Hsl : sorted (actions w)) by (eapply sortedb_app_l, Hs).
    rewrite getActionInsertIndex_last in Hindex; [| done | lia |]; cycle 1.
    { intros a Ha. apply (sortedb_app_le _ _ _ _ Hs), in_map, Ha. }
    inversion Hindex; subst index; clear Hindex.
    set (w' := scheduled _ _ _ _ w) in *.
    assert (Hact : actions w' =
                   actions w ++ [mkAction (next_action w) (call_callback c)
                                          (call_frame (currentFrame w) c) true]).
    { subst w'. rewrite scheduled_actions. apply splice_end. }
    destruct (scheduled_frame (call_callback c) (call_delayFrames c) (call_subscription c)
                (Z.of_nat (length (actions w))) w) as (Hcf & Hfl & Hlog & Hnext).
    fold w' in Hcf, Hfl, Hlog, Hnext.
    destruct (IH w') as (w1 & Hrun1 & Hact1 & Hcf1 & Hfl1 & Hlog1).
    + rewrite Hact, Hcf, map_app. simpl. by rewrite <- app_assoc.
    + eapply Forall_impl; [exact Hu'|]. intros c' Hc'. by apply scheduled_usable.
    + rewrite Hact, length_app. simpl in *. lia.
    + exists w1. split.
      { unfold schedule_all in *. simpl. unfold bind. by rewrite Hrun. }
      rewrite Hact1, Hact, Hcf, Hnext, <- app_assoc. simpl.
      repeat split; congruence.
Qed.

Lemma enqueue_callbacks n now calls :
  map callback (enqueue n now calls) = map call_callback calls.
Proof. revert n. induction calls as [|c calls IH]; intros n; simpl; by rewrite ?IH. Qed.

Lemma enqueue_shouldCall n now calls :
  Forall (fun a => shouldCall a = true) (enqueue n now calls).
Proof. revert n. induction calls; intros n; simpl; constructor; auto. Qed.

Lemma enqueue_length n now calls : length (enqueue n now calls) = length calls.
Proof. revert n. induction calls as [|c calls IH]; intros n; simpl; by rewrite ?IH. Qed.

Lemma enqueue_passive n now calls :
  Forall (fun c => passive (call_callback c) = true) calls ->
  Forall (fun a => passive (callback a) = true) (enqueue n now calls).
Proof.
  revert n. induction calls; intros n Hp; simpl; [constructor|].
  inversion Hp; subst. constructor; auto.
Qed.

Lemma queue_tags_enqueue n now calls :
  queue_tags (enqueue n now calls) = flat_map (fun c => tags (call_callback c)) calls.
Proof.
  revert n. unfold queue_tags. induction calls as [|c calls IH]; intros n; simpl; [done|].
  by rewrite IH.
Qed.

Lemma enqueue_frames n now calls :
  map executionFrame (enqueue n now calls) = map (call_frame now) calls.
Proof. revert n. induction calls as [|c calls IH]; intros n; simpl; by rewrite ?IH. Qed.

(** C1.  Scheduling calls made on an empty queue before one flush, with
    execution frames that do not decrease in call order and subscriptions
    that are active: the queue holds the callbacks in call order, each at its
    frame and to be called; and when the callbacks only observe, flush() runs
    them in that order (the log is the callbacks' output concatenated in call
    order) and empties the queue. *)
Theorem flush_runs_in_call_order (w : World) (calls : list Call) (fuel : nat) :
  isFlushing w = false -> actions w = [] ->
  Z.of_nat (length calls) <= 2 ^ 31 ->
  Forall (fun c => usable (call_subscription c) w = true) calls ->
  sortedb (map (call_frame (currentFrame w)) calls) = true ->
  exists w1,
    schedule_all fuel calls w = Returns tt w1 /\
    map callback (actions w1) = map call_callback calls /\
    map executionFrame (actions w1) = map (call_frame (currentFrame w)) calls /\
    Forall (fun a => shouldCall a = true) (actions w1) /\
    (Forall (fun c => passive (call_callback c) = true) calls ->
     (length calls + 1 < fuel)%nat ->
     exists w2,
       flush fuel w1 = Returns tt w2 /\
       actions w2 = [] /\
       log w2 = log w ++ flat_map (fun c => tags (call_callback c)) calls).
Proof.
  intros Hfl Hq Hlen Hu Hs.
  destruct (schedule_all_append fuel calls w) as (w1 & Hrun & Hact & Hcf & Hfl1 & Hlog);
    [by rewrite Hq | done | rewrite Hq; simpl; lia |].
  rewrite Hq in Hact. simpl in Hact.
  exists w1. split; [done|].
  split; [rewrite Hact; apply enqueue_callbacks|].
  split; [rewrite Hact; apply enqueue_frames|].
  split; [rewrite Hact; apply enqueue_shouldCall|].
  intros Hp Hfuel. exists (drained (actions w1) w1). split.
  - apply flush_passive; [congruence | |].
    + rewrite Hact. by apply enqueue_passive.
    + rewrite Hact, enqueue_length. lia.
  - split; [done|]. simpl. by rewrite Hact, queue_tags_enqueue, Hlog.
Qed.

Lemma flush_runs_in_call_order_witness :
  exists w1 w2,
    schedule_all 5 calls3 fresh = Returns tt w1 /\
    map callback (actions w1) = map call_callback calls3 /\
    flush 5 w1 = Returns tt w2 /\
    log w2 = log fresh ++ flat_map (fun c => tags (call_callback c)) calls3.
Proof.
  destruct (flush_runs_in_call_order fresh calls3 5)
    as (w1 & Hrun & Hcbs & _ & _ & Hflush);
    [reflexivity | reflexivity | vm_compute; discriminate | repeat constructor
    | reflexivity |].
  destruct Hflush as (w2 & Hw2 & _ & Hlog); [repeat constructor | simpl; lia |].
  exists w1, w2. split; [exact Hrun|]. split; [exact Hcbs|]. split; [exact Hw2 | exact Hlog].
Defined.

(** ** Flushing past an observing prefix *)

Lemma queue_tags_cons a q :
  queue_tags (a :: q) =
  (if shouldCall a then tags (callback a) else []) ++ queue_tags q.
Proof. unfold queue_tags. simpl. by destruct (shouldCall a). Qed.

Lemma drain_prefix rest pre : forall w n,
  actions w = pre ++ rest -> Forall (fun a => passive (callback a) = true) pre ->
  drain (length pre + n) w = drain n (advanced pre rest w).
Proof.
  induction pre as [|a pre IH]; intros w n Hq Hp.
  - simpl. f_equal. unfold advanced, queue_tags. simpl. rewrite app_nil_r.
    destruct w; simpl in *. by subst.
  - inversion Hp as [|? ? Ha Hp']; subst.
    change (length (a :: pre) + n)%nat with (S (length pre + n)).
    simpl. rewrite Hq. simpl.
    assert (Hnext : forall w',
      actions w' = pre ++ rest ->
      currentFrame w' = executionFrame a ->
      log w' = log w ++ (if shouldCall a then tags (callback a) else []) ->
      isFlushing w' = isFlushing w -> next_action w' = next_action w ->
      disposables w' = disposables w -> infos w' = infos w -> sinks w' = sinks w ->
      subjects w' = subjects w -> arrays w' = arrays w -> sources w' = sources w ->
      advanced pre rest w' = advanced (a :: pre) rest w).
    { intros w' H1 H2 H3 H4 H5 H6 H7 H8 H9 H10 H11. unfold advanced.
      rewrite queue_tags_cons, app_assoc, <- H3.
      rewrite map_cons, last_cons_default, <- H2.
      destruct w, w'; simpl in *. by subst. }
    destruct (shouldCall a) eqn:Hcall.
    + rewrite call_passive by done. rewrite IH; [| done | done].
      f_equal. by apply Hnext.
    + rewrite IH; [| done | done]. f_equal. apply Hnext; try done.
      simpl. by rewrite app_nil_r.
Qed.

Lemma run_ops_passive_prefix fl fuel before rest w :
  forallb is_log before = true ->
  run_ops fl fuel (before ++ rest) w =
  run_ops fl fuel rest (set_log (log w ++ flat_map op_tags before) w).
Proof.
  revert w. induction before as [|op before IH]; intros w Hp; simpl in *.
  - rewrite app_nil_r. by destruct w.
  - apply andb_true_iff in Hp as [Hop Hp]. destruct op; try discriminate.
    unfold run_ops in *. simpl. unfold bind at 1. unfold modify.
    rewrite IH by done. f_equal. destruct w; simpl. unfold set_log; simpl.
    by rewrite <- app_assoc.
Qed.

(** ** Exceptions *)

(** Whatever the callbacks do: when the loop of flush ends with an exception,
    the schedule has been reset. *)
Lemma drain_throws_reset fuel : forall w error w',
  drain fuel w = Throws error w' ->
  actions w' = [] /\ currentFrame w' = Fin 0 /\ isFlushing w' = false.
Proof.
  induction fuel as [|fuel IH]; intros w error w' H; [done|]. simpl in H.
  destruct (actions w) as [|a rest]; [done|].
  destruct (shouldCall a); [|by eapply IH].
  destruct (call _ _ _ _) as [[] w2 | e w2 | |] eqn:Hcall; try done.
  - by eapply IH.
  - by inversion H; subst.
Qed.

Lemma flush_throws_reset fuel w error w' :
  flush fuel w = Throws error w' ->
  actions w' = [] /\ currentFrame w' = Fin 0 /\ isFlushing w' = false.
Proof.
  destruct fuel as [|fuel]; [done|]. simpl.
  destruct (isFlushing w); [done|]. unfold bind.
  destruct (drain fuel _) as [[] w2 | e w2 | |] eqn:Hd; try done.
  intros H. inversion H; subst. by eapply drain_throws_reset.
Qed.

(** C4.  A queue whose actions before [a] only observe, and [a] is called and
    throws [error] after having observed [before]: flush() ends with that
    exception, the queue is empty, currentFrame is 0 and the guard is
    cleared; the log holds what ran up to the throw and nothing of the rest of
    the throwing callback or of the later actions [post]. *)
Theorem flush_throw_resets (w : World) (pre post : list TestScheduleAction)
        (a : TestScheduleAction) (before after : list Op) (error : Z) (fuel : nat) :
  isFlushing w = false ->
  actions w = pre ++ a :: post ->
  Forall (fun x => passive (callback x) = true) pre ->
  shouldCall a = true ->
  callback a = CbUser (before ++ OThrow error :: after) ->
  forallb is_log before = true ->
  (length pre + 2 <= fuel)%nat ->
  exists w',
    flush fuel w = Throws error w' /\
    actions w' = [] /\ currentFrame w' = Fin 0 /\ isFlushing w' = false /\
    log w' = log w ++ queue_tags pre ++ flat_map op_tags before.
Proof.
  intros Hfl Hq Hp Hcall Hcb Hbefore Hfuel.
  destruct fuel as [|fuel]; [lia|].
  replace fuel with (length pre + S (fuel - S (length pre)))%nat by lia.
  set (n := (fuel - S (length pre))%nat).
  eexists. split.
  - change (flush (S (length pre + S n)) w) with
      (if isFlushing w then Returns tt w
       else (drain (length pre + S n) ;;; modify (set_isFlushing false))
              (set_isFlushing true w)).
    rewrite Hfl. unfold bind at 1.
    rewrite (drain_prefix (a :: post) pre); [| done | done].
    simpl. rewrite Hcall, Hcb. simpl.
    rewrite run_ops_passive_prefix by done.
    unfold run_ops. simpl. unfold bind. reflexivity.
  - simpl. by rewrite app_assoc.
Qed.

Lemma flush_throw_resets_witness :
  exists w',
    flush 3 (set_actions throwing_queue fresh) = Throws 42 w' /\
    actions w' = [] /\ currentFrame w' = Fin 0 /\ isFlushing w' = false /\
    log w' = [1; 2]%nat.
Proof.
  apply (flush_throw_resets (set_actions throwing_queue fresh)
           [mkAction 0 (CbUser [OLog 1]) (Fin 1) true]
           [mkAction 2 (CbUser [OLog 4]) (Fin 3) true]
           (mkAction 1 (CbUser [OLog 2; OThrow 42; OLog 3]) (Fin 2) true)
           [OLog 2] [OLog 3] 42 3);
    [reflexivity | reflexivity | repeat constructor | reflexivity | reflexivity
    | reflexivity | simpl; lia].
Defined.

(** ** Re-entrancy *)

(** While the guard is set, flush() returns at once and changes nothing. *)
Lemma flush_reentrant (w : World) (fuel : nat) :
  isFlushing w = true -> flush (S fuel) w = Returns tt w.
Proof. intros Hfl. simpl. by rewrite Hfl. Qed.

(** The guard is set when the callbacks run: the flush() inside the first
    callback of [reentrant_queue] does not run the second one early. *)
Example flush_reentrant_queue :
  exists w', flush 4 (set_actions reentrant_queue fresh) = Returns tt w' /\
             log w' = [1; 2; 3]%nat /\ isFlushing w' = false.
Proof. eexists. split; [vm_compute; reflexivity | split; reflexivity]. Qed.

(** ** Scenarios by evaluation *)

Ltac mono :=
  repeat first
    [ apply refines_refl
    | apply testSchedule_mono; lia
    | apply flush_mono; lia
    | apply watchSourceEvents_mono; lia
    | apply shared_schedule_mono; lia
    | apply bind_refines; [| intros ] ].

(** [Hm : refines (run k x) (run (k + n) x)]: evaluate the run with fuel [k]
    and read the conclusion off its result. *)
Ltac by_evaluation Hm :=
  match type of Hm with
  | refines _ ?o =>
      let r := fresh "r" in
      let Hr := fresh "Hr" in
      let H := fresh "H" in
      remember o as r eqn:Hr; vm_compute in Hm;
      destruct Hm as [H | H]; [discriminate H|];
      subst r; rewrite <- H;
      repeat eexists
  end.

(** ** Scenario A *)

Lemma scenario_A_mono n m w : (n <= m)%nat -> refines (scenario_A n w) (scenario_A m w).
Proof. intros. unfold scenario_A. mono. Qed.

(** C6.  On a fresh schedule, (cb1, 5), (cb2, 2), (cb3, 2) and a flush: the
    callbacks run in the order cb2, cb3, cb1 and currentFrame ends at 5. *)
Theorem scenario_A_order (n : nat) :
  exists w,
    scenario_A (5 + n) fresh = Returns tt w /\
    log w = [2; 3; 1]%nat /\ currentFrame w = Fin 5 /\ actions w = [].
Proof.
  pose proof (scenario_A_mono 5 (5 + n) fresh ltac:(lia)) as Hm.
  by_evaluation Hm.
Qed.

(** ** Scenario B *)

Lemma scenario_B_mono n m w : (n <= m)%nat -> refines (scenario_B n w) (scenario_B m w).
Proof. intros. unfold scenario_B. mono. Qed.

(** C7.  On a fresh schedule, the TestSource of [P(1, 0), P(2, 10), E(20)]
    watched with TestSubscriptionInfo(0, 25): the subscription starts at
    frame 0 and, after the flush, the recorded events are Push(1) at frame 0,
    Push(2) at frame 10 and End at frame 20. *)
Theorem scenario_B_records (n : nat) :
  exists source events w,
    scenario_B (8 + n) fresh = Returns (source, events) w /\
    arrays w !! events =
      Some [mkEvent (Push 1) (Fin 0); mkEvent (Push 2) (Fin 10); mkEvent End (Fin 20)] /\
    subscriptions_of source w = Some [mkInfo (Fin 0) (Fin 25)].
Proof.
  pose proof (scenario_B_mono 8 (8 + n) fresh ltac:(lia)) as Hm.
  by_evaluation Hm.
Qed.

(** ** watchSourceEvents away from frame 0 *)

Lemma late_watch_mono n m w : (n <= m)%nat -> refines (late_watch n w) (late_watch m w).
Proof. intros. unfold late_watch. mono. Qed.

(** C8.  The failing input: a flush brings the schedule to frame 3; then a
    TestSource with one event at frame 0 is watched with
    TestSubscriptionInfo(5, 8), and the schedule is flushed.  The source is
    subscribed to at frame 8, the event is recorded at frame 8 and the
    subscription is disposed at frame 11, where the flush ends: the two
    frames of the info are added to the frame at which watchSourceEvents is
    called, where the specification has the frames 5 and 8 themselves. *)
Theorem watchSourceEvents_misses_given_frames (n : nat) :
  exists source events w,
    late_watch (6 + n) fresh = Returns (source, events) w /\
    subscriptions_of source w = Some [mkInfo (Fin 8) (Fin 11)] /\
    arrays w !! events = Some [mkEvent (Push 1) (Fin 8)] /\
    currentFrame w = Fin 11.
Proof.
  pose proof (late_watch_mono 6 (6 + n) fresh ltac:(lia)) as Hm.
  by_evaluation Hm.
Qed.

(** The default subscriptionInfo starts at the current frame, 3, and this
    start is used as a delay as well: the source is subscribed at frame 6.
    The disposal, scheduled for frame Infinity, runs last. *)
Example default_watch_at_frame_3 :
  exists source events w,
    default_watch 6 fresh = Returns (source, events) w /\
    subscriptions_of source w = Some [mkInfo (Fin 6) Infinity] /\
    arrays w !! events = Some [mkEvent (Push 1) (Fin 6)] /\
    currentFrame w = Infinity.
Proof.
  do 3 eexists. split; [vm_compute; reflexivity|]. repeat split.
Qed.

(** ** Negative delays *)

(** C10, amended.  On a schedule at a finite frame [c], a call with a
    negative delay [d] and an absent or active subscription is accepted and
    inserts an action at frame [c + d], below the current frame; when the
    queue was empty and the callback only observes, the following flush runs
    the callback and leaves currentFrame at [c + d], behind where it was.
    [c], [d] and [c + d] are taken within 2^53 of 0, where the frames are
    added without rounding. *)
Theorem negative_delay_moves_frame_back (w : World) (cb : Callback) (c d : Z)
        (subscription : option nat) (fuel : nat) :
  currentFrame w = Fin c ->
  d < 0 ->
  - 2 ^ 53 <= d -> c <= 2 ^ 53 -> - 2 ^ 53 <= c + d ->
  usable subscription w = true ->
  Z.of_nat (length (actions w)) <= 2 ^ 31 ->
  exists w1,
    testSchedule fuel cb (Fin d) subscription w = Returns tt w1 /\
    mkAction (next_action w) cb (Fin (c + d)) true ∈ actions w1 /\
    length (actions w1) = S (length (actions w)) /\
    num_lt (Fin (c + d)) (currentFrame w1) /\
    (isFlushing w = false -> actions w = [] -> passive cb = true -> (3 <= fuel)%nat ->
     exists w2,
       flush fuel w1 = Returns tt w2 /\
       log w2 = log w ++ tags cb /\
       currentFrame w2 = Fin (c + d) /\
       num_lt (currentFrame w2) (currentFrame w)).
Proof.
  intros Hc Hd _ _ _ Hsub Hlen.
  destruct (testSchedule_scheduled fuel cb (Fin d) subscription w Hsub Hlen)
    as (index & _ & Hindex & Hrun).
  set (w1 := scheduled cb (Fin d) subscription index w) in *.
  destruct (scheduled_frame cb (Fin d) subscription index w) as (Hcf & Hfl1 & Hlog & _).
  fold w1 in Hcf, Hfl1, Hlog.
  assert (Hact : actions w1 =
                 splice index (mkAction (next_action w) cb (Fin (c + d)) true) (actions w)).
  { subst w1. by rewrite scheduled_actions, Hc. }
  exists w1. split; [done|].
  split; [rewrite Hact; apply elem_of_splice; by left|].
  split; [by rewrite Hact, splice_length|].
  split; [rewrite Hcf, Hc; unfold num_lt; simpl; lia|].
  intros Hfl Hq Hp Hfuel.
  assert (Hact1 : actions w1 = [mkAction (next_action w) cb (Fin (c + d)) true]).
  { rewrite Hact, Hq. rewrite Hq in Hindex. simpl in Hindex.
    replace index with 0 by lia. reflexivity. }
  exists (drained (actions w1) w1). split.
  - apply flush_passive; [congruence | | rewrite Hact1; simpl; lia].
    rewrite Hact1. by repeat constructor.
  - rewrite Hact1. unfold drained, queue_tags. simpl. rewrite app_nil_r, Hlog, Hc.
    repeat split. unfold num_lt. simpl. lia.
Qed.

Lemma negative_delay_moves_frame_back_witness :
  exists w1 w2,
    testSchedule 3 (CbUser [OLog 7]) (Fin (-4)) None fresh = Returns tt w1 /\
    mkAction 0 (CbUser [OLog 7]) (Fin (0 + -4)) true ∈ actions w1 /\
    flush 3 w1 = Returns tt w2 /\
    currentFrame w2 = Fin (0 + -4) /\
    num_lt (currentFrame w2) (currentFrame fresh).
Proof.
  destruct (negative_delay_moves_frame_back fresh (CbUser [OLog 7]) 0 (-4) None 3)
    as (w1 & Hrun & Hin & _ & _ & Hflush);
    [reflexivity | lia | lia | lia | lia | reflexivity | vm_compute; discriminate |].
  destruct Hflush as (w2 & Hw2 & _ & Hcf & Hlt); [reflexivity | reflexivity | reflexivity | lia |].
  exists w1, w2. split; [exact Hrun|]. split; [exact Hin|]. split; [exact Hw2|].
  split; [exact Hcf | exact Hlt].
Defined.

(** The schedule is at frame Infinity after [flush_to_infinity], with an
    empty queue.  A call with the delay -4 then inserts its action at frame
    Infinity, which is not below the current frame, and the flush that runs
    the callback leaves currentFrame where it was. *)
Lemma negative_delay_at_infinity_counterexample :
  exists w0 w1 w2,
    flush_to_infinity 6 fresh = Returns tt w0 /\
    currentFrame w0 = Infinity /\ actions w0 = [] /\ isFlushing w0 = false /\
    testSchedule 6 (CbUser [OLog 7]) (Fin (-4)) None w0 = Returns tt w1 /\
    actions w1 = [mkAction 3 (CbUser [OLog 7]) Infinity true] /\
    num_ltb Infinity (currentFrame w0) = false /\
    flush 6 w1 = Returns tt w2 /\
    log w2 = [7]%nat /\ currentFrame w2 = Infinity /\
    num_ltb (currentFrame w2) (currentFrame w0) = false.
Proof.
  do 3 eexists. split; [vm_compute; reflexivity|].
  split; [reflexivity|]. split; [reflexivity|]. split; [reflexivity|].
  split; [vm_compute; reflexivity|]. split; [reflexivity|]. split; [reflexivity|].
  split; [vm_compute; reflexivity|]. by repeat split.
Qed.

(** With frames in the queue that are not below the current frame, which is
    what non-negative delays produce, a flush does not move currentFrame
    back. *)
Lemma flush_frame_nondecreasing (w : World) (fuel : nat) :
  isFlushing w = false ->
  Forall (fun a => passive (callback a) = true) (actions w) ->
  Forall (fun a => num_le (currentFrame w) (executionFrame a)) (actions w) ->
  (S (length (actions w)) < fuel)%nat ->
  exists w', flush fuel w = Returns tt w' /\ num_le (currentFrame w) (currentFrame w').
Proof.
  intros Hfl Hp Hge Hfuel. eexists. split; [by apply flush_passive|].
  unfold drained. simpl.
  destruct (actions w) as [|a q] eqn:Hq; simpl; [apply num_le_refl|].
  rewrite Forall_forall in Hge.
  destruct (exists_last (l := a :: q)) as (q' & z & Hz); [done|].
  change (match map executionFrame q with
          | [] => executionFrame a
          | _ :: _ => List.last (map executionFrame q) (currentFrame w)
          end) with (List.last (map executionFrame (a :: q)) (currentFrame w)).
  rewrite Hz, map_app. simpl. rewrite last_last.
  apply Hge. rewrite Hz. apply list_elem_of_In, in_or_app. right. by left.
Qed.

(** ** What scheduling leaves alone *)

Lemma scheduled_store cb delay sub index w :
  infos (scheduled cb delay sub index w) = infos w /\
  sinks (scheduled cb delay sub index w) = sinks w /\
  subjects (scheduled cb delay sub index w) = subjects w /\
  arrays (scheduled cb delay sub index w) = arrays w /\
  sources (scheduled cb delay sub index w) = sources w.
Proof. by destruct sub. Qed.

(** A loop of scheduling calls under one subscription, as in the [forEach]
    of TestSource and of SharedTestSource.schedule. *)
Lemma for_each_testSchedule fuel (mk : TestSourceEvent -> Callback) sub evs : forall w,
  usable sub w = true ->
  Z.of_nat (length (actions w) + length evs) <= 2 ^ 31 ->
  exists w',
    for_each (fun ev => testSchedule fuel (mk ev) (frame ev) sub) evs w = Returns tt w' /\
    length (actions w') = (length (actions w) + length evs)%nat /\
    (forall a, a ∈ actions w -> a ∈ actions w') /\
    currentFrame w' = currentFrame w /\ isFlushing w' = isFlushing w /\
    log w' = log w /\ infos w' = infos w /\ sinks w' = sinks w /\
    subjects w' = subjects w /\ arrays w' = arrays w /\ sources w' = sources w.
Proof.
  induction evs as [|ev evs IH]; intros w Hsub Hlen.
  - exists w. simpl. rewrite Nat.add_0_r. by repeat split.
  - destruct (testSchedule_scheduled fuel (mk ev) (frame ev) sub w Hsub)
      as (index & _ & _ & Hrun); [simpl in Hlen; lia|].
    set (w1 := scheduled (mk ev) (frame ev) sub index w) in *.
    pose proof (scheduled_actions (mk ev) (frame ev) sub index w) as Hact.
    destruct (scheduled_frame (mk ev) (frame ev) sub index w) as (Hcf & Hfl & Hlog & _).
    destruct (scheduled_store (mk ev) (frame ev) sub index w) as (Hi & Hs & Hsj & Ha & Hsrc).
    fold w1 in Hact, Hcf, Hfl, Hlog, Hi, Hs, Hsj, Ha, Hsrc.
    destruct (IH w1) as (w' & Hrun' & Hlen' & Hin' & Hcf' & Hfl' & Hlog' & Hi' & Hs' & Hsj'
                         & Ha' & Hsrc').
    + by apply scheduled_usable.
    + rewrite Hact, splice_length. simpl in Hlen. lia.
    + exists w'. split; [simpl; unfold bind; by rewrite Hrun|].
      split; [rewrite Hlen', Hact, splice_length; simpl; lia|].
      split; [|repeat split; congruence].
      intros a Ha0. apply Hin'. rewrite Hact. apply elem_of_splice. by right.
Qed.

Lemma for_each_testSchedule_inactive fuel (mk : TestSourceEvent -> Callback) d evs w :
  (exists obj, disposables w !! d = Some obj /\ active obj = false) ->
  for_each (fun ev => testSchedule fuel (mk ev) (frame ev) (Some d)) evs w = Returns tt w.
Proof.
  intros Hd. induction evs as [|ev evs IH]; [done|].
  simpl. unfold bind. by rewrite testSchedule_inactive.
Qed.


(** ** watchSourceEvents *)

(** watchSourceEvents called at frame [currentFrame w] with an explicit
    subscriptionInfo creates the subscription and the events array and
    schedules two actions: the subscribing callback at frame
    [currentFrame w + subscriptionStartFrame] and the disposing callback at
    frame [currentFrame w + subscriptionEndFrame]. *)
Lemma watchSourceEvents_schedules_relative (w : World) (source : nat)
        (info : TestSubscriptionInfo) (fuel : nat) :
  Z.of_nat (length (actions w)) < 2 ^ 31 ->
  let subscription := length (disposables w) in
  let events := length (arrays w) in
  exists w',
    watchSourceEvents fuel source (Some info) w = Returns events w' /\
    mkAction (next_action w) (CbSubscribe source events subscription)
             (num_add (currentFrame w) (subscriptionStartFrame info)) true ∈ actions w' /\
    mkAction (S (next_action w)) (CbDispose subscription)
             (num_add (currentFrame w) (subscriptionEndFrame info)) true ∈ actions w' /\
    (forall a, a ∈ actions w -> a ∈ actions w') /\
    length (actions w') = (length (actions w) + 2)%nat /\
    currentFrame w' = currentFrame w /\
    disposables w' !! subscription = Some (mkDisposable true []) /\
    arrays w' !! events = Some [].
Proof.
  intros Hlen subscription events.
  cbv [watchSourceEvents bind ret Disposable].
  change (arrays (set_disposables (disposables w ++ [mkDisposable true []]) w))
    with (arrays w).
  fold events subscription.
  set (w0 := set_arrays (arrays w ++ [[]])
               (set_disposables (disposables w ++ [mkDisposable true []]) w)).
  destruct (testSchedule_scheduled fuel (CbSubscribe source events subscription)
              (subscriptionStartFrame info) None w0 eq_refl)
    as (i & _ & _ & Hrun1); [simpl; lia|].
  rewrite Hrun1.
  set (w1 := scheduled _ _ None i w0) in *.
  assert (Hact1 : actions w1 =
                  splice i (mkAction (next_action w)
                              (CbSubscribe source events subscription)
                              (num_add (currentFrame w) (subscriptionStartFrame info)) true)
                         (actions w)) by reflexivity.
  destruct (testSchedule_scheduled fuel (CbDispose subscription)
              (subscriptionEndFrame info) None w1 eq_refl)
    as (j & _ & _ & Hrun2); [rewrite Hact1, splice_length; lia|].
  rewrite Hrun2.
  set (w2 := scheduled _ _ None j w1) in *.
  assert (Hact2 : actions w2 =
                  splice j (mkAction (S (next_action w)) (CbDispose subscription)
                              (num_add (currentFrame w) (subscriptionEndFrame info)) true)
                         (actions w1)) by reflexivity.
  exists w2. split; [done|].
  rewrite Hact2, Hact1.
  split; [apply elem_of_splice; right; apply elem_of_splice; by left|].
  split; [apply elem_of_splice; by left|].
  split; [intros a Ha; apply elem_of_splice; right; apply elem_of_splice; by right|].
  split; [rewrite !splice_length; lia|].
  split; [done|].
  split; [apply list_lookup_middle; done | apply list_lookup_middle; done].
Qed.

(** ** SharedTestSource *)

Lemma same_schedule_refl w : same_schedule w w.
Proof. by repeat split. Qed.

Lemma same_schedule_trans w1 w2 w3 :
  same_schedule w1 w2 -> same_schedule w2 w3 -> same_schedule w1 w3.
Proof. unfold same_schedule. intros (?&?&?&?&?) (?&?&?&?&?). repeat split; congruence. Qed.

(** Registering the end-of-subscription teardown of a subscription info
    under the Disposable [b]. *)
Lemma watchSubscriptionInfo_effect fuel b w obj :
  disposables w !! b = Some obj -> (1 <= fuel)%nat ->
  exists w',
    watchSubscriptionInfo fuel (Some b) w = Returns (length (infos w)) w' /\
    same_schedule w w' /\
    sinks w' = sinks w /\ subjects w' = subjects w /\ arrays w' = arrays w /\
    sources w' = sources w /\
    length (infos w') = S (length (infos w)) /\
    infos w' !! length (infos w) =
      Some (mkInfo (currentFrame w) (if active obj then Infinity else currentFrame w)) /\
    (exists obj', disposables w' !! b = Some obj' /\ active obj' = active obj).
Proof.
  intros Hb Hfuel. cbv [watchSubscriptionInfo bind ret Disposable add run_child].
  cbn [disposables set_infos set_disposables].
  rewrite (lookup_app_l_Some _ _ _ _ Hb).
  destruct (active obj) eqn:Hact.
  - eexists. split; [reflexivity|]. split; [by repeat split|].
    cbn. repeat split; try done.
    + rewrite length_app. simpl. lia.
    + by apply list_lookup_middle.
    + rewrite list_lookup_alter_eq, (lookup_app_l_Some _ _ _ _ Hb). simpl.
      eexists. split; [reflexivity | done].
  - destruct fuel as [|fuel]; [lia|].
    cbn [dispose disposables set_infos set_disposables].
    rewrite list_lookup_middle by done.
    cbn [active children for_each run_child]. cbv [bind modify ret].
    eexists. split; [reflexivity|]. split; [by repeat split|].
    cbn. repeat split; try done.
    + rewrite length_alter, length_app. simpl. lia.
    + rewrite list_lookup_alter_eq, list_lookup_middle by done. reflexivity.
    + exists obj. split; [|done].
      rewrite list_lookup_alter_ne by (apply lookup_lt_Some in Hb; lia).
      by apply lookup_app_l_Some.
Qed.

(** schedule(subscription) with a subscription that was disposed before
    enqueues nothing, though the source declares two events. *)
Lemma shared_schedule_disposed_counterexample :
  exists w,
    schedule_disposed 2 fresh = Returns 0%nat w /\ actions w = [] /\
    length (actions w) <> length [P 1 (Fin 0); E (Fin 5)].
Proof.
  eexists. split; [vm_compute; reflexivity|]. split; [reflexivity|]. simpl. lia.
Qed.

(** ** TestSource *)

(** Subscribing an active Sink to a TestSource records the subscription with
    the current frame as its start and schedules one action per declared
    event. *)
Lemma TestSource_subscribe (w : World) (source sink : nat)
      (events : list TestSourceEvent) (subs : list nat) (s : SinkObj)
      (obj : DisposableObj) (fuel : nat) :
  sources w !! source = Some (TestSourceObj events subs) ->
  sinks w !! sink = Some s ->
  disposables w !! bound s = Some obj -> active obj = true ->
  Z.of_nat (length (actions w) + length events) <= 2 ^ 31 ->
  (1 <= fuel)%nat ->
  exists w',
    subscribe fuel source sink w = Returns tt w' /\
    sources w' !! source = Some (TestSourceObj events (subs ++ [length (infos w)])) /\
    infos w' !! length (infos w) = Some (mkInfo (currentFrame w) Infinity) /\
    length (actions w') = (length (actions w) + length events)%nat /\
    currentFrame w' = currentFrame w.
Proof.
  intros Hsrc Hsink Hd Hactive Hlen Hfuel. unfold subscribe, Source. rewrite Hsrc, Hsink.
  destruct (watchSubscriptionInfo_effect fuel (bound s) w obj Hd Hfuel)
    as (w1 & Hrun1 & (Ha1 & Hcf1 & _) & _ & _ & _ & Hsrc1 & _ & Hinfo1 & obj' & Hd1 & Hact1).
  rewrite Hactive in Hinfo1.
  unfold bind at 1. rewrite Hrun1. unfold bind at 1, push_subscription, modify.
  set (w2 := set_sources _ w1).
  destruct (for_each_testSchedule fuel (CbSinkEvent sink) (Some (bound s)) events w2)
    as (w3 & Hrun3 & Hlen3 & _ & Hcf3 & _ & _ & Hinfos3 & _ & _ & _ & Hsrc3).
  { unfold usable, is_active. subst w2. cbn. rewrite Hd1. congruence. }
  { subst w2. cbn. by rewrite Ha1. }
  exists w3. split; [done|].
  split; [rewrite Hsrc3; subst w2; cbn; by rewrite list_lookup_alter_eq, Hsrc1, Hsrc|].
  split; [by rewrite Hinfos3|].
  split; [rewrite Hlen3; subst w2; cbn; by rewrite Ha1|].
  rewrite Hcf3. subst w2. cbn. done.
Qed.

(** ** Disposing a subscription cancels its actions in place *)

Lemma cancel_ids_nil q : cancel_ids [] q = q.
Proof. unfold cancel_ids, is_cancelled. simpl. apply List.map_id. Qed.

Lemma cancel_ids_cons id ids q :
  cancel_ids ids (cancel_ids [id] q) = cancel_ids (id :: ids) q.
Proof.
  unfold cancel_ids. rewrite map_map. apply map_ext. intros a.
  unfold is_cancelled. simpl. rewrite orb_false_r.
  destruct (Nat.eqb (action_id a) id); simpl.
  - by destruct (existsb _ ids).
  - reflexivity.
Qed.

Lemma run_teardown_cancel id w :
  run_teardown (TdCancel id) w = set_actions (cancel_ids [id] (actions w)) w.
Proof.
  unfold run_teardown, cancel_ids, is_cancelled. simpl. f_equal.
  apply map_ext. intros a. by rewrite orb_false_r.
Qed.

Lemma dispose_S fuel d w :
  dispose (S fuel) d w =
  match disposables w !! d with
  | None => Stuck
  | Some obj =>
      if active obj then
        (for_each (run_child (dispose fuel)) (children obj) ;;;
         modify (fun w' => set_disposables (alter deactivate d (disposables w')) w')) w
      else Returns tt w
  end.
Proof. reflexivity. Qed.

(** Disposing the wrappers one after the other. *)
Lemma dispose_wrappers n regs : forall w,
  NoDup (map fst regs) ->
  Forall (fun r => disposables w !! fst r = Some (wrapper (snd r))) regs ->
  exists w',
    for_each (run_child (dispose (S n))) (map (fun r => ChildDisposable (fst r)) regs) w
      = Returns tt w' /\
    actions w' = cancel_ids (map snd regs) (actions w) /\
    currentFrame w' = currentFrame w /\ isFlushing w' = isFlushing w /\
    log w' = log w /\
    (forall x, x ∉ map fst regs -> disposables w' !! x = disposables w !! x).
Proof.
  induction regs as [|[c id] regs IH]; intros w Hnd Hall.
  - exists w. simpl. rewrite cancel_ids_nil. by repeat split.
  - inversion Hnd as [|? ? Hc Hnd']; subst. inversion Hall as [|? ? Hw Hall']; subst.
    simpl in Hw.
    set (w1 := set_disposables (alter deactivate c (disposables w))
                 (set_actions (cancel_ids [id] (actions w)) w)).
    assert (Hstep : run_child (dispose (S n)) (ChildDisposable c) w = Returns tt w1).
    { cbn [run_child]. rewrite dispose_S, Hw.
      cbn [wrapper active children for_each run_child].
      cbv [bind modify ret]. by rewrite run_teardown_cancel. }
    destruct (IH w1) as (w' & Hrun & Hact & Hcf & Hfl & Hlog & Hother); [done | |].
    { rewrite Forall_forall in *. intros r Hr. subst w1. cbn.
      rewrite list_lookup_alter_ne; [by apply Hall'|].
      intros ->. apply Hc. apply list_elem_of_In. apply list_elem_of_In in Hr.
      apply in_map_iff. by exists r. }
    exists w'. split.
    { cbn [map for_each fst]. unfold bind at 1. by rewrite Hstep. }
    split; [rewrite Hact; exact (cancel_ids_cons id (map snd regs) (actions w))|].
    repeat split; try done.
    intros x Hx. rewrite Hother.
    + subst w1. cbn. apply list_lookup_alter_ne. intros ->. apply Hx. simpl. by left.
    + intros Hin. apply Hx. simpl. by right.
Qed.

Lemma dispose_registered base d regs w fuel :
  registered base d regs w -> (2 <= fuel)%nat ->
  exists w',
    dispose fuel d w = Returns tt w' /\
    actions w' = cancel_ids (map snd regs) (actions w) /\
    currentFrame w' = currentFrame w /\ isFlushing w' = isFlushing w /\
    log w' = log w /\ is_active d w' = false.
Proof.
  intros ([Hd _] & Hlook & Hnd & Hall) Hfuel.
  destruct fuel as [|[|n]]; [lia | lia |].
  destruct (dispose_wrappers n regs w Hnd) as (w1 & Hrun & Hact & Hcf & Hfl & Hlog & Hother).
  { eapply Forall_impl; [exact Hall|]. by intros r [_ Hr]. }
  eexists. split.
  { rewrite dispose_S, Hlook. cbn [active children].
    unfold bind at 1. rewrite Hrun. reflexivity. }
  cbn. repeat split; try done.
  unfold is_active. cbn. rewrite list_lookup_alter_eq, Hother, Hlook; [done|].
  intros Hin. apply list_elem_of_In, in_map_iff in Hin as (r & Hr1 & Hr2).
  rewrite Forall_forall in Hall. apply list_elem_of_In in Hr2.
  destruct (Hall r Hr2) as [Hge _]. lia.
Qed.

(** ** Scheduling under a subscription registers the cancelling wrappers *)



(** ** Which callbacks run after a cancellation *)



Lemma cancel_ids_passive ids q :
  Forall (fun a => passive (callback a) = true) q ->
  Forall (fun a => passive (callback a) = true) (cancel_ids ids q).
Proof.
  unfold cancel_ids. induction q as [|a q IH]; intros Hq; [constructor|].
  inversion Hq; subst. simpl. constructor; [|by apply IH].
  by destruct (is_cancelled ids a).
Qed.



(** The same three calls, evaluated: the flush runs cb3, cb1, cb2; after the
    disposal the queue still holds three actions and the flush runs cb3,
    cb1. *)
Example cancel_calls_run :
  exists w1 w2 w3 w4,
    schedule_all 5 cancel_calls cancel_store = Returns tt w1 /\
    flush 5 w1 = Returns tt w2 /\ log w2 = [3; 1; 2]%nat /\
    dispose 5 0 w1 = Returns tt w3 /\
    map shouldCall (actions w3) = [true; true; false] /\
    flush 5 w3 = Returns tt w4 /\ log w4 = [3; 1]%nat.
Proof.
  do 4 eexists.
  split; [vm_compute; reflexivity|]. split; [vm_compute; reflexivity|].
  split; [reflexivity|]. split; [vm_compute; reflexivity|].
  split; [reflexivity|]. split; [vm_compute; reflexivity | reflexivity].
Qed.

(** ** Disposal by a scheduled callback, during the flush *)

Lemma registered_ext base d regs w w' :
  disposables w' = disposables w -> registered base d regs w -> registered base d regs w'.
Proof. unfold registered. by intros ->. Qed.

(** The subscription is disposed by an action of the queue, as
    watchSourceEvents does at the end of its window: the actions before it
    run, those after it run unless they were scheduled under the
    subscription. *)
Lemma disposal_during_flush base d regs w pre x post fuel :
  isFlushing w = false -> actions w = pre ++ x :: post ->
  registered base d regs w ->
  Forall (fun a => passive (callback a) = true) pre ->
  Forall (fun a => passive (callback a) = true) post ->
  shouldCall x = true -> callback x = CbDispose d ->
  (length pre + length post + 4 <= fuel)%nat ->
  exists w',
    flush fuel w = Returns tt w' /\ actions w' = [] /\
    log w' = log w ++ queue_tags pre ++ queue_tags (cancel_ids (map snd regs) post).
Proof.
  intros Hfl Hq Hreg Hpre Hpost Hcall Hcb Hfuel.
  destruct fuel as [|fuel]; [lia|].
  replace fuel with (length pre + S (S (S (fuel - length pre - 3))))%nat by lia.
  set (n := S (S (fuel - length pre - 3))).
  set (wt := set_isFlushing true w).
  set (w1 := set_currentFrame (executionFrame x)
               (set_actions post (advanced pre (x :: post) wt))).
  destruct (dispose_registered base d regs w1 n) as (w3 & Hdis & Hact & Hcf & Hfl3 & Hlog & _);
    [by apply (registered_ext _ _ _ w) | subst n; lia |].
  assert (Hdrain : drain n w3 = Returns tt (drained (actions w3) w3)).
  { apply drain_passive; [done | |].
    - rewrite Hact. by apply cancel_ids_passive.
    - rewrite Hact. unfold cancel_ids. rewrite length_map. subst n. simpl. lia. }
  eexists. split.
  - change (flush (S (length pre + S n)) w) with
      (if isFlushing w then Returns tt w
       else (drain (length pre + S n) ;;; modify (set_isFlushing false)) wt).
    rewrite Hfl. unfold bind at 1.
    rewrite (drain_prefix (x :: post) pre); [| done | done].
    change (drain (S n) (advanced pre (x :: post) wt)) with
      (if shouldCall x then
         match call (flush n) n (callback x) w1 with
         | Returns _ w2 => drain n w2
         | Throws error w2 => Throws error (reset w2)
         | OutOfFuel => OutOfFuel
         | Stuck => Stuck
         end
       else drain n w1).
    rewrite Hcall, Hcb. cbn [call]. rewrite Hdis, Hdrain. reflexivity.
  - split; [reflexivity|]. cbn. rewrite Hlog, Hact. cbn. by rewrite app_assoc.
Qed.


(** The End event scheduled for frame 20 stays in the queue until it is
    dequeued, and is skipped: its subscription was disposed at frame 15. *)
Example early_unsubscribe_records :
  exists source events w,
    early_unsubscribe 8 fresh = Returns (source, events) w /\
    arrays w !! events = Some [mkEvent (Push 1) (Fin 0); mkEvent (Push 2) (Fin 10)] /\
    subscriptions_of source w = Some [mkInfo (Fin 0) (Fin 15)] /\
    currentFrame w = Fin 20.
Proof.
  do 3 eexists. split; [vm_compute; reflexivity|]. repeat split.
Qed.

(** * Further properties of the module *)

(** ** getActionInsertIndex on any queue *)

(** X1.  On any queue of at most 2^31 actions, sorted or not, and for any
    frame, getActionInsertIndex ends, reads no element outside the queue, and
    returns an index between 0 and the length of the queue. *)
Theorem getActionInsertIndex_in_range (l : list TestScheduleAction) (f : num) :
  Z.of_nat (length l) <= 2 ^ 31 ->
  exists index,
    getActionInsertIndex l f = Some index /\ 0 <= index <= Z.of_nat (length l).
Proof. intros Hlen. by apply getActionInsertIndex_total. Qed.

Lemma getActionInsertIndex_in_range_witness :
  exists index,
    getActionInsertIndex (rev queue3) (Fin 3) = Some index /\
    0 <= index <= Z.of_nat (length (rev queue3)).
Proof.
  apply (getActionInsertIndex_in_range (rev queue3) (Fin 3)). vm_compute. discriminate.
Defined.

(** ** Any sequence of calls *)

Lemma schedule_all_perm fuel calls : forall w,
  Forall (fun c => usable (call_subscription c) w = true) calls ->
  Z.of_nat (length (actions w) + length calls) <= 2 ^ 31 ->
  exists w1,
    schedule_all fuel calls w = Returns tt w1 /\
    Permutation (actions w1) (actions w ++ enqueue (next_action w) (currentFrame w) calls) /\
    currentFrame w1 = currentFrame w /\ isFlushing w1 = isFlushing w /\
    log w1 = log w /\ next_action w1 = (next_action w + length calls)%nat.
Proof.
  induction calls as [|c calls IH]; intros w Hcalls Hlen.
  - exists w. simpl. rewrite app_nil_r, Nat.add_0_r.
    split; [done|]. split; [reflexivity|]. done.
  - inversion Hcalls as [|? ? Hu Hcalls']; subst.
    destruct (testSchedule_scheduled fuel (call_callback c) (call_delayFrames c)
                (call_subscription c) w Hu) as (index & _ & _ & Hrun); [simpl in Hlen; lia|].
    set (w' := scheduled _ _ _ index w) in *.
    pose proof (scheduled_actions (call_callback c) (call_delayFrames c)
                  (call_subscription c) index w) as Hact.
    destruct (scheduled_frame (call_callback c) (call_delayFrames c) (call_subscription c)
                index w) as (Hcf & Hfl & Hlog & Hnext).
    fold w' in Hact, Hcf, Hfl, Hlog, Hnext.
    destruct (IH w') as (w1 & Hrun1 & Hperm & Hcf1 & Hfl1 & Hlog1 & Hnext1).
    + eapply Forall_impl; [exact Hcalls'|]. intros c' Hc'. by apply scheduled_usable.
    + rewrite Hact, splice_length. simpl in Hlen. lia.
    + exists w1. split.
      { unfold schedule_all in *. simpl. unfold bind. by rewrite Hrun. }
      split.
      { rewrite Hperm, Hact, Hcf, Hnext, splice_Permutation. simpl.
        apply Permutation_middle. }
      repeat split; try congruence. rewrite Hnext1, Hnext. simpl. lia.
Qed.

(** ** The queue is ordered by frame, first scheduled first *)

Lemma key_leb_frame a b : key_leb a b = true -> num_le (executionFrame a) (executionFrame b).
Proof.
  unfold key_leb. rewrite orb_true_iff, andb_true_iff.
  intros [H | [H _]]; [by apply num_lt_le|].
  apply num_eqb_eq in H. rewrite H. apply num_le_refl.
Qed.

Lemma fifo_sortedb_cons x l :
  fifo_sortedb (x :: l) = true <->
  (forall b, In b l -> key_leb x b = true) /\ fifo_sortedb l = true.
Proof. simpl. by rewrite andb_true_iff, forallb_forall. Qed.

Lemma fifo_sortedb_sorted l : fifo_sortedb l = true -> sorted l.
Proof.
  induction l as [|x l IH]; intros H; [done|].
  apply fifo_sortedb_cons in H as [Hx Hl]. apply sorted_cons. split; [|by apply IH].
  intros b Hb. by apply key_leb_frame, Hx.
Qed.

Lemma fifo_sortedb_lookup l i j a b :
  fifo_sortedb l = true -> (i < j)%nat -> l !! i = Some a -> l !! j = Some b ->
  key_leb a b = true.
Proof.
  revert i j. induction l as [|x l IH]; intros i j Hs Hij Hi Hj; [done|].
  apply fifo_sortedb_cons in Hs as [Hx Hs].
  destruct i as [|i], j as [|j]; simpl in *; try lia.
  - inversion Hi; subst. apply Hx, list_elem_of_In. eapply list_elem_of_lookup_2, Hj.
  - apply (IH i j); [done | lia | done | done].
Qed.

(** Inserting a newer action at the index that getActionInsertIndex computes
    keeps the order. *)
Lemma fifo_sortedb_splice a l :
  fifo_sortedb l = true ->
  (forall b, In b l -> (action_id b < action_id a)%nat) ->
  fifo_sortedb (splice (Z.of_nat (count_le (executionFrame a) l)) a l) = true.
Proof.
  induction l as [|x l IH]; intros Hs Hid; [done|].
  pose proof (fifo_sortedb_sorted _ Hs) as Hsorted.
  apply sorted_cons in Hsorted as [Hxs _].
  apply fifo_sortedb_cons in Hs as [Hx Hs]. rewrite count_le_cons.
  destruct (num_leb (executionFrame x) (executionFrame a)) eqn:Hxa.
  - rewrite splice_S. apply fifo_sortedb_cons. split.
    + intros b Hb. apply list_elem_of_In, elem_of_splice in Hb as [-> | Hb];
        [|by apply Hx, list_elem_of_In].
      unfold key_leb. apply num_leb_le in Hxa.
      destruct (num_ltb (executionFrame x) (executionFrame a)) eqn:Hlt; [done|]. simpl.
      apply andb_true_iff. split.
      * apply num_eqb_eq. by apply num_le_antisym.
      * apply Nat.leb_le. specialize (Hid x (or_introl eq_refl)). lia.
    + apply IH; [done|]. intros b Hb. apply Hid. by right.
  - apply num_leb_gt in Hxa. rewrite count_le_above.
    + unfold splice. simpl. rewrite andb_true_iff. split; [|by apply fifo_sortedb_cons].
      apply andb_true_iff. split.
      * unfold key_leb. unfold num_lt in Hxa. by rewrite Hxa.
      * apply forallb_forall. intros b Hb. unfold key_leb.
        assert (Hlt : num_lt (executionFrame a) (executionFrame b))
          by (eapply num_lt_le_trans; [exact Hxa | by apply Hxs]).
        unfold num_lt in Hlt. by rewrite Hlt.
    + intros b Hb. eapply num_lt_le_trans; [exact Hxa | by apply Hxs].
Qed.

Lemma scheduled_fifo_queue cb delay sub w :
  fifo_queue w ->
  fifo_queue
    (scheduled cb delay sub
       (Z.of_nat (count_le (num_add (currentFrame w) delay) (actions w))) w).
Proof.
  intros [Hs Hid]. unfold fifo_queue.
  destruct (scheduled_frame cb delay sub
              (Z.of_nat (count_le (num_add (currentFrame w) delay) (actions w))) w)
    as (_ & _ & _ & ->).
  rewrite scheduled_actions.
  set (a := mkAction (next_action w) cb (num_add (currentFrame w) delay) true).
  rewrite Forall_forall in Hid. split.
  - apply (fifo_sortedb_splice a); [done|].
    intros b Hb. by apply Hid, list_elem_of_In.
  - apply Forall_forall. intros b Hb. apply elem_of_splice in Hb as [-> | Hb].
    + simpl. lia.
    + specialize (Hid b Hb). lia.
Qed.

Lemma schedule_all_fifo_queue fuel calls : forall w,
  fifo_queue w ->
  Forall (fun c => usable (call_subscription c) w = true) calls ->
  Z.of_nat (length (actions w) + length calls) <= 2 ^ 31 ->
  exists w1, schedule_all fuel calls w = Returns tt w1 /\ fifo_queue w1.
Proof.
  induction calls as [|c calls IH]; intros w Hq Hcalls Hlen; [by exists w|].
  inversion Hcalls as [|? ? Hu Hcalls']; subst.
  destruct (testSchedule_scheduled fuel (call_callback c) (call_delayFrames c)
              (call_subscription c) w Hu) as (index & Hindex & _ & Hrun); [simpl in Hlen; lia|].
  rewrite getActionInsertIndex_count in Hindex;
    [| simpl in Hlen; lia | by apply fifo_sortedb_sorted, Hq].
  inversion Hindex; subst index.
  set (w' := scheduled _ _ _ _ w) in *.
  destruct (IH w') as (w1 & Hrun1 & Hq1).
  - by apply scheduled_fifo_queue.
  - eapply Forall_impl; [exact Hcalls'|]. intros c' Hc'. by apply scheduled_usable.
  - subst w'. rewrite scheduled_actions, splice_length. simpl in Hlen. lia.
  - exists w1. split; [|done].
    unfold schedule_all in *. simpl. unfold bind. by rewrite Hrun.
Qed.

(** X2.  Whatever the delays of a sequence of calls are, and in whatever
    order the calls are made: on a queue ordered by frame with the action
    scheduled first in front within a frame, the calls leave a queue that is
    ordered the same way, and that holds the old actions and one new action
    per call.  So of two queued actions the one with the lower frame is in
    front, and of two with the same frame the one scheduled first. *)
Theorem testSchedule_keeps_fifo_order (w : World) (calls : list Call) (fuel : nat) :
  fifo_queue w ->
  Forall (fun c => usable (call_subscription c) w = true) calls ->
  Z.of_nat (length (actions w) + length calls) <= 2 ^ 31 ->
  exists w1,
    schedule_all fuel calls w = Returns tt w1 /\
    fifo_queue w1 /\
    Permutation (actions w1)
                (actions w ++ enqueue (next_action w) (currentFrame w) calls) /\
    (forall i j a b,
       (i < j)%nat -> actions w1 !! i = Some a -> actions w1 !! j = Some b ->
       num_le (executionFrame a) (executionFrame b) /\
       (executionFrame a = executionFrame b -> (action_id a <= action_id b)%nat)).
Proof.
  intros Hq Hu Hlen.
  destruct (schedule_all_fifo_queue fuel calls w Hq Hu Hlen) as (w1 & Hrun & Hq1).
  destruct (schedule_all_perm fuel calls w Hu Hlen) as (w1' & Hrun' & Hperm & _).
  rewrite Hrun in Hrun'. inversion Hrun'; subst w1'.
  exists w1. split; [done|]. split; [done|]. split; [done|].
  intros i j a b Hij Ha Hb.
  pose proof (fifo_sortedb_lookup _ i j a b (proj1 Hq1) Hij Ha Hb) as Hkey.
  split; [by apply key_leb_frame|].
  intros Heq. unfold key_leb in Hkey. rewrite Heq, num_ltb_irrefl in Hkey. simpl in Hkey.
  apply andb_true_iff in Hkey as [_ Hle]. by apply Nat.leb_le.
Qed.


Lemma testSchedule_keeps_fifo_order_witness :
  exists w1,
    schedule_all 1 unordered_calls fresh = Returns tt w1 /\
    fifo_queue w1 /\
    Permutation (actions w1) (enqueue 0 (Fin 0) unordered_calls).
Proof.
  destruct (testSchedule_keeps_fifo_order fresh unordered_calls 1)
    as (w1 & Hrun & Hq & Hperm & _);
    [split; [reflexivity | constructor] | repeat constructor | vm_compute; discriminate |].
  exists w1. split; [exact Hrun|]. split; [exact Hq | exact Hperm].
Defined.

(** ** flush *)

(** X3.  flush sets currentFrame from every action that it dequeues, called
    or not: after the flush of a queue of observing callbacks, currentFrame is
    the frame of the last queued action, and when every action was cancelled
    the flush has run nothing at all. *)
Theorem flush_advances_past_cancelled (w : World) (q : list TestScheduleAction)
        (a : TestScheduleAction) (fuel : nat) :
  isFlushing w = false -> actions w = q ++ [a] ->
  Forall (fun x => passive (callback x) = true) (actions w) ->
  (S (length (actions w)) < fuel)%nat ->
  exists w',
    flush fuel w = Returns tt w' /\
    actions w' = [] /\ isFlushing w' = false /\
    currentFrame w' = executionFrame a /\
    log w' = log w ++ queue_tags (actions w) /\
    (Forall (fun x => shouldCall x = false) (actions w) -> log w' = log w).
Proof.
  intros Hfl Hq Hp Hfuel. exists (drained (actions w) w).
  split; [by apply flush_passive|]. split; [done|]. split; [done|].
  split.
  { change (currentFrame (drained (actions w) w))
      with (List.last (map executionFrame (actions w)) (currentFrame w)).
    rewrite Hq, map_app. apply last_last. }
  split; [done|].
  intros Hall. simpl. unfold queue_tags.
  assert (Hnil : List.filter shouldCall (actions w) = []).
  { clear -Hall. induction (actions w) as [|x l IH]; [done|].
    inversion Hall as [|? ? Hx Hl]; subst. simpl. rewrite Hx. by apply IH. }
  rewrite Hnil. simpl. by rewrite app_nil_r.
Qed.


Lemma flush_advances_past_cancelled_witness :
  exists w',
    flush 4 (set_actions cancelled_queue fresh) = Returns tt w' /\
    currentFrame w' = Fin 9 /\ log w' = [].
Proof.
  destruct (flush_advances_past_cancelled (set_actions cancelled_queue fresh)
              [mkAction 0 (CbUser [OLog 1]) (Fin 4) false]
              (mkAction 1 (CbUser [OLog 2]) (Fin 9) false) 4)
    as (w' & Hrun & _ & _ & Hcf & _ & Hlog);
    [reflexivity | reflexivity | repeat constructor | simpl; lia |].
  exists w'. split; [exact Hrun|]. split; [exact Hcf|]. apply Hlog. repeat constructor.
Defined.

(** X4.  A callback that calls reset() in the middle of a flush: the actions
    that were still queued are dropped without being run, the callback itself
    goes on to its end, and the flush returns normally with an empty queue,
    currentFrame 0 and the guard cleared. *)
Theorem reset_during_flush (w : World) (pre post : list TestScheduleAction)
        (a : TestScheduleAction) (before after : list Op) (fuel : nat) :
  isFlushing w = false ->
  actions w = pre ++ a :: post ->
  Forall (fun x => passive (callback x) = true) pre ->
  shouldCall a = true ->
  callback a = CbUser (before ++ OReset :: after) ->
  forallb is_log before = true -> forallb is_log after = true ->
  (length pre + 3 <= fuel)%nat ->
  exists w',
    flush fuel w = Returns tt w' /\
    actions w' = [] /\ currentFrame w' = Fin 0 /\ isFlushing w' = false /\
    log w' = log w ++ queue_tags pre ++ flat_map op_tags before ++ flat_map op_tags after.
Proof.
  intros Hfl Hq Hp Hcall Hcb Hbefore Hafter Hfuel.
  destruct fuel as [|fuel]; [lia|].
  replace fuel with (length pre + S (S (fuel - length pre - 2)))%nat by lia.
  set (n := S (fuel - length pre - 2)).
  set (wt := set_isFlushing true w).
  set (w1 := set_currentFrame (executionFrame a)
               (set_actions post (advanced pre (a :: post) wt))).
  eexists. split.
  - change (flush (S (length pre + S n)) w) with
      (if isFlushing w then Returns tt w
       else (drain (length pre + S n) ;;; modify (set_isFlushing false)) wt).
    rewrite Hfl. unfold bind at 1.
    rewrite (drain_prefix (a :: post) pre); [| done | done].
    change (drain (S n) (advanced pre (a :: post) wt)) with
      (if shouldCall a then
         match call (flush n) n (callback a) w1 with
         | Returns _ w2 => drain n w2
         | Throws error w2 => Throws error (reset w2)
         | OutOfFuel => OutOfFuel
         | Stuck => Stuck
         end
       else drain n w1).
    rewrite Hcall, Hcb. cbn [call].
    rewrite run_ops_passive_prefix by done.
    unfold run_ops. cbn [for_each run_op]. unfold bind at 1, modify at 1.
    fold (run_ops (flush n) n after). rewrite run_ops_passive by done.
    subst n. cbn [drain]. reflexivity.
  - cbn. by rewrite <- !app_assoc.
Qed.

Lemma reset_during_flush_witness :
  exists w',
    flush 3 (set_actions resetting_queue fresh) = Returns tt w' /\
    actions w' = [] /\ currentFrame w' = Fin 0 /\ isFlushing w' = false /\
    log w' = [1; 2]%nat.
Proof.
  apply (reset_during_flush (set_actions resetting_queue fresh) []
           [mkAction 1 (CbUser [OLog 3]) (Fin 9) true]
           (mkAction 0 (CbUser [OLog 1; OReset; OLog 2]) (Fin 4) true)
           [OLog 1] [OLog 2] 3);
    [reflexivity | reflexivity | constructor | reflexivity | reflexivity
    | reflexivity | reflexivity | simpl; lia].
Defined.

(** X5.  A callback that schedules an action during the flush: the delay
    counts from the frame of the running action, the action is inserted among
    those still queued, and it runs in the same flush, which goes on until the
    queue is empty. *)
Theorem schedule_during_flush (w : World) (pre rest : list TestScheduleAction)
        (a : TestScheduleAction) (before after : list Op) (cb : Callback)
        (delay : num) (fuel : nat) :
  isFlushing w = false ->
  actions w = pre ++ a :: rest ->
  Forall (fun x => passive (callback x) = true) pre ->
  Forall (fun x => passive (callback x) = true) rest ->
  shouldCall a = true ->
  callback a = CbUser (before ++ OSchedule cb delay None :: after) ->
  forallb is_log before = true -> forallb is_log after = true ->
  passive cb = true ->
  Z.of_nat (length rest) <= 2 ^ 31 ->
  (length pre + length rest + 4 <= fuel)%nat ->
  exists index w',
    getActionInsertIndex rest (num_add (executionFrame a) delay) = Some index /\
    flush fuel w = Returns tt w' /\
    actions w' = [] /\ isFlushing w' = false /\
    log w' = log w ++ queue_tags pre ++ flat_map op_tags before ++ flat_map op_tags after ++
             queue_tags (splice index
                           (mkAction (next_action w) cb
                                     (num_add (executionFrame a) delay) true) rest).
Proof.
  intros Hfl Hq Hpre Hrest Hcall Hcb Hbefore Hafter Hpcb Hlen Hfuel.
  destruct fuel as [|fuel]; [lia|].
  replace fuel with (length pre + S (S (S (fuel - length pre - 3))))%nat by lia.
  set (n := S (S (fuel - length pre - 3))).
  set (wt := set_isFlushing true w).
  set (w1 := set_currentFrame (executionFrame a)
               (set_actions rest (advanced pre (a :: rest) wt))).
  set (w2 := set_log (log w1 ++ flat_map op_tags before) w1).
  destruct (testSchedule_scheduled n cb delay None w2 eq_refl)
    as (index & Hindex & _ & Hrun); [done|].
  set (w3 := scheduled cb delay None index w2) in *.
  set (w4 := set_log (log w3 ++ flat_map op_tags after) w3).
  set (new := mkAction (next_action w) cb (num_add (executionFrame a) delay) true).
  assert (Hact : actions w4 = splice index new rest) by reflexivity.
  assert (Hdrain : drain n w4 = Returns tt (drained (actions w4) w4)).
  { apply drain_passive; [done | |].
    - rewrite Hact. apply Forall_forall. intros x Hx.
      apply elem_of_splice in Hx as [-> | Hx]; [done|].
      rewrite Forall_forall in Hrest. by apply Hrest.
    - rewrite Hact, splice_length. subst n. lia. }
  exists index, (set_isFlushing false (drained (actions w4) w4)).
  split; [exact Hindex|]. split.
  - change (flush (S (length pre + S n)) w) with
      (if isFlushing w then Returns tt w
       else (drain (length pre + S n) ;;; modify (set_isFlushing false)) wt).
    rewrite Hfl. unfold bind at 1.
    rewrite (drain_prefix (a :: rest) pre); [| done | done].
    change (drain (S n) (advanced pre (a :: rest) wt)) with
      (if shouldCall a then
         match call (flush n) n (callback a) w1 with
         | Returns _ w2 => drain n w2
         | Throws error w2 => Throws error (reset w2)
         | OutOfFuel => OutOfFuel
         | Stuck => Stuck
         end
       else drain n w1).
    rewrite Hcall, Hcb. cbn [call].
    rewrite run_ops_passive_prefix by done. fold w2.
    unfold run_ops. cbn [for_each run_op]. unfold bind at 1. rewrite Hrun.
    fold (run_ops (flush n) n after). rewrite run_ops_passive by done. fold w4.
    rewrite Hdrain. reflexivity.
  - split; [reflexivity|]. split; [reflexivity|].
    cbn. rewrite <- !app_assoc. reflexivity.
Qed.

Lemma schedule_during_flush_witness :
  exists index w',
    getActionInsertIndex [mkAction 1 (CbUser [OLog 4]) (Fin 9) true] (Fin 6) = Some index /\
    flush 5 (set_next_action 2 (set_actions scheduling_queue fresh)) = Returns tt w' /\
    log w' = [1; 2; 3; 4]%nat.
Proof.
  destruct (schedule_during_flush (set_next_action 2 (set_actions scheduling_queue fresh)) []
              [mkAction 1 (CbUser [OLog 4]) (Fin 9) true]
              (mkAction 0 (CbUser [OLog 1; OSchedule (CbUser [OLog 3]) (Fin 2) None; OLog 2])
                        (Fin 4) true)
              [OLog 1] [OLog 2] (CbUser [OLog 3]) (Fin 2) 5)
    as (index & w' & Hindex & Hrun & _ & _ & Hlog);
    [reflexivity | reflexivity | constructor | repeat constructor | reflexivity
    | reflexivity | reflexivity | reflexivity | reflexivity | vm_compute; discriminate
    | simpl; lia |].
  exists index, w'. split; [exact Hindex|]. split; [exact Hrun|].
  rewrite Hlog. simpl in Hindex. vm_compute in Hindex. inversion Hindex. reflexivity.
Defined.

(** ** Timelines *)

Lemma for_each_timeline fuel mk sub evs w :
  for_each (fun ev => testSchedule fuel (mk ev) (frame ev) sub) evs w =
  schedule_all fuel (timeline_calls mk sub evs) w.
Proof.
  revert w. unfold schedule_all, timeline_calls.
  induction evs as [|ev evs IH]; intros w; [done|].
  simpl. unfold bind. destruct (testSchedule _ _ _ _ w); auto.
Qed.

Lemma timeline_calls_usable mk sub evs w :
  usable sub w = true ->
  Forall (fun c => usable (call_subscription c) w = true) (timeline_calls mk sub evs).
Proof.
  intros Hu. unfold timeline_calls. apply Forall_forall. intros c Hc.
  apply list_elem_of_fmap in Hc as (ev & -> & _). done.
Qed.

Lemma timeline_calls_length mk sub evs : length (timeline_calls mk sub evs) = length evs.
Proof. unfold timeline_calls. apply length_map. Qed.

(** ** Disposables that wrap one teardown each *)

Lemma same_but_disposables_refl w : same_but_disposables w w.
Proof. reflexivity. Qed.

Lemma run_teardown_set_disposables td l w :
  run_teardown td (set_disposables l w) = set_disposables l (run_teardown td w).
Proof. by destruct td. Qed.

Lemma run_teardown_disposables td w : disposables (run_teardown td w) = disposables w.
Proof. by destruct td. Qed.

Lemma run_teardown_same td w w' :
  same_but_disposables w w' ->
  same_but_disposables (run_teardown td w) (run_teardown td w').
Proof.
  unfold same_but_disposables. intros H.
  by rewrite <- !run_teardown_set_disposables, H.
Qed.

Lemma run_teardowns_same tds : forall w w',
  same_but_disposables w w' ->
  same_but_disposables (run_teardowns tds w) (run_teardowns tds w').
Proof.
  induction tds as [|td tds IH]; intros w w' H; [done|].
  simpl. by apply IH, run_teardown_same.
Qed.

Lemma dispose_wrapped n regs : forall w,
  NoDup (map fst regs) ->
  Forall (fun r => disposables w !! fst r = Some (mkDisposable true [ChildCallback (snd r)]))
         regs ->
  exists w',
    for_each (run_child (dispose (S n))) (map (fun r => ChildDisposable (fst r)) regs) w
      = Returns tt w' /\
    same_but_disposables w' (run_teardowns (map snd regs) w) /\
    (forall x, x ∉ map fst regs -> disposables w' !! x = disposables w !! x).
Proof.
  induction regs as [|[c td] regs IH]; intros w Hnd Hall.
  - exists w. by repeat split.
  - inversion Hnd as [|? ? Hc Hnd']; subst. inversion Hall as [|? ? Hw Hall']; subst.
    simpl in Hw.
    set (w1 := set_disposables (alter deactivate c (disposables (run_teardown td w)))
                 (run_teardown td w)).
    assert (Hstep : run_child (dispose (S n)) (ChildDisposable c) w = Returns tt w1).
    { cbn [run_child]. rewrite dispose_S, Hw. reflexivity. }
    assert (Hd1 : disposables w1 = alter deactivate c (disposables w)).
    { subst w1. cbn. by rewrite run_teardown_disposables. }
    destruct (IH w1) as (w' & Hrun & Hsame & Hother); [done | |].
    { rewrite Forall_forall in *. intros r Hr. rewrite Hd1.
      rewrite list_lookup_alter_ne; [by apply Hall'|].
      intros ->. apply Hc. apply list_elem_of_fmap. by exists r. }
    exists w'. split.
    { cbn [map for_each fst]. unfold bind at 1. by rewrite Hstep. }
    split.
    + unfold same_but_disposables in *. rewrite Hsame. cbn [map snd run_teardowns fold_left].
      apply (run_teardowns_same (map snd regs) w1 (run_teardown td w)).
      subst w1. unfold same_but_disposables. by destruct (run_teardown td w).
    + intros x Hx. rewrite Hother.
      * rewrite Hd1. apply list_lookup_alter_ne. intros ->. apply Hx. simpl. by left.
      * intros Hin. apply Hx. simpl. by right.
Qed.

Lemma dispose_holds base d regs w fuel :
  holds base d regs w -> (2 <= fuel)%nat ->
  exists w',
    dispose fuel d w = Returns tt w' /\
    same_but_disposables w' (run_teardowns (map snd regs) w) /\
    is_active d w' = false.
Proof.
  intros ([Hd _] & Hlook & Hnd & Hall) Hfuel.
  destruct fuel as [|[|n]]; [lia | lia |].
  destruct (dispose_wrapped n regs w Hnd) as (w1 & Hrun & Hsame & Hother).
  { eapply Forall_impl; [exact Hall|]. by intros r [_ Hr]. }
  eexists. split.
  { rewrite dispose_S, Hlook. cbn [active children].
    unfold bind at 1. rewrite Hrun. reflexivity. }
  split.
  - unfold same_but_disposables in *. rewrite <- Hsame. by destruct w1.
  - unfold is_active. cbn. rewrite list_lookup_alter_eq, Hother, Hlook; [done|].
    intros Hin. apply list_elem_of_fmap in Hin as (r & Hr1 & Hr2).
    rewrite Forall_forall in Hall. destruct (Hall r Hr2) as [Hge _]. lia.
Qed.

Lemma holds_ext base d regs w w' :
  disposables w' = disposables w -> holds base d regs w -> holds base d regs w'.
Proof. unfold holds. by intros ->. Qed.

(** Registering one more wrapped teardown under [d], as testSchedule and
    watchSubscriptionInfo do. *)
Lemma holds_add base d regs td w :
  holds base d regs w ->
  holds base d (regs ++ [(length (disposables w), td)])
    (set_disposables
       (alter (fun o => mkDisposable (active o)
                          (children o ++ [ChildDisposable (length (disposables w))])) d
              (disposables w ++ [mkDisposable true [ChildCallback td]])) w).
Proof.
  intros ([Hd Hbase] & Hlook & Hnd & Hall).
  split; [cbn; rewrite length_alter, length_app; simpl; lia|].
  split.
  { cbn. rewrite list_lookup_alter_eq, (lookup_app_l_Some _ _ _ _ Hlook). cbn.
    by rewrite map_app. }
  split.
  { rewrite map_app. apply NoDup_app. split; [done|]. split; [|apply NoDup_singleton].
    intros x Hx Hx'. apply list_elem_of_singleton in Hx'. subst x.
    apply list_elem_of_fmap in Hx as (r & Hr1 & Hr2).
    rewrite Forall_forall in Hall. destruct (Hall r Hr2) as [_ Hr'].
    apply lookup_lt_Some in Hr'. simpl in Hr1. lia. }
  apply Forall_app. split.
  - rewrite Forall_forall in *. intros r Hr. destruct (Hall r Hr) as [Hge Hr'].
    split; [done|]. cbn. rewrite list_lookup_alter_ne by lia.
    by apply lookup_app_l_Some.
  - constructor; [|constructor]. split; [simpl; lia|].
    cbn. rewrite list_lookup_alter_ne by lia. by apply list_lookup_middle.
Qed.

Lemma scheduled_holds base d regs cb delay index w :
  holds base d regs w ->
  holds base d (regs ++ [(length (disposables w), TdCancel (next_action w))])
        (scheduled cb delay (Some d) index w).
Proof.
  intros H.
  pose proof (holds_add base d regs (TdCancel (next_action w))
                (set_next_action (S (next_action w))
                   (set_actions
                      (splice index
                         (mkAction (next_action w) cb (num_add (currentFrame w) delay) true)
                         (actions w)) w))) as Hadd.
  apply Hadd. by apply (holds_ext _ _ _ w).
Qed.

(** A timeline scheduled under [d]: one wrapped cancelling teardown per
    event, in the order of the events. *)
Lemma timeline_holds fuel base d mk evs : forall w regs,
  holds base d regs w ->
  Z.of_nat (length (actions w) + length evs) <= 2 ^ 31 ->
  exists w1 regs',
    schedule_all fuel (timeline_calls mk (Some d) evs) w = Returns tt w1 /\
    holds base d (regs ++ regs') w1 /\
    map snd regs' = map TdCancel (seq (next_action w) (length evs)).
Proof.
  induction evs as [|ev evs IH]; intros w regs Hreg Hlen.
  - exists w, []. rewrite app_nil_r. split; [done|]. split; [done|]. done.
  - assert (Hu : usable (Some d) w = true).
    { destruct Hreg as (_ & Hlook & _). unfold usable, is_active. by rewrite Hlook. }
    destruct (testSchedule_scheduled fuel (mk ev) (frame ev) (Some d) w Hu)
      as (index & _ & _ & Hrun); [simpl in Hlen; lia|].
    set (w' := scheduled (mk ev) (frame ev) (Some d) index w) in *.
    pose proof (scheduled_holds base d regs (mk ev) (frame ev) index w Hreg) as Hreg'.
    fold w' in Hreg'.
    destruct (IH w' _ Hreg') as (w1 & regs' & Hrun1 & Hreg1 & Hids).
    { subst w'. rewrite scheduled_actions, splice_length. simpl in Hlen. lia. }
    eexists w1, (_ :: regs'). split.
    { unfold schedule_all, timeline_calls in *. simpl. unfold bind. by rewrite Hrun. }
    split; [by rewrite <- app_assoc in Hreg1|].
    simpl. by rewrite Hids.
Qed.

Lemma same_but_disposables_fields w w' :
  same_but_disposables w w' ->
  actions w = actions w' /\ currentFrame w = currentFrame w' /\
  isFlushing w = isFlushing w' /\ next_action w = next_action w' /\
  infos w = infos w' /\ sinks w = sinks w' /\ subjects w = subjects w' /\
  arrays w = arrays w' /\ sources w = sources w' /\ log w = log w'.
Proof.
  unfold same_but_disposables. destruct w, w'. cbn. intros H.
  injection H as -> -> -> -> -> -> -> -> -> ->. by repeat split.
Qed.

Lemma run_teardowns_cancel ids : forall w,
  run_teardowns (map TdCancel ids) w = set_actions (cancel_ids ids (actions w)) w.
Proof.
  induction ids as [|id ids IH]; intros w.
  - rewrite cancel_ids_nil. by destruct w.
  - cbn [map run_teardowns fold_left]. fold (run_teardowns (map TdCancel ids)).
    rewrite run_teardown_cancel, IH. cbn [actions set_actions].
    rewrite cancel_ids_cons. by destruct w.
Qed.

Lemma watchSubscriptionInfo_holds fuel base d regs w :
  holds base d regs w ->
  exists w1,
    watchSubscriptionInfo fuel (Some d) w = Returns (length (infos w)) w1 /\
    holds base d (regs ++ [(length (disposables w), TdEndInfo (length (infos w)))]) w1 /\
    same_schedule w w1 /\
    infos w1 = infos w ++ [mkInfo (currentFrame w) Infinity] /\
    sinks w1 = sinks w /\ sources w1 = sources w.
Proof.
  intros Hreg. pose proof Hreg as (_ & Hlook & _).
  cbv [watchSubscriptionInfo bind ret Disposable add run_child].
  cbn [disposables set_infos set_disposables].
  rewrite (lookup_app_l_Some _ _ _ _ Hlook). cbn [active].
  eexists. split; [reflexivity|]. split.
  { apply (holds_add base d regs (TdEndInfo (length (infos w)))
             (set_infos (infos w ++ [mkInfo (currentFrame w) Infinity]) w)).
    by apply (holds_ext _ _ _ w). }
  by repeat split.
Qed.

(** ** TestSource *)

Lemma enqueue_timeline mk sub evs : forall n now,
  enqueue n now (timeline_calls mk sub evs) =
  imap (fun i ev => mkAction (n + i) (mk ev) (num_add now (frame ev)) true) evs.
Proof.
  unfold timeline_calls. induction evs as [|ev evs IH]; intros n now; [done|].
  cbn [map enqueue imap]. unfold call_frame at 1. cbn [call_callback call_delayFrames].
  rewrite Nat.add_0_r, IH. f_equal. apply imap_ext. intros i x _. simpl. f_equal. lia.
Qed.


(** X6. Subscribing a Sink whose Disposable is active to a TestSource
    records one subscription that starts at the current frame and is open
    (its end is Infinity), and adds to the queue exactly one action per event
    of the timeline: the callback delivers that event to the Sink, the frame
    is the current frame plus the frame of the event, and the action is not
    cancelled.  The frame of the schedule does not change. *)
Theorem TestSource_subscribe_schedules_timeline (w : World) (source sink : nat)
      (events : list TestSourceEvent) (subs : list nat) (s : SinkObj)
      (obj : DisposableObj) (fuel : nat) :
  sources w !! source = Some (TestSourceObj events subs) ->
  sinks w !! sink = Some s ->
  disposables w !! bound s = Some obj -> active obj = true ->
  Z.of_nat (length (actions w) + length events) <= 2 ^ 31 ->
  (1 <= fuel)%nat ->
  exists w',
    subscribe fuel source sink w = Returns tt w' /\
    sources w' !! source = Some (TestSourceObj events (subs ++ [length (infos w)])) /\
    infos w' = infos w ++ [mkInfo (currentFrame w) Infinity] /\
    Permutation (actions w')
      (actions w ++
       imap (fun i ev =>
               mkAction (next_action w + i) (CbSinkEvent sink ev)
                        (num_add (currentFrame w) (frame ev)) true) events) /\
    currentFrame w' = currentFrame w.
Proof.
  intros Hsrc Hsink Hd Hactive Hlen Hfuel. unfold subscribe, Source. rewrite Hsrc, Hsink.
  assert (Hinfos : forall w0, disposables w0 !! bound s = Some obj ->
            exists w1, watchSubscriptionInfo fuel (Some (bound s)) w0
                       = Returns (length (infos w0)) w1 /\
                       infos w1 = infos w0 ++ [mkInfo (currentFrame w0) Infinity]).
  { intros w0 Hw0. cbv [watchSubscriptionInfo bind ret Disposable add run_child].
    cbn [disposables set_infos set_disposables].
    rewrite (lookup_app_l_Some _ _ _ _ Hw0), Hactive. eexists. by split. }
  destruct (Hinfos w Hd) as (w1' & Hrun1' & Hinfos1).
  destruct (watchSubscriptionInfo_effect fuel (bound s) w obj Hd Hfuel)
    as (w1 & Hrun1 & (Ha1 & Hcf1 & _ & Hn1 & _) & _ & _ & _ & Hsrc1 & _ & _ & obj' & Hd1 & Hact1).
  rewrite Hrun1 in Hrun1'. injection Hrun1' as <-.
  unfold bind at 1. rewrite Hrun1. unfold bind at 1, push_subscription, modify.
  set (w2 := set_sources _ w1).
  assert (Hu : usable (Some (bound s)) w2 = true).
  { unfold usable, is_active. subst w2. cbn. rewrite Hd1. congruence. }
  destruct (for_each_testSchedule fuel (CbSinkEvent sink) (Some (bound s)) events w2 Hu)
    as (w3 & Hrun3 & _ & _ & Hcf3 & _ & _ & Hinfos3 & _ & _ & _ & Hsrc3).
  { subst w2. cbn. by rewrite Ha1. }
  destruct (schedule_all_perm fuel (timeline_calls (CbSinkEvent sink) (Some (bound s)) events) w2)
    as (w3' & Hrun3' & Hperm & _).
  { by apply timeline_calls_usable. }
  { rewrite timeline_calls_length. subst w2. cbn. by rewrite Ha1. }
  rewrite <- for_each_timeline, Hrun3 in Hrun3'. injection Hrun3' as <-.
  exists w3. split; [done|].
  split; [rewrite Hsrc3; subst w2; cbn; by rewrite list_lookup_alter_eq, Hsrc1, Hsrc|].
  split; [by rewrite Hinfos3|].
  split; [|rewrite Hcf3; by subst w2].
  rewrite Hperm. subst w2. cbn [actions currentFrame next_action set_sources].
  by rewrite Ha1, Hcf1, Hn1, enqueue_timeline.
Qed.

Lemma TestSource_subscribe_schedules_timeline_witness :
  exists w',
    subscribe 1 0 0 source_store = Returns tt w' /\
    infos w' = [mkInfo (Fin 4) Infinity] /\
    Permutation (actions w')
      [mkAction 0 (CbSinkEvent 0 (P 1 (Fin 1))) (Fin 5) true;
       mkAction 1 (CbSinkEvent 0 (E (Fin 3))) (Fin 7) true].
Proof.
  destruct (TestSource_subscribe_schedules_timeline source_store 0 0
              [P 1 (Fin 1); E (Fin 3)] [] (mkSink (ScUser [OLog 1]) 0)
              (mkDisposable true []) 1) as (w' & H1 & _ & H2 & H3 & _);
    [reflexivity | reflexivity | reflexivity | reflexivity | vm_compute; discriminate | lia |].
  exists w'. split; [exact H1|]. split; [exact H2 | exact H3].
Defined.

(** X7. Subscribing a Sink whose Disposable was disposed before to a
    TestSource schedules nothing: the queue and the frame stay as they were.
    The subscription is recorded all the same, and it is closed at once: its
    start and its end are both the current frame. *)
Theorem TestSource_subscribe_disposed_sink (w : World) (source sink : nat)
      (events : list TestSourceEvent) (subs : list nat) (s : SinkObj)
      (obj : DisposableObj) (fuel : nat) :
  sources w !! source = Some (TestSourceObj events subs) ->
  sinks w !! sink = Some s ->
  disposables w !! bound s = Some obj -> active obj = false ->
  (1 <= fuel)%nat ->
  exists w',
    subscribe fuel source sink w = Returns tt w' /\
    actions w' = actions w /\ currentFrame w' = currentFrame w /\
    sources w' !! source = Some (TestSourceObj events (subs ++ [length (infos w)])) /\
    infos w' !! length (infos w) = Some (mkInfo (currentFrame w) (currentFrame w)).
Proof.
  intros Hsrc Hsink Hd Hactive Hfuel. unfold subscribe, Source. rewrite Hsrc, Hsink.
  destruct (watchSubscriptionInfo_effect fuel (bound s) w obj Hd Hfuel)
    as (w1 & Hrun1 & (Ha1 & Hcf1 & _) & _ & _ & _ & Hsrc1 & _ & Hinfo1 & obj' & Hd1 & Hact1).
  rewrite Hactive in Hinfo1.
  unfold bind at 1. rewrite Hrun1. unfold bind at 1, push_subscription, modify.
  set (w2 := set_sources _ w1).
  rewrite (for_each_testSchedule_inactive fuel (CbSinkEvent sink) (bound s) events w2).
  2:{ exists obj'. split; [by subst w2 | congruence]. }
  exists w2. subst w2. cbn. split; [done|]. split; [done|]. split; [done|].
  split; [|done]. by rewrite list_lookup_alter_eq, Hsrc1, Hsrc.
Qed.

Lemma TestSource_subscribe_disposed_sink_witness :
  exists w',
    subscribe 1 0 0 disposed_source_store = Returns tt w' /\
    actions w' = [] /\
    infos w' !! 0%nat = Some (mkInfo (Fin 4) (Fin 4)).
Proof.
  destruct (TestSource_subscribe_disposed_sink disposed_source_store 0 0
              [P 1 (Fin 1); E (Fin 3)] [] (mkSink (ScUser [OLog 1]) 0)
              (mkDisposable false []) 1) as (w' & H1 & H2 & _ & _ & H3);
    [reflexivity | reflexivity | reflexivity | reflexivity | lia |].
  exists w'. split; [exact H1|]. split; [exact H2 | exact H3].
Defined.



(** ** watchSourceEvents without a subscriptionInfo *)

(** X9. watchSourceEvents called without a subscriptionInfo records an
    open subscription that starts at the current frame, and uses its two
    frames as delays: on a sorted queue the disposing callback is queued last,
    at frame Infinity, and the subscribing callback is queued at the current
    frame plus the current frame, after the queued actions up to that
    frame. *)
Theorem watchSourceEvents_default_window (w : World) (source : nat) (fuel : nat) :
  sorted (actions w) ->
  Z.of_nat (length (actions w)) < 2 ^ 31 ->
  let subscription := length (disposables w) in
  let events := length (arrays w) in
  let start := num_add (currentFrame w) (currentFrame w) in
  exists w',
    watchSourceEvents fuel source None w = Returns events w' /\
    infos w' = infos w ++ [mkInfo (currentFrame w) Infinity] /\
    actions w' =
      splice (Z.of_nat (count_le start (actions w)))
             (mkAction (next_action w) (CbSubscribe source events subscription) start true)
             (actions w)
      ++ [mkAction (S (next_action w)) (CbDispose subscription) Infinity true] /\
    currentFrame w' = currentFrame w /\
    disposables w' !! subscription = Some (mkDisposable true []) /\
    arrays w' !! events = Some [].
Proof.
  intros Hsorted Hlen subscription events start.
  cbv [watchSourceEvents watchSubscriptionInfo bind ret Disposable].
  cbn [infos set_infos]. rewrite list_lookup_middle by done.
  cbn [subscriptionStartFrame subscriptionEndFrame].
  set (w0 := set_arrays _ _).
  assert (Hw0 : actions w0 = actions w /\ currentFrame w0 = currentFrame w /\
                next_action w0 = next_action w) by done.
  destruct Hw0 as (Ha0 & Hcf0 & Hn0).
  assert (Hrun1 : testSchedule fuel (CbSubscribe source events subscription)
                    (currentFrame w) None w0 =
                  Returns tt (scheduled (CbSubscribe source events subscription)
                                (currentFrame w) None
                                (Z.of_nat (count_le start (actions w))) w0)).
  { destruct (testSchedule_scheduled fuel (CbSubscribe source events subscription)
                (currentFrame w) None w0 eq_refl) as (i & Hi & _ & Hrun); [rewrite Ha0; lia|].
    rewrite Hcf0, Ha0 in Hi. fold start in Hi.
    rewrite (getActionInsertIndex_count (actions w) start) in Hi; [|lia|done].
    injection Hi as <-. exact Hrun. }
  change (length (arrays (set_disposables (disposables (set_infos
            (infos w ++ [mkInfo (currentFrame w) Infinity]) w) ++ [mkDisposable true []])
            (set_infos (infos w ++ [mkInfo (currentFrame w) Infinity]) w))))
    with events.
  change (length (disposables (set_infos
            (infos w ++ [mkInfo (currentFrame w) Infinity]) w)))
    with subscription.
  rewrite Hrun1.
  set (w1 := scheduled _ _ None _ w0) in *.
  assert (Ha1 : actions w1 =
                splice (Z.of_nat (count_le start (actions w)))
                  (mkAction (next_action w) (CbSubscribe source events subscription) start true)
                  (actions w)) by reflexivity.
  assert (Hs1 : sorted (actions w1)).
  { rewrite Ha1.
    apply (sorted_splice
             (mkAction (next_action w) (CbSubscribe source events subscription) start true)).
    done. }
  destruct (testSchedule_scheduled fuel (CbDispose subscription) Infinity None w1 eq_refl)
    as (j & Hj & _ & Hrun2); [rewrite Ha1, splice_length; lia|].
  rewrite getActionInsertIndex_last in Hj.
  - injection Hj as <-. rewrite Hrun2. eexists. split; [reflexivity|].
    split; [reflexivity|]. split.
    { rewrite scheduled_actions, splice_end, Ha1.
      replace (num_add (currentFrame w1) Infinity) with Infinity
        by (by destruct (currentFrame w1)).
      reflexivity. }
    split; [reflexivity|]. split.
    + cbn. by apply list_lookup_middle.
    + cbn. by apply list_lookup_middle.
  - done.
  - rewrite Ha1, splice_length. lia.
  - intros a _. change (currentFrame w1) with (currentFrame w).
    unfold num_le. destruct (currentFrame w), (executionFrame a); reflexivity.
Qed.

Lemma watchSourceEvents_default_window_witness :
  exists w',
    watchSourceEvents 1 0 None watch_store = Returns 0%nat w' /\
    infos w' = [mkInfo (Fin 3) Infinity] /\
    actions w' =
      [mkAction 1 (CbSubscribe 0 0 0) (Fin 6) true; mkAction 0 (CbUser []) (Fin 9) true;
       mkAction 2 (CbDispose 0) Infinity true].
Proof.
  destruct (watchSourceEvents_default_window watch_store 0 1) as (w' & H1 & H2 & H3 & _);
    [reflexivity | vm_compute; reflexivity |].
  exists w'. split; [exact H1|]. split; [exact H2 | exact H3].
Defined.

(** ** Delays that are not negative *)

Lemma num_add_nonneg c d : num_le (Fin 0) d -> num_le c (num_add c d).
Proof.
  unfold num_le. destruct c as [c|], d as [d|]; simpl; try done.
  rewrite !Z.ltb_ge. lia.
Qed.

(** X10. Calls with delays that are not negative, made between two
    flushes on a queue that holds no action for a frame before the current
    one, never move the schedule back: with observing callbacks, the flush
    that follows ends at a frame that is not before the frame at which the
    calls were made. *)
Theorem nonnegative_delays_keep_frame (w : World) (calls : list Call) (fuel : nat) :
  isFlushing w = false ->
  Forall (fun a => passive (callback a) = true) (actions w) ->
  Forall (fun a => num_le (currentFrame w) (executionFrame a)) (actions w) ->
  Forall (fun c => passive (call_callback c) = true) calls ->
  Forall (fun c => num_le (Fin 0) (call_delayFrames c)) calls ->
  Forall (fun c => usable (call_subscription c) w = true) calls ->
  Z.of_nat (length (actions w) + length calls) <= 2 ^ 31 ->
  (S (length (actions w) + length calls) < fuel)%nat ->
  exists w1 w2,
    schedule_all fuel calls w = Returns tt w1 /\
    flush fuel w1 = Returns tt w2 /\
    num_le (currentFrame w) (currentFrame w2).
Proof.
  intros Hfl Hpas Hge Hcpas Hdelay Husable Hlen Hfuel.
  destruct (schedule_all_perm fuel calls w Husable Hlen)
    as (w1 & Hrun & Hperm & Hcf & Hfl1 & _).
  destruct (flush_frame_nondecreasing w1 fuel) as (w2 & Hrun2 & Hle).
  - congruence.
  - rewrite Hperm. apply Forall_app. split; [done | by apply enqueue_passive].
  - rewrite Hperm, Hcf. apply Forall_app. split; [done|].
    apply Forall_forall. intros a Ha.
    apply list_elem_of_In, (in_map executionFrame) in Ha.
    rewrite enqueue_frames in Ha. apply in_map_iff in Ha as (c & <- & Hc).
    unfold call_frame. apply num_add_nonneg.
    rewrite Forall_forall in Hdelay. by apply Hdelay, list_elem_of_In.
  - rewrite Hperm, length_app, enqueue_length. lia.
  - exists w1, w2. split; [done|]. split; [done|]. by rewrite <- Hcf.
Qed.

Lemma nonnegative_delays_keep_frame_witness :
  exists w1 w2,
    schedule_all 6 unordered_calls (set_currentFrame (Fin 3) fresh) = Returns tt w1 /\
    flush 6 w1 = Returns tt w2 /\
    num_le (Fin 3) (currentFrame w2).
Proof.
  apply (nonnegative_delays_keep_frame (set_currentFrame (Fin 3) fresh) unordered_calls 6);
    [reflexivity | constructor | constructor | repeat constructor | repeat constructor
    | repeat constructor | vm_compute; discriminate | simpl; lia].
Defined.

(** ** SharedTestSource.schedule *)

Lemma schedule_all_usable fuel calls s : forall w w1,
  Forall (fun c => usable (call_subscription c) w = true) calls ->
  Z.of_nat (length (actions w) + length calls) <= 2 ^ 31 ->
  schedule_all fuel calls w = Returns tt w1 ->
  usable s w = true -> usable s w1 = true.
Proof.
  unfold schedule_all.
  induction calls as [|c calls IH]; intros w w1 Hu Hlen Hrun Hs.
  - injection Hrun as <-. done.
  - inversion Hu as [|? ? Hc Hu']; subst. simpl in Hrun, Hlen. unfold bind in Hrun.
    destruct (testSchedule_scheduled fuel (call_callback c) (call_delayFrames c)
                (call_subscription c) w Hc) as (i & _ & _ & Hrun0); [lia|].
    rewrite Hrun0 in Hrun. eapply IH; [| |exact Hrun|].
    + eapply Forall_impl; [exact Hu'|]. intros c' Hc'. by apply scheduled_usable.
    + rewrite scheduled_actions, splice_length. lia.
    + by apply scheduled_usable.
Qed.

(** X11. Every call of schedule(subscription) of a SharedTestSource with
    an absent or active subscription enqueues the whole timeline again,
    relative to the current frame: after two calls the queue holds two
    actions per event, and nothing is taken out of it. *)
Theorem shared_schedule_twice (w : World) (source subject : nat)
      (events : list TestSourceEvent) (subs : list nat)
      (subscription : option nat) (fuel : nat) :
  sources w !! source = Some (SharedTestSourceObj events subs subject) ->
  usable subscription w = true ->
  Z.of_nat (length (actions w) + 2 * length events) <= 2 ^ 31 ->
  let timeline n :=
    imap (fun i ev => mkAction (n + i) (CbSubjectEvent subject ev)
                        (num_add (currentFrame w) (frame ev)) true) events in
  exists w1 w2,
    shared_schedule fuel source subscription w = Returns tt w1 /\
    shared_schedule fuel source subscription w1 = Returns tt w2 /\
    Permutation (actions w1) (actions w ++ timeline (next_action w)) /\
    Permutation (actions w2)
      (actions w ++ timeline (next_action w)
                 ++ timeline (next_action w + length events)%nat).
Proof.
  intros Hsrc Husable Hlen timeline.
  destruct (schedule_all_perm fuel (timeline_calls (CbSubjectEvent subject) subscription events) w)
    as (w1 & Hrun1 & Hperm1 & Hcf1 & _ & _ & Hn1).
  { by apply timeline_calls_usable. }
  { rewrite timeline_calls_length. lia. }
  destruct (for_each_testSchedule fuel (CbSubjectEvent subject) subscription events w Husable)
    as (w1' & Hrun1' & Hlen1 & _ & _ & _ & _ & _ & _ & _ & _ & Hsrc1); [lia|].
  rewrite for_each_timeline, Hrun1 in Hrun1'. injection Hrun1' as <-.
  assert (Hu1 : usable subscription w1 = true).
  { eapply schedule_all_usable; [| |exact Hrun1|exact Husable].
    - by apply timeline_calls_usable.
    - rewrite timeline_calls_length. lia. }
  destruct (schedule_all_perm fuel (timeline_calls (CbSubjectEvent subject) subscription events) w1)
    as (w2 & Hrun2 & Hperm2 & _).
  { by apply timeline_calls_usable. }
  { rewrite timeline_calls_length, Hlen1. lia. }
  exists w1, w2.
  split; [unfold shared_schedule; by rewrite Hsrc, for_each_timeline|].
  split; [unfold shared_schedule; by rewrite Hsrc1, Hsrc, for_each_timeline|].
  rewrite enqueue_timeline in Hperm1. split; [done|].
  rewrite Hperm2, Hperm1, Hcf1, Hn1, timeline_calls_length, enqueue_timeline.
  by rewrite <- app_assoc.
Qed.

Lemma shared_schedule_twice_witness :
  exists w1 w2,
    shared_schedule 1 0 None shared_store = Returns tt w1 /\
    shared_schedule 1 0 None w1 = Returns tt w2 /\
    Permutation (actions w2)
      [mkAction 0 (CbSubjectEvent 0 (P 1 (Fin 0))) (Fin 0) true;
       mkAction 1 (CbSubjectEvent 0 (E (Fin 5))) (Fin 5) true;
       mkAction 2 (CbSubjectEvent 0 (P 1 (Fin 0))) (Fin 0) true;
       mkAction 3 (CbSubjectEvent 0 (E (Fin 5))) (Fin 5) true].
Proof.
  destruct (shared_schedule_twice shared_store 0 0 [P 1 (Fin 0); E (Fin 5)] [] None 1)
    as (w1 & w2 & H1 & H2 & _ & H3);
    [reflexivity | reflexivity | vm_compute; discriminate |].
  exists w1, w2. split; [exact H1|]. split; [exact H2 | exact H3].
Defined.

(** ** What flush leaves behind *)

Lemma drain_outcome n : forall w,
  (forall w', drain n w = Returns tt w' -> actions w' = []) /\
  (forall e w', drain n w = Throws e w' ->
     actions w' = [] /\ currentFrame w' = Fin 0 /\ isFlushing w' = false).
Proof.
  induction n as [|n IH]; intros w; [by split|].
  simpl. destruct (actions w) as [|a rest] eqn:Hq.
  - split; [|done]. intros w' H. injection H as <-. done.
  - destruct (shouldCall a); [|apply IH].
    destruct (call (flush n) n (callback a) _) as [u w2|e w2| |]; [apply IH | |done|done].
    split; [done|]. intros e' w' H. injection H as _ <-. done.
Qed.

(** X12. Whatever the callbacks do (schedule, flush, reset, dispose),
    a flush that was started while none was in progress and that completes
    leaves the queue empty and the schedule not flushing; and a flush out of
    which an exception propagates leaves the schedule reset: the queue empty,
    the frame 0 and the schedule not flushing. *)
Theorem flush_leaves_schedule_idle (w : World) (fuel : nat) :
  isFlushing w = false ->
  (forall w', flush fuel w = Returns tt w' ->
     actions w' = [] /\ isFlushing w' = false) /\
  (forall e w', flush fuel w = Throws e w' ->
     actions w' = [] /\ currentFrame w' = Fin 0 /\ isFlushing w' = false).
Proof.
  intros Hfl. destruct fuel as [|n]; [by split|].
  simpl. rewrite Hfl. unfold bind, modify.
  destruct (drain_outcome n (set_isFlushing true w)) as [Hret Hthrow].
  destruct (drain n (set_isFlushing true w)) as [u w1|e w1| |]; [| |done|done].
  - split; [|done]. intros w' H. injection H as <-. destruct u.
    split; [|done]. exact (Hret w1 eq_refl).
  - split; [done|]. intros e' w' H. injection H as <- <-. exact (Hthrow e w1 eq_refl).
Qed.

Lemma flush_leaves_schedule_idle_witness :
  (exists w',
     flush 5 (set_next_action 2 (set_actions busy_queue fresh)) = Returns tt w' /\
     actions w' = [] /\ isFlushing w' = false) /\
  (exists w',
     flush 5 (set_next_action 2 (set_actions failing_queue fresh)) = Throws 7 w' /\
     actions w' = [] /\ currentFrame w' = Fin 0 /\ isFlushing w' = false).
Proof.
  split.
  - eexists. split; [vm_compute; reflexivity|].
    apply (proj1 (flush_leaves_schedule_idle
                    (set_next_action 2 (set_actions busy_queue fresh)) 5 eq_refl)).
    vm_compute. reflexivity.
  - eexists. split; [vm_compute; reflexivity|].
    apply (proj2 (flush_leaves_schedule_idle
                    (set_next_action 2 (set_actions failing_queue fresh)) 5 eq_refl) 7).
    vm_compute. reflexivity.
Defined.

(** * A watched TestSource, end to end *)

(** ** The order of the queue determines the queue *)

Lemma key_leb_intro a b :
  num_le (executionFrame a) (executionFrame b) -> (action_id a <= action_id b)%nat ->
  key_leb a b = true.
Proof.
  intros Hle Hid. unfold key_leb.
  destruct (num_ltb (executionFrame a) (executionFrame b)) eqn:Hlt; [done|]. simpl.
  apply andb_true_iff. split; [|by apply Nat.leb_le].
  apply num_eqb_eq. by apply num_le_antisym.
Qed.

Lemma key_leb_antisym a b :
  key_leb a b = true -> key_leb b a = true -> action_id a = action_id b.
Proof.
  unfold key_leb. rewrite !orb_true_iff, !andb_true_iff, !Nat.leb_le.
  intros [Hab | [Hab Hid]] [Hba | [Hba Hid']].
  - exfalso. eapply num_lt_not_le; [exact Hab|]. by apply num_lt_le.
  - apply num_eqb_eq in Hba. rewrite Hba, num_ltb_irrefl in Hab. done.
  - apply num_eqb_eq in Hab. rewrite Hab, num_ltb_irrefl in Hba. done.
  - lia.
Qed.

Lemma same_id_eq l a b :
  NoDup (map action_id l) -> In a l -> In b l -> action_id a = action_id b -> a = b.
Proof.
  induction l as [|x l IH]; intros Hnd Ha Hb Hid; [done|].
  simpl in Hnd. apply NoDup_cons in Hnd as [Hx Hnd].
  destruct Ha as [-> | Ha], Hb as [-> | Hb]; [done | | | by apply IH].
  - exfalso. apply Hx. rewrite Hid. apply list_elem_of_In. by apply in_map.
  - exfalso. apply Hx. rewrite <- Hid. apply list_elem_of_In. by apply in_map.
Qed.

Lemma fifo_sorted_unique l1 : forall l2,
  fifo_sortedb l1 = true -> fifo_sortedb l2 = true -> Permutation l1 l2 ->
  NoDup (map action_id l1) -> l1 = l2.
Proof.
  induction l1 as [|x l1 IH]; intros l2 H1 H2 Hperm Hnd.
  - by apply Permutation_nil in Hperm.
  - destruct l2 as [|y l2]; [by apply Permutation_sym, Permutation_nil in Hperm|].
    apply fifo_sortedb_cons in H1 as [Hx H1]. apply fifo_sortedb_cons in H2 as [Hy H2].
    assert (Hxy : x = y).
    { assert (Hyin : In y (x :: l1)).
      { eapply Permutation_in; [apply Permutation_sym, Hperm | by left]. }
      assert (Hxin : In x (y :: l2)).
      { eapply Permutation_in; [exact Hperm | by left]. }
      destruct Hyin as [-> | Hyin]; [done|].
      destruct Hxin as [<- | Hxin]; [done|].
      apply (same_id_eq (x :: l1)); [done | by left | by right |].
      apply key_leb_antisym; [by apply Hx | by apply Hy]. }
    subst y. f_equal. apply IH; [done | done | by eapply Permutation_cons_inv|].
    simpl in Hnd. by apply NoDup_cons in Hnd as [_ Hnd].
Qed.

Lemma fifo_sortedb_app l1 l2 :
  fifo_sortedb l1 = true -> fifo_sortedb l2 = true ->
  (forall a b, In a l1 -> In b l2 -> key_leb a b = true) ->
  fifo_sortedb (l1 ++ l2) = true.
Proof.
  induction l1 as [|x l1 IH]; intros H1 H2 Hcross; [done|].
  apply fifo_sortedb_cons in H1 as [Hx H1]. simpl app. apply fifo_sortedb_cons. split.
  - intros b Hb. apply in_app_iff in Hb as [Hb | Hb]; [by apply Hx|].
    apply Hcross; [by left | done].
  - apply IH; [done | done|]. intros a b Ha Hb. apply Hcross; [by right | done].
Qed.

Lemma fifo_sortedb_filter p l :
  fifo_sortedb l = true -> fifo_sortedb (List.filter p l) = true.
Proof.
  induction l as [|x l IH]; intros H; [done|].
  apply fifo_sortedb_cons in H as [Hx H]. simpl. destruct (p x); [|by apply IH].
  apply fifo_sortedb_cons. split; [|by apply IH].
  intros b Hb. apply filter_In in Hb as [Hb _]. by apply Hx.
Qed.

Lemma filter_split_Permutation {A} (p : A -> bool) l :
  Permutation (List.filter p l ++ List.filter (fun a => negb (p a)) l) l.
Proof.
  induction l as [|x l IH]; [done|]. simpl. destruct (p x); simpl.
  - by constructor.
  - rewrite <- Permutation_middle. by constructor.
Qed.

Lemma num_add_mono o x y : num_le x y -> num_le (num_add o x) (num_add o y).
Proof.
  unfold num_le. destruct o as [o|], x as [x|], y as [y|]; simpl; try done.
  rewrite !Z.ltb_ge. lia.
Qed.

Lemma enqueue_In n now calls b :
  In b (enqueue n now calls) ->
  (n <= action_id b)%nat /\
  exists c, In c calls /\ executionFrame b = call_frame now c.
Proof.
  revert n. induction calls as [|c calls IH]; intros n Hb; [done|].
  destruct Hb as [<- | Hb].
  - split; [done|]. exists c. split; [by left | done].
  - destruct (IH _ Hb) as (Hid & c' & Hc' & Hf). split; [lia|].
    exists c'. split; [by right | done].
Qed.

Lemma enqueue_ids n now calls :
  map action_id (enqueue n now calls) = seq n (length calls).
Proof. revert n. induction calls as [|c calls IH]; intros n; simpl; by rewrite ?IH. Qed.

Lemma enqueue_fifo_sorted now calls : forall n,
  sortedb (map call_delayFrames calls) = true ->
  fifo_sortedb (enqueue n now calls) = true.
Proof.
  induction calls as [|c calls IH]; intros n Hs; [done|].
  simpl in Hs. apply andb_true_iff in Hs as [Hc Hs].
  simpl enqueue. apply fifo_sortedb_cons. split; [|by apply IH].
  intros b Hb. apply enqueue_In in Hb as (Hid & c' & Hc' & Hf).
  apply key_leb_intro; [|simpl; lia].
  simpl. rewrite Hf. unfold call_frame. apply num_add_mono, num_leb_le.
  rewrite forallb_forall in Hc. apply Hc. by apply in_map.
Qed.

(** The queue after a timeline in the order of its frames was scheduled
    on a queue that held only the older action [x]: the actions due before
    [x], then [x], then the others. *)
Lemma timeline_queue (q : list TestScheduleAction) x now calls :
  fifo_sortedb q = true ->
  Permutation q (x :: enqueue (S (action_id x)) now calls) ->
  sortedb (map call_delayFrames calls) = true ->
  q = List.filter (due_before (executionFrame x)) (enqueue (S (action_id x)) now calls)
      ++ x :: List.filter (fun a => negb (due_before (executionFrame x) a))
                          (enqueue (S (action_id x)) now calls).
Proof.
  intros Hq Hperm Hs.
  set (E := enqueue (S (action_id x)) now calls) in *.
  assert (HE : fifo_sortedb E = true) by by apply enqueue_fifo_sorted.
  apply fifo_sorted_unique; [done | | |].
  - apply fifo_sortedb_app; [by apply fifo_sortedb_filter | |].
    + apply fifo_sortedb_cons. split; [|by apply fifo_sortedb_filter].
      intros b Hb. apply filter_In in Hb as [Hb Hdue].
      apply enqueue_In in Hb as [Hid _].
      apply key_leb_intro; [|lia].
      unfold due_before in Hdue. by apply negb_true_iff in Hdue.
    + intros a b Ha Hb. apply filter_In in Ha as [Ha Hdue]. unfold due_before in Hdue.
      assert (Hlt : num_lt (executionFrame a) (executionFrame b)).
      { destruct Hb as [<- | Hb]; [done|].
        apply filter_In in Hb as [_ Hb]. apply negb_true_iff in Hb.
        eapply num_lt_le_trans; [exact Hdue | exact Hb]. }
      unfold key_leb. unfold num_lt in Hlt. by rewrite Hlt.
  - rewrite Hperm, <- Permutation_middle. constructor.
    symmetry. apply filter_split_Permutation.
  - rewrite Hperm. simpl. subst E. rewrite enqueue_ids. apply NoDup_cons. split.
    + intros Hin. apply elem_of_seq in Hin. lia.
    + apply NoDup_seq.
Qed.

(** ** Running delivered and cancelled actions *)

Lemma drain_delivers sink arr d pre : forall w n rest l,
  actions w = pre ++ rest ->
  Forall (fun a => shouldCall a = true /\ exists ev, callback a = CbSinkEvent sink ev) pre ->
  sinks w !! sink = Some (mkSink (ScRecord arr) d) ->
  is_active d w = true ->
  arrays w !! arr = Some l ->
  exists w',
    drain (length pre + n) w = drain n w' /\
    actions w' = rest /\
    arrays w' !! arr = Some (l ++ flat_map delivered pre) /\
    currentFrame w' = List.last (map executionFrame pre) (currentFrame w) /\
    disposables w' = disposables w /\ infos w' = infos w /\ sinks w' = sinks w /\
    sources w' = sources w /\ isFlushing w' = isFlushing w /\
    next_action w' = next_action w.
Proof.
  induction pre as [|a pre IH]; intros w n rest l Hq Hpre Hsink Hact Harr.
  - exists w. rewrite app_nil_r. by repeat split.
  - inversion Hpre as [|? ? [Hcall [ev Hcb]] Hpre']; subst.
    unfold is_active in Hact. destruct (disposables w !! d) as [obj|] eqn:Hd; [|done].
    set (w1 := set_arrays
                 (alter (fun l => l ++ [mkEvent (event ev) (executionFrame a)]) arr (arrays w))
                 (set_currentFrame (executionFrame a) (set_actions (pre ++ rest) w))).
    assert (Hstep : drain (length (a :: pre) + n) w = drain (length pre + n) w1).
    { change (length (a :: pre) + n)%nat with (S (length pre + n)).
      cbn [drain]. rewrite Hq. cbn [app]. rewrite Hcall, Hcb.
      cbn [call]. unfold sink_call.
      cbn [sinks set_currentFrame set_actions disposables].
      rewrite Hsink. cbn [bound onEvent]. rewrite Hd, Hact. reflexivity. }
    destruct (IH w1 n rest (l ++ [mkEvent (event ev) (executionFrame a)]))
      as (w' & Hrun & Ha' & Harr' & Hcf' & Hd' & Hi' & Hs' & Hsrc' & Hfl' & Hn');
      [done | done | done | | |].
    { unfold is_active. subst w1. cbn. by rewrite Hd. }
    { subst w1. cbn. by rewrite list_lookup_alter_eq, Harr. }
    exists w'. split; [by rewrite Hstep|]. split; [done|]. split.
    { rewrite Harr'. cbn [flat_map]. unfold delivered at 2. rewrite Hcb.
      by rewrite <- app_assoc. }
    split; [|done].
    rewrite Hcf'. cbn [map]. by rewrite last_cons_default.
Qed.

Lemma drain_cancelled q : forall w n,
  actions w = q -> Forall (fun a => shouldCall a = false) q -> (length q < n)%nat ->
  drain n w =
  Returns tt (set_currentFrame (List.last (map executionFrame q) (currentFrame w))
                (set_actions [] w)).
Proof.
  induction q as [|a q IH]; intros w n Hq Hall Hn.
  - destruct n as [|n]; [simpl in Hn; lia|]. cbn [drain]. rewrite Hq.
    destruct w. simpl in *. by subst.
  - destruct n as [|n]; [simpl in Hn; lia|]. inversion Hall as [|? ? Ha Hall']; subst.
    cbn [drain]. rewrite Hq, Ha.
    rewrite (IH (set_currentFrame (executionFrame a) (set_actions q w)) n)
      by (done || (simpl in Hn; lia)).
    cbn [map]. by rewrite last_cons_default.
Qed.

Lemma delivered_timeline sink sub opened closed events : forall n,
  flat_map delivered
    (List.filter (due_before closed)
       (enqueue n opened (timeline_calls (CbSinkEvent sink) sub events))) =
  map (stamp opened) (List.filter (in_window opened closed) events).
Proof.
  unfold timeline_calls.
  induction events as [|ev events IH]; intros n; [done|].
  cbn [map enqueue List.filter]. unfold due_before at 1, in_window at 1, call_frame at 1.
  cbn [executionFrame call_delayFrames].
  destruct (num_ltb (num_add opened (frame ev)) closed); [|apply IH].
  cbn [flat_map map]. by rewrite IH.
Qed.

Lemma cancel_ids_all ids q :
  Forall (fun a => action_id a ∈ ids) q ->
  Forall (fun a => shouldCall a = false) (cancel_ids ids q).
Proof.
  intros H. unfold cancel_ids. apply Forall_fmap. eapply Forall_impl; [exact H|].
  intros a Ha. simpl. unfold is_cancelled.
  destruct (existsb _ ids) eqn:He; [done|]. exfalso.
  assert (Hex : existsb (Nat.eqb (action_id a)) ids = true).
  { apply existsb_exists. exists (action_id a). split; [by apply list_elem_of_In|].
    apply Nat.eqb_refl. }
  congruence.
Qed.

(** ** Subscribing and watching *)

Lemma flush_S n w :
  flush (S n) w =
  if isFlushing w then Returns tt w
  else (drain n ;;; modify (set_isFlushing false)) (set_isFlushing true w).
Proof. reflexivity. Qed.

Lemma drain_S n w :
  drain (S n) w =
  match actions w with
  | [] => Returns tt w
  | action :: rest =>
      let w1 := set_currentFrame (executionFrame action) (set_actions rest w) in
      if shouldCall action then
        match call (flush n) n (callback action) w1 with
        | Returns _ w2 => drain n w2
        | Throws error w2 => Throws error (reset w2)
        | OutOfFuel => OutOfFuel
        | Stuck => Stuck
        end
      else drain n w1
  end.
Proof. reflexivity. Qed.

Lemma getActionInsertIndex_nil f : getActionInsertIndex [] f = Some 0.
Proof. reflexivity. Qed.

Lemma timeline_calls_delays mk sub evs :
  map call_delayFrames (timeline_calls mk sub evs) = map frame evs.
Proof. unfold timeline_calls. rewrite map_map. by apply map_ext. Qed.

Lemma timeline_actions sink sub evs n now :
  Forall (fun a => shouldCall a = true /\ exists ev, callback a = CbSinkEvent sink ev)
         (enqueue n now (timeline_calls (CbSinkEvent sink) sub evs)).
Proof.
  revert n. unfold timeline_calls.
  induction evs as [|ev evs IH]; intros n; simpl; constructor; [|apply IH].
  split; [done|]. by exists ev.
Qed.

Lemma watchSubscriptionInfo_arrays fuel base d regs w i w1 :
  holds base d regs w ->
  watchSubscriptionInfo fuel (Some d) w = Returns i w1 -> arrays w1 = arrays w.
Proof.
  intros (_ & Hlook & _).
  cbv [watchSubscriptionInfo bind ret Disposable add run_child].
  cbn [disposables set_infos set_disposables].
  rewrite (lookup_app_l_Some _ _ _ _ Hlook). cbn [active].
  intros H. injection H as _ <-. reflexivity.
Qed.

(** The store after a Sink bound to a new Disposable [d] was subscribed to a
    TestSource. *)
Lemma subscribe_timeline (w : World) (source sink d : nat) (cbk : SinkCallback)
      (events : list TestSourceEvent) (subs : list nat) (fuel : nat) :
  sources w !! source = Some (TestSourceObj events subs) ->
  sinks w !! sink = Some (mkSink cbk d) ->
  disposables w !! d = Some (mkDisposable true []) ->
  fifo_queue w ->
  Z.of_nat (length (actions w) + length events) <= 2 ^ 31 ->
  exists w' regs,
    subscribe fuel source sink w = Returns tt w' /\
    holds (length (disposables w)) d
          ((length (disposables w), TdEndInfo (length (infos w))) :: regs) w' /\
    map snd regs = map TdCancel (seq (next_action w) (length events)) /\
    Permutation (actions w')
      (actions w ++ enqueue (next_action w) (currentFrame w)
                      (timeline_calls (CbSinkEvent sink) (Some d) events)) /\
    fifo_queue w' /\
    infos w' = infos w ++ [mkInfo (currentFrame w) Infinity] /\
    sinks w' = sinks w /\ arrays w' = arrays w /\
    sources w' !! source = Some (TestSourceObj events (subs ++ [length (infos w)])) /\
    isFlushing w' = isFlushing w.
Proof.
  intros Hsrc Hsink Hd Hfifo Hlen. unfold subscribe, Source. rewrite Hsrc, Hsink.
  cbn [bound].
  assert (H0 : holds (length (disposables w)) d [] w).
  { split; [apply lookup_lt_Some in Hd; lia|]. split; [done|].
    split; [apply NoDup_nil_2 | constructor]. }
  destruct (watchSubscriptionInfo_holds fuel _ _ _ _ H0)
    as (w1 & Hrun1 & H1 & (Ha1 & Hcf1 & Hfl1 & Hn1 & _) & Hinfos1 & Hsinks1 & Hsrc1).
  pose proof (watchSubscriptionInfo_arrays _ _ _ _ _ _ _ H0 Hrun1) as Harr1.
  unfold bind at 1. rewrite Hrun1. unfold bind at 1, push_subscription, modify.
  set (w2 := set_sources _ w1).
  assert (H2 : holds (length (disposables w)) d
                 ([] ++ [(length (disposables w), TdEndInfo (length (infos w)))]) w2).
  { by apply (holds_ext _ _ _ w1). }
  assert (Hu2 : usable (Some d) w2 = true).
  { destruct H2 as (_ & Hlook & _). unfold usable, is_active. by rewrite Hlook. }
  assert (Hlen2 : Z.of_nat (length (actions w2) + length events) <= 2 ^ 31).
  { subst w2. cbn. by rewrite Ha1. }
  set (calls := timeline_calls (CbSinkEvent sink) (Some d) events).
  assert (Hucalls : Forall (fun c => usable (call_subscription c) w2 = true) calls).
  { by apply timeline_calls_usable. }
  assert (Hlcalls : Z.of_nat (length (actions w2) + length calls) <= 2 ^ 31).
  { subst calls. by rewrite timeline_calls_length. }
  destruct (timeline_holds fuel _ _ (CbSinkEvent sink) events w2 _ H2 Hlen2)
    as (w3 & regs' & Hrun3 & H3 & Hids).
  fold calls in Hrun3.
  destruct (for_each_testSchedule fuel (CbSinkEvent sink) (Some d) events w2 Hu2 Hlen2)
    as (w3' & Hrun3' & _ & _ & _ & Hfl3 & _ & Hinfos3 & Hsinks3 & _ & Harr3 & Hsrc3).
  rewrite for_each_timeline in Hrun3'. fold calls in Hrun3'.
  rewrite Hrun3 in Hrun3'. injection Hrun3' as <-.
  destruct (schedule_all_perm fuel calls w2 Hucalls Hlcalls) as (w3' & Hrun3' & Hperm & _).
  rewrite Hrun3 in Hrun3'. injection Hrun3' as <-.
  destruct (schedule_all_fifo_queue fuel calls w2) as (w3' & Hrun3' & Hfifo3);
    [|done|done|].
  { destruct Hfifo as [Hf1 Hf2]. split; subst w2; cbn; by rewrite ?Ha1, ?Hn1. }
  rewrite Hrun3 in Hrun3'. injection Hrun3' as <-.
  exists w3, regs'. split; [by rewrite for_each_timeline|].
  split; [done|]. split; [subst w2; cbn in Hids; by rewrite Hn1 in Hids|].
  split; [subst w2; cbn in Hperm; by rewrite Ha1, Hcf1, Hn1 in Hperm|].
  split; [done|].
  split; [by rewrite Hinfos3|].
  split; [by rewrite Hsinks3|].
  split; [by rewrite Harr3|].
  split; [rewrite Hsrc3; subst w2; cbn; by rewrite list_lookup_alter_eq, Hsrc1, Hsrc|].
  by rewrite Hfl3.
Qed.

Lemma watchSourceEvents_on_empty_queue fuel source info w :
  actions w = [] ->
  num_le (num_add (currentFrame w) (subscriptionStartFrame info))
         (num_add (currentFrame w) (subscriptionEndFrame info)) ->
  watchSourceEvents fuel source (Some info) w =
  Returns (length (arrays w))
    (set_next_action (S (S (next_action w)))
       (set_actions
          [mkAction (next_action w)
                    (CbSubscribe source (length (arrays w)) (length (disposables w)))
                    (num_add (currentFrame w) (subscriptionStartFrame info)) true;
           mkAction (S (next_action w)) (CbDispose (length (disposables w)))
                    (num_add (currentFrame w) (subscriptionEndFrame info)) true]
          (set_arrays (arrays w ++ [[]])
             (set_disposables (disposables w ++ [mkDisposable true []]) w)))).
Proof.
  intros Hq Hle.
  destruct w as [q cf fl n ds ins ss sj ar so lg]. cbn in Hq, Hle. subst q.
  cbv [watchSourceEvents bind ret Disposable testSchedule is_inactive].
  cbn [actions currentFrame isFlushing next_action disposables infos sinks subjects
       arrays sources log set_actions set_next_action set_disposables set_arrays
       subscriptionStartFrame subscriptionEndFrame].
  rewrite getActionInsertIndex_nil.
  cbn [actions currentFrame isFlushing next_action disposables infos sinks subjects
       arrays sources log set_actions set_next_action set_disposables set_arrays].
  rewrite (getActionInsertIndex_last _ (num_add cf (subscriptionEndFrame info))).
  - reflexivity.
  - reflexivity.
  - vm_compute. discriminate.
  - intros a [<- | []]. exact Hle.
Qed.

(** X13. A TestSource whose events are listed in the order of their frames
    is watched with an explicit subscriptionInfo on an idle schedule with an
    empty queue, and the schedule is flushed.  With [opened] and [closed] the
    current frame plus the start and the end frame of the info, and [opened]
    not after [closed]: the events array holds, in the order of the timeline,
    exactly the events whose frame [opened + frame] is before [closed], each
    with that frame; the source has recorded the subscription
    [(opened, closed)]; the queue is empty and the flush is over. *)
Theorem watched_TestSource_records_window (w : World) (source : nat)
      (events : list TestSourceEvent) (subs : list nat)
      (info : TestSubscriptionInfo) (fuel : nat) :
  isFlushing w = false -> actions w = [] ->
  sources w !! source = Some (TestSourceObj events subs) ->
  sortedb (map frame events) = true ->
  let opened := num_add (currentFrame w) (subscriptionStartFrame info) in
  let closed := num_add (currentFrame w) (subscriptionEndFrame info) in
  num_le opened closed ->
  Z.of_nat (length events + 2) <= 2 ^ 31 ->
  (length events + 5 <= fuel)%nat ->
  exists w1 w2,
    watchSourceEvents fuel source (Some info) w = Returns (length (arrays w)) w1 /\
    flush fuel w1 = Returns tt w2 /\
    arrays w2 !! length (arrays w) =
      Some (map (stamp opened) (List.filter (in_window opened closed) events)) /\
    infos w2 !! length (infos w) = Some (mkInfo opened closed) /\
    sources w2 !! source = Some (TestSourceObj events (subs ++ [length (infos w)])) /\
    actions w2 = [] /\ isFlushing w2 = false.
Proof.
  intros Hfl Hq Hsrc Hsorted opened closed Hle Hlen Hfuel.
  rewrite (watchSourceEvents_on_empty_queue fuel source info w Hq Hle).
  fold opened closed.
  set (arr := length (arrays w)). set (d := length (disposables w)).
  set (n := next_action w). set (sink := length (sinks w)).
  set (dispA := mkAction (S n) (CbDispose d) closed true).
  set (w1 := set_next_action _ _).
  set (wA := set_currentFrame opened (set_actions [dispA] (set_isFlushing true w1))).
  set (wB := set_sinks (sinks w ++ [mkSink (ScRecord arr) d]) wA).
  set (E := enqueue (S (S n)) opened (timeline_calls (CbSinkEvent sink) (Some d) events)).
  set (before := List.filter (due_before closed) E).
  set (after := List.filter (fun a => negb (due_before closed a)) E).
  assert (Hsplit : (length before + length after = length events)%nat).
  { subst before after. rewrite <- length_app.
    rewrite (Permutation_length (filter_split_Permutation (due_before closed) E)).
    subst E. by rewrite enqueue_length, timeline_calls_length. }
  remember (fuel - 3 - length before)%nat as n1 eqn:Hn1.
  assert (Hfuel' : fuel = S (S (length before + S n1))) by lia.
  destruct (subscribe_timeline wB source sink d (ScRecord arr) events subs
              (length before + S n1))
    as (wE & regs & HrunE & HholdsE & Hids & HpermE & HfifoE & HinfosE & HsinksE
        & HarrE & HsrcE & HflE).
  { exact Hsrc. }
  { subst wB. cbn. by apply list_lookup_middle. }
  { subst wB. cbn. by apply list_lookup_middle. }
  { split; [reflexivity|]. constructor; [cbn; lia | constructor]. }
  { cbn. lia. }
  assert (HqE : actions wE = before ++ dispA :: after).
  { apply (timeline_queue (actions wE) dispA opened
             (timeline_calls (CbSinkEvent sink) (Some d) events));
      [apply HfifoE | exact HpermE | by rewrite timeline_calls_delays]. }
  destruct (drain_delivers sink arr d before wE (S n1) (dispA :: after) [])
    as (wF & HrunF & HaF & HarrF & HcfF & HdF & HiF & HsF & HsrcF & HflF & HnF).
  { exact HqE. }
  { apply Forall_forall. intros a Ha. apply list_elem_of_In, filter_In in Ha as [Ha _].
    pose proof (timeline_actions sink (Some d) events (S (S n)) opened) as Hall.
    rewrite Forall_forall in Hall. by apply Hall, list_elem_of_In. }
  { rewrite HsinksE. subst wB. cbn. by apply list_lookup_middle. }
  { destruct HholdsE as (_ & Hlook & _). unfold is_active. by rewrite Hlook. }
  { rewrite HarrE. subst wB. cbn. by apply list_lookup_middle. }
  set (wG := set_currentFrame closed (set_actions after wF)).
  destruct (dispose_holds (length (disposables wB)) d _ wG n1
              (holds_ext _ _ _ wE wG HdF HholdsE))
    as (wH & HrunH & HsameH & _); [lia|].
  cbn [map snd] in HsameH. rewrite Hids in HsameH.
  cbn [run_teardowns fold_left] in HsameH.
  fold (run_teardowns (map TdCancel (seq (next_action wB) (length events)))) in HsameH.
  rewrite run_teardowns_cancel in HsameH.
  apply same_but_disposables_fields in HsameH
    as (HaH & HcfH & HflH & HnH & HiH & HsH & HsjH & HarrH & HsrcH & HlogH).
  cbn in HaH, HcfH, HflH, HiH, HarrH, HsrcH.
  assert (Hcancelled : Forall (fun a => shouldCall a = false) (actions wH)).
  { rewrite HaH. apply cancel_ids_all. apply Forall_forall. intros a Ha.
    apply list_elem_of_In, filter_In in Ha as [Ha _].
    apply (in_map action_id) in Ha. subst E. rewrite enqueue_ids, timeline_calls_length in Ha.
    by apply list_elem_of_In. }
  exists w1. eexists. split; [reflexivity|]. split.
  - rewrite Hfuel' at 1. rewrite flush_S.
    change (isFlushing w1) with (isFlushing w). rewrite Hfl. unfold bind at 1.
    change (drain (S (length before + S n1)) (set_isFlushing true w1)) with
      (match call (flush (length before + S n1)) (length before + S n1)
               (CbSubscribe source arr d) wA with
       | Returns _ w2 => drain (length before + S n1) w2
       | Throws error w2 => Throws error (reset w2)
       | OutOfFuel => OutOfFuel
       | Stuck => Stuck
       end).
    cbn [call]. unfold Sink, bind at 1.
    change (subscribe (length before + S n1) source (length (sinks wA))
              (set_sinks (sinks wA ++ [mkSink (ScRecord arr) d]) wA))
      with (subscribe (length before + S n1) source sink wB).
    rewrite HrunE, HrunF.
    rewrite drain_S, HaF.
    cbn [shouldCall dispA].
    change (call (flush n1) n1 (callback dispA)
                 (set_currentFrame (executionFrame dispA) (set_actions after wF)))
      with (dispose n1 d wG).
    rewrite HrunH.
    rewrite (drain_cancelled (actions wH) wH n1 eq_refl Hcancelled).
    + unfold modify. reflexivity.
    + rewrite HaH. unfold cancel_ids. rewrite length_map. lia.
  - cbn. split; [|split; [|split; [|done]]].
    + rewrite HarrH, HarrF. f_equal. subst before E. apply delivered_timeline.
    + rewrite HiH, list_lookup_alter_eq, HiF, HinfosE. subst wB. cbn.
      rewrite list_lookup_middle by done. reflexivity.
    + by rewrite HsrcH, HsrcF.
Qed.

Lemma watched_TestSource_records_window_witness :
  exists w1 w2,
    watchSourceEvents 7 0 (Some (mkInfo (Fin 1) (Fin 3))) source_store
      = Returns 0%nat w1 /\
    flush 7 w1 = Returns tt w2 /\
    arrays w2 !! 0%nat = Some [mkEvent (Push 1) (Fin 6)] /\
    infos w2 !! 0%nat = Some (mkInfo (Fin 5) (Fin 7)).
Proof.
  destruct (watched_TestSource_records_window source_store 0
              [P 1 (Fin 1); E (Fin 3)] [] (mkInfo (Fin 1) (Fin 3)) 7)
    as (w1 & w2 & H1 & H2 & H3 & H4 & _);
    [reflexivity | reflexivity | reflexivity | reflexivity | reflexivity
    | vm_compute; discriminate | simpl; lia |].
  exists w1, w2. split; [exact H1|]. split; [exact H2|]. split; [exact H3 | exact H4].
Defined.

(** ** A window that is closed before it is opened *)

Lemma subscribe_disposed (w : World) (source sink : nat)
      (events : list TestSourceEvent) (subs : list nat) (s : SinkObj)
      (obj : DisposableObj) (fuel : nat) :
  sources w !! source = Some (TestSourceObj events subs) ->
  sinks w !! sink = Some s ->
  disposables w !! bound s = Some obj -> active obj = false ->
  (1 <= fuel)%nat ->
  exists w',
    subscribe fuel source sink w = Returns tt w' /\
    same_schedule w w' /\ arrays w' = arrays w /\
    sources w' !! source = Some (TestSourceObj events (subs ++ [length (infos w)])) /\
    infos w' !! length (infos w) = Some (mkInfo (currentFrame w) (currentFrame w)).
Proof.
  intros Hsrc Hsink Hd Hactive Hfuel. unfold subscribe, Source. rewrite Hsrc, Hsink.
  destruct (watchSubscriptionInfo_effect fuel (bound s) w obj Hd Hfuel)
    as (w1 & Hrun1 & Hsame & _ & _ & Harr1 & Hsrc1 & _ & Hinfo1 & obj' & Hd1 & Hact1).
  rewrite Hactive in Hinfo1.
  unfold bind at 1. rewrite Hrun1. unfold bind at 1, push_subscription, modify.
  set (w2 := set_sources _ w1).
  rewrite (for_each_testSchedule_inactive fuel (CbSinkEvent sink) (bound s) events w2).
  2:{ exists obj'. split; [by subst w2 | congruence]. }
  exists w2. subst w2. cbn. split; [done|]. split; [exact Hsame|]. split; [done|].
  split; [|done]. by rewrite list_lookup_alter_eq, Hsrc1, Hsrc.
Qed.

Lemma watchSourceEvents_closed_first fuel source info w :
  actions w = [] ->
  num_lt (num_add (currentFrame w) (subscriptionEndFrame info))
         (num_add (currentFrame w) (subscriptionStartFrame info)) ->
  watchSourceEvents fuel source (Some info) w =
  Returns (length (arrays w))
    (set_next_action (S (S (next_action w)))
       (set_actions
          [mkAction (S (next_action w)) (CbDispose (length (disposables w)))
                    (num_add (currentFrame w) (subscriptionEndFrame info)) true;
           mkAction (next_action w)
                    (CbSubscribe source (length (arrays w)) (length (disposables w)))
                    (num_add (currentFrame w) (subscriptionStartFrame info)) true]
          (set_arrays (arrays w ++ [[]])
             (set_disposables (disposables w ++ [mkDisposable true []]) w)))).
Proof.
  intros Hq Hlt.
  destruct w as [q cf fl n ds ins ss sj ar so lg]. cbn in Hq, Hlt. subst q.
  cbv [watchSourceEvents bind ret Disposable testSchedule is_inactive].
  cbn [actions currentFrame isFlushing next_action disposables infos sinks subjects
       arrays sources log set_actions set_next_action set_disposables set_arrays
       subscriptionStartFrame subscriptionEndFrame].
  rewrite getActionInsertIndex_nil.
  cbn [actions currentFrame isFlushing next_action disposables infos sinks subjects
       arrays sources log set_actions set_next_action set_disposables set_arrays].
  rewrite (getActionInsertIndex_count _ (num_add cf (subscriptionEndFrame info)));
    [|vm_compute; discriminate | reflexivity].
  rewrite count_le_above; [reflexivity|].
  intros a [<- | []]. exact Hlt.
Qed.

(** X14. A TestSource is watched with a subscriptionInfo whose end frame
    is before its start frame, on an idle schedule with an empty queue, and
    the schedule is flushed.  The disposal runs first, so the source is
    subscribed to with a Sink that is disposed already: no event of the
    timeline is scheduled or recorded, and the source records a subscription
    that starts and ends at the frame [opened] of the subscription.  The
    flush ends at that frame with an empty queue. *)
Theorem watched_TestSource_closed_first (w : World) (source : nat)
      (events : list TestSourceEvent) (subs : list nat)
      (info : TestSubscriptionInfo) (fuel : nat) :
  isFlushing w = false -> actions w = [] ->
  sources w !! source = Some (TestSourceObj events subs) ->
  let opened := num_add (currentFrame w) (subscriptionStartFrame info) in
  let closed := num_add (currentFrame w) (subscriptionEndFrame info) in
  num_lt closed opened ->
  (4 <= fuel)%nat ->
  exists w1 w2,
    watchSourceEvents fuel source (Some info) w = Returns (length (arrays w)) w1 /\
    flush fuel w1 = Returns tt w2 /\
    arrays w2 !! length (arrays w) = Some [] /\
    infos w2 !! length (infos w) = Some (mkInfo opened opened) /\
    sources w2 !! source = Some (TestSourceObj events (subs ++ [length (infos w)])) /\
    actions w2 = [] /\ currentFrame w2 = opened /\ isFlushing w2 = false.
Proof.
  intros Hfl Hq Hsrc opened closed Hlt Hfuel.
  rewrite (watchSourceEvents_closed_first fuel source info w Hq Hlt).
  fold opened closed.
  set (arr := length (arrays w)). set (d := length (disposables w)).
  set (n := next_action w). set (sink := length (sinks w)).
  set (subA := mkAction n (CbSubscribe source arr d) opened true).
  set (w1 := set_next_action _ _).
  destruct fuel as [|[|[|k]]]; [lia | lia | lia |].
  set (wA := set_currentFrame closed (set_actions [subA] (set_isFlushing true w1))).
  set (wA' := set_disposables (alter deactivate d (disposables wA)) wA).
  assert (HrunA : dispose (S k) d wA = Returns tt wA').
  { rewrite dispose_S. subst wA. cbn [disposables set_currentFrame set_actions set_isFlushing w1
      set_next_action set_arrays set_disposables]. subst d.
    rewrite list_lookup_middle by done. reflexivity. }
  set (wB := set_sinks (sinks w ++ [mkSink (ScRecord arr) d])
               (set_currentFrame opened (set_actions [] wA'))).
  destruct (subscribe_disposed wB source sink events subs (mkSink (ScRecord arr) d)
              (mkDisposable false []) k)
    as (wE & HrunE & (HaE & HcfE & HflE & _) & HarrE & HsrcE & HinfoE).
  { exact Hsrc. }
  { subst wB. cbn. by apply list_lookup_middle. }
  { subst wB wA'. cbn. subst d. rewrite list_lookup_alter_eq.
    by rewrite list_lookup_middle. }
  { reflexivity. }
  { lia. }
  exists w1. eexists. split; [reflexivity|]. split.
  - rewrite flush_S. change (isFlushing w1) with (isFlushing w). rewrite Hfl.
    unfold bind at 1.
    change (drain (S (S k)) (set_isFlushing true w1)) with
      (match call (flush (S k)) (S k) (CbDispose d) wA with
       | Returns _ w2 => drain (S k) w2
       | Throws error w2 => Throws error (reset w2)
       | OutOfFuel => OutOfFuel
       | Stuck => Stuck
       end).
    cbn [call]. rewrite HrunA.
    change (drain (S k) wA') with
      (match call (flush k) k (CbSubscribe source arr d)
               (set_currentFrame opened (set_actions [] wA')) with
       | Returns _ w2 => drain k w2
       | Throws error w2 => Throws error (reset w2)
       | OutOfFuel => OutOfFuel
       | Stuck => Stuck
       end).
    cbn [call]. unfold Sink, bind at 1.
    change (subscribe k source
              (length (sinks (set_currentFrame opened (set_actions [] wA'))))
              (set_sinks (sinks (set_currentFrame opened (set_actions [] wA'))
                          ++ [mkSink (ScRecord arr) d])
                         (set_currentFrame opened (set_actions [] wA'))))
      with (subscribe k source sink wB).
    rewrite HrunE. destruct k as [|k]; [lia|].
    rewrite drain_S, HaE. unfold modify. reflexivity.
  - cbn. split; [|split; [|split; [|split; [|split]]]]; try done.
    + rewrite HarrE. subst wB. cbn. by apply list_lookup_middle.
Qed.

Lemma watched_TestSource_closed_first_witness :
  exists w1 w2,
    watchSourceEvents 4 0 (Some (mkInfo (Fin 3) (Fin 1))) source_store
      = Returns 0%nat w1 /\
    flush 4 w1 = Returns tt w2 /\
    arrays w2 !! 0%nat = Some [] /\
    infos w2 !! 0%nat = Some (mkInfo (Fin 7) (Fin 7)).
Proof.
  destruct (watched_TestSource_closed_first source_store 0
              [P 1 (Fin 1); E (Fin 3)] [] (mkInfo (Fin 3) (Fin 1)) 4)
    as (w1 & w2 & H1 & H2 & H3 & H4 & _);
    [reflexivity | reflexivity | reflexivity | reflexivity | lia |].
  exists w1, w2. split; [exact H1|]. split; [exact H2|]. split; [exact H3 | exact H4].
Defined.


(** * A watched SharedTestSource, end to end *)

(** The queue after a timeline in the order of its frames was scheduled on
    a queue that held the two older actions [x] and [y]. *)
Lemma shared_queue (q : list TestScheduleAction) x y now calls :
  fifo_sortedb q = true ->
  Permutation q (x :: y :: enqueue (S (action_id y)) now calls) ->
  action_id y = S (action_id x) ->
  num_le (executionFrame x) (executionFrame y) ->
  sortedb (map call_delayFrames calls) = true ->
  let E := enqueue (S (action_id y)) now calls in
  let rest := List.filter (fun a => negb (due_before (executionFrame x) a)) E in
  q = List.filter (due_before (executionFrame x)) E
      ++ x :: List.filter (due_before (executionFrame y)) rest
      ++ y :: List.filter (fun a => negb (due_before (executionFrame y) a)) rest.
Proof.
  intros Hq Hperm Hid Hxy Hs E rest.
  assert (HE : fifo_sortedb E = true) by by apply enqueue_fifo_sorted.
  assert (Hrest : forall b, In b rest ->
            num_le (executionFrame x) (executionFrame b) /\ (action_id y < action_id b)%nat).
  { intros b Hb. apply filter_In in Hb as [Hb Hdue].
    apply enqueue_In in Hb as [Hidb _]. split; [|lia].
    unfold due_before in Hdue. by apply negb_true_iff in Hdue. }
  apply fifo_sorted_unique; [done | | |].
  - apply fifo_sortedb_app; [by apply fifo_sortedb_filter | |].
    + apply fifo_sortedb_cons. split.
      * intros b Hb. apply in_app_iff in Hb as [Hb | [<- | Hb]].
        -- apply filter_In in Hb as [Hb _]. destruct (Hrest b Hb) as [Hle Hlt].
           apply key_leb_intro; [done | lia].
        -- apply key_leb_intro; [done | lia].
        -- apply filter_In in Hb as [Hb _]. destruct (Hrest b Hb) as [Hle Hlt].
           apply key_leb_intro; [done | lia].
      * apply fifo_sortedb_app; [by apply fifo_sortedb_filter, fifo_sortedb_filter | |].
        -- apply fifo_sortedb_cons.
           split; [|by apply fifo_sortedb_filter, fifo_sortedb_filter].
           intros b Hb. apply filter_In in Hb as [Hb Hdue].
           destruct (Hrest b Hb) as [_ Hlt].
           apply key_leb_intro; [|lia].
           unfold due_before in Hdue. by apply negb_true_iff in Hdue.
        -- intros a b Ha Hb. apply filter_In in Ha as [_ Hdue]. unfold due_before in Hdue.
           assert (Hlt : num_lt (executionFrame a) (executionFrame b)).
           { destruct Hb as [<- | Hb]; [done|].
             apply filter_In in Hb as [_ Hb]. apply negb_true_iff in Hb.
             eapply num_lt_le_trans; [exact Hdue | exact Hb]. }
           unfold key_leb. unfold num_lt in Hlt. by rewrite Hlt.
    + intros a b Ha Hb. apply filter_In in Ha as [_ Hdue]. unfold due_before in Hdue.
      assert (Hlt : num_lt (executionFrame a) (executionFrame b)).
      { eapply num_lt_le_trans; [exact Hdue|].
        destruct Hb as [<- | Hb]; [apply num_le_refl|].
        apply in_app_iff in Hb as [Hb | [<- | Hb]]; [| done |].
        - apply filter_In in Hb as [Hb _]. by apply Hrest.
        - apply filter_In in Hb as [Hb _]. by apply Hrest. }
      unfold key_leb. unfold num_lt in Hlt. by rewrite Hlt.
  - rewrite Hperm. rewrite <- Permutation_middle. constructor.
    rewrite app_assoc, <- Permutation_middle. constructor.
    rewrite <- app_assoc.
    rewrite (filter_split_Permutation (due_before (executionFrame y)) rest).
    symmetry. apply filter_split_Permutation.
  - rewrite Hperm. simpl. rewrite enqueue_ids. apply NoDup_cons. split.
    + intros Hin. apply elem_of_cons in Hin as [Hin | Hin]; [lia|].
      apply elem_of_seq in Hin. lia.
    + apply NoDup_cons. split; [|apply NoDup_seq].
      intros Hin. apply elem_of_seq in Hin. lia.
Qed.

Lemma drain_pushes_none subject pre : forall w n rest,
  actions w = pre ++ rest ->
  Forall (fun a => exists ev, callback a = CbSubjectEvent subject ev) pre ->
  subjects w !! subject = Some [] ->
  drain (length pre + n) w =
  drain n (set_currentFrame (List.last (map executionFrame pre) (currentFrame w))
             (set_actions rest w)).
Proof.
  induction pre as [|a pre IH]; intros w n rest Hq Hpre Hsubj.
  - f_equal. destruct w. simpl in *. by subst.
  - inversion Hpre as [|? ? [ev Hcb] Hpre']; subst.
    change (length (a :: pre) + n)%nat with (S (length pre + n)).
    rewrite drain_S, Hq. cbn [app]. cbv zeta.
    set (w1 := set_currentFrame (executionFrame a) (set_actions (pre ++ rest) w)).
    assert (Hnext : drain (length pre + n) w1 =
                    drain n (set_currentFrame
                               (List.last (map executionFrame (a :: pre)) (currentFrame w))
                               (set_actions rest w))).
    { rewrite (IH w1 n rest); [|done|done|done]. cbn [map].
      by rewrite last_cons_default. }
    destruct (shouldCall a); [|exact Hnext].
    rewrite Hcb. cbn [call]. unfold subject_push.
    change (subjects w1) with (subjects w). rewrite Hsubj. cbn [for_each]. unfold ret.
    exact Hnext.
Qed.

Lemma drain_pushes_one subject sink arr d pre : forall w n rest l,
  actions w = pre ++ rest ->
  Forall (fun a => shouldCall a = true /\ exists ev, callback a = CbSubjectEvent subject ev)
         pre ->
  subjects w !! subject = Some [sink] ->
  sinks w !! sink = Some (mkSink (ScRecord arr) d) ->
  is_active d w = true ->
  arrays w !! arr = Some l ->
  exists w',
    drain (length pre + n) w = drain n w' /\
    actions w' = rest /\
    arrays w' !! arr = Some (l ++ flat_map pushed pre) /\
    currentFrame w' = List.last (map executionFrame pre) (currentFrame w) /\
    disposables w' = disposables w /\ infos w' = infos w /\ sinks w' = sinks w /\
    subjects w' = subjects w /\ sources w' = sources w /\ isFlushing w' = isFlushing w.
Proof.
  induction pre as [|a pre IH]; intros w n rest l Hq Hpre Hsubj Hsink Hact Harr.
  - exists w. rewrite app_nil_r. by repeat split.
  - inversion Hpre as [|? ? [Hcall [ev Hcb]] Hpre']; subst.
    unfold is_active in Hact. destruct (disposables w !! d) as [obj|] eqn:Hd; [|done].
    set (w1 := set_arrays
                 (alter (fun l => l ++ [mkEvent (event ev) (executionFrame a)]) arr (arrays w))
                 (set_currentFrame (executionFrame a) (set_actions (pre ++ rest) w))).
    assert (Hstep : drain (length (a :: pre) + n) w = drain (length pre + n) w1).
    { change (length (a :: pre) + n)%nat with (S (length pre + n)).
      rewrite drain_S, Hq. cbn [app]. cbv zeta. rewrite Hcall, Hcb.
      cbn [call]. unfold subject_push.
      cbn [subjects set_currentFrame set_actions]. rewrite Hsubj.
      cbn [for_each]. unfold bind at 1, sink_call.
      cbn [sinks set_currentFrame set_actions disposables].
      rewrite Hsink. cbn [bound onEvent]. rewrite Hd, Hact. reflexivity. }
    destruct (IH w1 n rest (l ++ [mkEvent (event ev) (executionFrame a)]))
      as (w' & Hrun & Ha' & Harr' & Hcf' & Hd' & Hi' & Hs' & Hsj' & Hsrc' & Hfl');
      [done | done | done | done | | |].
    { unfold is_active. subst w1. cbn. by rewrite Hd. }
    { subst w1. cbn. by rewrite list_lookup_alter_eq, Harr. }
    exists w'. split; [by rewrite Hstep|]. split; [done|]. split.
    { rewrite Harr'. cbn [flat_map]. unfold pushed at 2. rewrite Hcb.
      by rewrite <- app_assoc. }
    split; [|done].
    rewrite Hcf'. cbn [map]. by rewrite last_cons_default.
Qed.

Lemma shared_timeline_actions subject sub evs n now :
  Forall (fun a => shouldCall a = true /\ exists ev, callback a = CbSubjectEvent subject ev)
         (enqueue n now (timeline_calls (CbSubjectEvent subject) sub evs)).
Proof.
  revert n. unfold timeline_calls.
  induction evs as [|ev evs IH]; intros n; simpl; constructor; [|apply IH].
  split; [done|]. by exists ev.
Qed.

Lemma pushed_timeline subject sub now opened closed events : forall n,
  flat_map pushed
    (List.filter (due_before closed)
       (List.filter (fun a => negb (due_before opened a))
          (enqueue n now (timeline_calls (CbSubjectEvent subject) sub events)))) =
  map (stamp now) (List.filter (in_shared_window now opened closed) events).
Proof.
  unfold timeline_calls.
  induction events as [|ev events IH]; intros n; [done|].
  cbn [map enqueue]. unfold call_frame at 1. cbn [call_callback call_delayFrames].
  set (a0 := mkAction n (CbSubjectEvent subject ev) (num_add now (frame ev)) true).
  assert (H1 : due_before opened a0 = num_ltb (num_add now (frame ev)) opened)
    by reflexivity.
  assert (H2 : due_before closed a0 = num_ltb (num_add now (frame ev)) closed)
    by reflexivity.
  cbn [List.filter]. unfold in_shared_window at 1, num_leb. rewrite H1.
  destruct (num_ltb (num_add now (frame ev)) opened); cbn [negb andb]; [apply IH|].
  cbn [List.filter]. rewrite H2.
  destruct (num_ltb (num_add now (frame ev)) closed); [|apply IH].
  cbn [flat_map map]. by rewrite IH.
Qed.

Ltac fields :=
  cbn [actions currentFrame isFlushing next_action disposables infos sinks subjects
       arrays sources log set_actions set_currentFrame set_isFlushing set_next_action
       set_disposables set_infos set_sinks set_subjects set_arrays set_sources set_log].

Lemma shared_subscribe_store (w : World) (source sink d subject : nat) (cbk : SinkCallback)
      (events : list TestSourceEvent) (subs registry : list nat) (fuel : nat) :
  sources w !! source = Some (SharedTestSourceObj events subs subject) ->
  sinks w !! sink = Some (mkSink cbk d) ->
  disposables w !! d = Some (mkDisposable true []) ->
  subjects w !! subject = Some registry ->
  exists w',
    subscribe fuel source sink w = Returns tt w' /\
    same_schedule w w' /\ arrays w' = arrays w /\ sinks w' = sinks w /\
    infos w' = infos w ++ [mkInfo (currentFrame w) Infinity] /\
    sources w' !! source =
      Some (SharedTestSourceObj events (subs ++ [length (infos w)]) subject) /\
    subjects w' !! subject = Some (registry ++ [sink]) /\
    disposables w' !! d =
      Some (mkDisposable true [ChildDisposable (length (disposables w));
                               ChildCallback (TdUnsubscribe subject sink)]) /\
    disposables w' !! length (disposables w) =
      Some (mkDisposable true [ChildCallback (TdEndInfo (length (infos w)))]).
Proof.
  intros Hsrc Hsink Hd Hsubj.
  assert (Hlt : (d < length (disposables w))%nat) by by apply lookup_lt_Some in Hd.
  unfold subscribe, Source. rewrite Hsrc, Hsink. cbn [bound].
  cbv [bind watchSubscriptionInfo ret Disposable add run_child push_subscription modify
       subject_subscribe].
  fields. rewrite (lookup_app_l_Some _ _ _ _ Hd). cbn [active]. fields.
  rewrite Hsubj, Hsink. cbn [bound]. fields.
  rewrite list_lookup_alter_eq, (lookup_app_l_Some _ _ _ _ Hd). cbn [active option_map fmap].
  eexists. split; [reflexivity|]. cbn.
  split; [by repeat split|]. split; [done|]. split; [done|]. split; [done|].
  split; [by rewrite list_lookup_alter_eq, Hsrc|].
  split; [by rewrite list_lookup_alter_eq, Hsubj|].
  split.
  - rewrite !list_lookup_alter_eq, (lookup_app_l_Some _ _ _ _ Hd). reflexivity.
  - rewrite !list_lookup_alter_ne by lia. by apply list_lookup_middle.
Qed.

Lemma dispose_shared_subscription (w : World) (d c i subject sink : nat) (fuel : nat) :
  disposables w !! d =
    Some (mkDisposable true [ChildDisposable c; ChildCallback (TdUnsubscribe subject sink)]) ->
  disposables w !! c = Some (mkDisposable true [ChildCallback (TdEndInfo i)]) ->
  c <> d -> (2 <= fuel)%nat ->
  dispose fuel d w =
  Returns tt
    (set_disposables (alter deactivate d (alter deactivate c (disposables w)))
       (set_subjects
          (alter (List.filter (fun s => negb (Nat.eqb s sink))) subject (subjects w))
          (set_infos
             (alter (fun info => mkInfo (subscriptionStartFrame info) (currentFrame w)) i
                    (infos w)) w))).
Proof.
  intros Hd Hc Hne Hfuel. destruct fuel as [|[|fuel]]; [lia | lia |].
  rewrite dispose_S, Hd. cbn [active children for_each run_child].
  unfold bind at 1. unfold bind at 1. rewrite dispose_S, Hc.
  cbn [active children for_each run_child]. cbv [bind modify ret].
  destruct w. reflexivity.
Qed.

Lemma timeline_None_disposables fuel mk evs : forall w w',
  schedule_all fuel (timeline_calls mk None evs) w = Returns tt w' ->
  disposables w' = disposables w.
Proof.
  unfold schedule_all, timeline_calls.
  induction evs as [|ev evs IH]; intros w w' H.
  - by injection H as <-.
  - cbn [map for_each call_callback call_delayFrames call_subscription] in H.
    unfold bind at 1 in H.
    destruct (testSchedule fuel (mk ev) (frame ev) None w) as [[] w0| | |] eqn:Hrun;
      try done.
    rewrite (IH _ _ H). revert Hrun.
    cbv [testSchedule bind is_inactive ret].
    destruct (getActionInsertIndex _ _); [|done]. intros Hrun. by injection Hrun as <-.
Qed.

(** X15. A SharedTestSource without subscribers, whose events are listed
    in the order of their frames, is watched with an explicit subscriptionInfo
    on an idle schedule with an empty queue at frame [now]; then its timeline
    is scheduled, and the schedule is flushed.  With [opened] and [closed]
    the frame [now] plus the start and the end frame of the info, and
    [opened] not after [closed]: the timeline runs from [now], whenever the
    watcher subscribes, so the events array holds, in the order of the
    timeline, exactly the events whose frame [now + frame] is not before
    [opened] and is before [closed], each with that frame.  The source has
    recorded the subscription [(opened, closed)], and in the end the Subject
    has no subscriber, the queue is empty and the flush is over. *)
Theorem watched_SharedTestSource_records_window (w : World) (source subject : nat)
      (events : list TestSourceEvent) (subs : list nat)
      (info : TestSubscriptionInfo) (fuel : nat) :
  isFlushing w = false -> actions w = [] ->
  sources w !! source = Some (SharedTestSourceObj events subs subject) ->
  subjects w !! subject = Some [] ->
  sortedb (map frame events) = true ->
  let now := currentFrame w in
  let opened := num_add now (subscriptionStartFrame info) in
  let closed := num_add now (subscriptionEndFrame info) in
  num_le opened closed ->
  Z.of_nat (length events + 2) <= 2 ^ 31 ->
  (length events + 5 <= fuel)%nat ->
  exists w1 w2 w3,
    watchSourceEvents fuel source (Some info) w = Returns (length (arrays w)) w1 /\
    shared_schedule fuel source None w1 = Returns tt w2 /\
    flush fuel w2 = Returns tt w3 /\
    arrays w3 !! length (arrays w) =
      Some (map (stamp now) (List.filter (in_shared_window now opened closed) events)) /\
    infos w3 !! length (infos w) = Some (mkInfo opened closed) /\
    sources w3 !! source =
      Some (SharedTestSourceObj events (subs ++ [length (infos w)]) subject) /\
    subjects w3 !! subject = Some [] /\
    actions w3 = [] /\ isFlushing w3 = false.
Proof.
  intros Hfl Hq Hsrc Hsubj Hsorted now opened closed Hle Hlen Hfuel.
  rewrite (watchSourceEvents_on_empty_queue fuel source info w Hq Hle).
  fold now. fold opened closed.
  set (arr := length (arrays w)). set (d := length (disposables w)).
  set (n := next_action w). set (sink := length (sinks w)).
  set (subA := mkAction n (CbSubscribe source arr d) opened true).
  set (dispA := mkAction (S n) (CbDispose d) closed true).
  set (w1 := set_next_action _ _).
  set (calls := timeline_calls (CbSubjectEvent subject) None events).
  set (E := enqueue (S (S n)) now calls).
  set (rest := List.filter (fun a => negb (due_before opened a)) E).
  set (E1 := List.filter (due_before opened) E).
  set (E2 := List.filter (due_before closed) rest).
  set (E3 := List.filter (fun a => negb (due_before closed a)) rest).
  assert (Hsplit : (length E1 + (length E2 + length E3) = length events)%nat).
  { subst E1 E2 E3. rewrite <- (length_app (List.filter _ rest)).
    rewrite (Permutation_length (filter_split_Permutation (due_before closed) rest)).
    subst rest. rewrite <- length_app.
    rewrite (Permutation_length (filter_split_Permutation (due_before opened) E)).
    subst E calls. by rewrite enqueue_length, timeline_calls_length. }
  (* the timeline is scheduled *)
  assert (Hucalls : Forall (fun c => usable (call_subscription c) w1 = true) calls).
  { by apply timeline_calls_usable. }
  assert (Hlcalls : Z.of_nat (length (actions w1) + length calls) <= 2 ^ 31).
  { subst calls. rewrite timeline_calls_length. cbn. lia. }
  destruct (schedule_all_perm fuel calls w1 Hucalls Hlcalls)
    as (w2 & Hrun2 & Hperm2 & Hcf2 & Hfl2 & _).
  destruct (schedule_all_fifo_queue fuel calls w1) as (w2' & Hrun2' & Hfifo2);
    [|done|done|].
  { split; [|repeat constructor; cbn; lia]. cbn -[num_ltb num_eqb].
    rewrite !andb_true_r. fold (key_leb subA dispA). apply key_leb_intro; [done | cbn; lia]. }
  rewrite Hrun2 in Hrun2'. injection Hrun2' as <-.
  destruct (for_each_testSchedule fuel (CbSubjectEvent subject) None events w1 eq_refl)
    as (w2' & Hrun2' & _ & _ & _ & _ & _ & Hinfos2 & Hsinks2 & Hsubj2 & Harr2 & Hsrc2).
  { cbn. lia. }
  rewrite for_each_timeline in Hrun2'. fold calls in Hrun2'.
  rewrite Hrun2 in Hrun2'. injection Hrun2' as <-.
  pose proof (timeline_None_disposables _ _ _ _ _ Hrun2) as Hds2.
  assert (Hq2 : actions w2 = E1 ++ subA :: E2 ++ dispA :: E3).
  { apply (shared_queue (actions w2) subA dispA now calls);
      [apply Hfifo2 | exact Hperm2 | reflexivity | exact Hle|].
    subst calls. by rewrite timeline_calls_delays. }
  assert (HE : Forall (fun a => shouldCall a = true /\
                                exists ev, callback a = CbSubjectEvent subject ev) E).
  { apply shared_timeline_actions. }
  assert (HinE : forall (p : TestScheduleAction -> bool) l,
            Forall (fun a => shouldCall a = true /\
                             exists ev, callback a = CbSubjectEvent subject ev) l ->
            Forall (fun a => shouldCall a = true /\
                             exists ev, callback a = CbSubjectEvent subject ev)
                   (List.filter p l)).
  { intros p l Hl. rewrite Forall_forall in *. intros a Ha.
    apply list_elem_of_In, filter_In in Ha as [Ha _]. by apply Hl, list_elem_of_In. }
  assert (Hweak : forall l,
            Forall (fun a => shouldCall a = true /\
                             exists ev, callback a = CbSubjectEvent subject ev) l ->
            Forall (fun a => exists ev, callback a = CbSubjectEvent subject ev) l).
  { intros l Hl. eapply Forall_impl; [exact Hl|]. by intros a [_ Ha]. }
  (* fuel *)
  remember (fuel - 5 - length events)%nat as n6 eqn:Hn6.
  assert (Hfuel' : fuel = S (length E1 + S (length E2 + S (length E3 + S (S n6))))) by lia.
  (* the flush, up to the subscription *)
  set (wt := set_isFlushing true w2).
  set (wP := set_currentFrame (List.last (map executionFrame E1) (currentFrame wt))
               (set_actions (subA :: E2 ++ dispA :: E3) wt)).
  set (wA := set_currentFrame opened (set_actions (E2 ++ dispA :: E3) wP)).
  set (wB := set_sinks (sinks wA ++ [mkSink (ScRecord arr) d]) wA).
  destruct (shared_subscribe_store wB source sink d subject (ScRecord arr) events subs []
              (length E2 + S (length E3 + S (S n6))))
    as (wS & HrunS & (HaS & HcfS & HflS & _) & HarrS & HsinksS & HinfosS & HsrcS
        & HsubjS & HdS & HcS).
  { subst wB wA wP wt. fields. by rewrite Hsrc2. }
  { subst wB wA wP wt. fields. rewrite Hsinks2. by apply list_lookup_middle. }
  { subst wB wA wP wt. fields. rewrite Hds2. cbn. by apply list_lookup_middle. }
  { subst wB wA wP wt. fields. by rewrite Hsubj2. }
  (* the events in the window *)
  destruct (drain_pushes_one subject sink arr d E2 wS (S (length E3 + S (S n6)))
              (dispA :: E3) [])
    as (wF & HrunF & HaF & HarrF & HcfF & HdF & HiF & HsF & HsjF & HsrcF & HflF).
  { by rewrite HaS. }
  { by apply HinE, HinE. }
  { exact HsubjS. }
  { rewrite HsinksS. subst wB wA wP wt. fields. rewrite Hsinks2. by apply list_lookup_middle. }
  { unfold is_active. by rewrite HdS. }
  { rewrite HarrS. subst wB wA wP wt. fields. rewrite Harr2. cbn.
    by apply list_lookup_middle. }
  (* the disposal *)
  set (wG := set_currentFrame closed (set_actions E3 wF)).
  set (c := length (disposables wB)). set (i := length (infos wB)).
  set (wH := set_disposables (alter deactivate d (alter deactivate c (disposables wG)))
               (set_subjects
                  (alter (List.filter (fun s => negb (Nat.eqb s sink))) subject (subjects wG))
                  (set_infos
                     (alter (fun info => mkInfo (subscriptionStartFrame info) (currentFrame wG))
                            i (infos wG)) wG))).
  assert (HrunH : dispose (length E3 + S (S n6)) d wG = Returns tt wH).
  { apply dispose_shared_subscription; [| | |lia].
    - subst wG. fields. by rewrite HdF.
    - subst wG. fields. by rewrite HdF.
    - subst c wB wA wP wt. fields. rewrite Hds2. cbn. rewrite length_app. cbn. lia. }
  assert (HsubjH : subjects wH !! subject = Some []).
  { subst wH wG. fields. rewrite list_lookup_alter_eq, HsjF, HsubjS. cbn.
    by rewrite Nat.eqb_refl. }
  assert (Hsink_id : length (sinks wA) = sink).
  { subst wA wP wt. fields. by rewrite Hsinks2. }
  exists w1, w2. eexists. split; [reflexivity|]. split.
  { unfold shared_schedule. change (sources w1) with (sources w).
    by rewrite Hsrc, for_each_timeline. }
  split.
  - rewrite Hfuel' at 1. rewrite flush_S.
    change (isFlushing w1) with (isFlushing w) in Hfl2. rewrite Hfl2, Hfl.
    unfold bind at 1. fold wt.
    rewrite (drain_pushes_none subject E1 wt _ (subA :: E2 ++ dispA :: E3));
      [|exact Hq2 | by apply Hweak, HinE
       |change (subjects wt) with (subjects w2); rewrite Hsubj2; exact Hsubj].
    fold wP.
    change (drain (S (length E2 + S (length E3 + S (S n6)))) wP) with
      (match call (flush (length E2 + S (length E3 + S (S n6))))
               (length E2 + S (length E3 + S (S n6)))
               (CbSubscribe source arr d) wA with
       | Returns _ w2 => drain (length E2 + S (length E3 + S (S n6))) w2
       | Throws error w2 => Throws error (reset w2)
       | OutOfFuel => OutOfFuel
       | Stuck => Stuck
       end).
    cbn [call]. unfold Sink, bind at 1. rewrite Hsink_id. fold wB.
    rewrite HrunS, HrunF.
    rewrite drain_S, HaF. cbv zeta. cbn [shouldCall dispA].
    change (call (flush (length E3 + S (S n6))) (length E3 + S (S n6)) (callback dispA)
                 (set_currentFrame (executionFrame dispA) (set_actions E3 wF)))
      with (dispose (length E3 + S (S n6)) d wG).
    rewrite HrunH.
    rewrite (drain_pushes_none subject E3 wH (S (S n6)) []);
      [| by rewrite app_nil_r | by apply Hweak, HinE, HinE | exact HsubjH].
    rewrite drain_S. unfold modify. reflexivity.
  - split; [|split; [|split; [|split; [exact HsubjH | done]]]].
    + subst wH wG. fields. rewrite HarrF. f_equal. subst E2 rest E calls.
      apply pushed_timeline.
    + subst wH wG. fields. rewrite HiF, HinfosS.
      subst i wB wA wP wt. fields. rewrite Hinfos2.
      rewrite list_lookup_alter_eq, list_lookup_middle by done. reflexivity.
    + subst wH wG. fields. rewrite HsrcF, HsrcS.
      subst wB wA wP wt. fields. by rewrite Hinfos2.
Qed.

Lemma watched_SharedTestSource_records_window_witness :
  exists w1 w2 w3,
    watchSourceEvents 8 0 (Some (mkInfo (Fin 2) (Fin 9))) shared_timeline_store
      = Returns 0%nat w1 /\
    shared_schedule 8 0 None w1 = Returns tt w2 /\
    flush 8 w2 = Returns tt w3 /\
    arrays w3 !! 0%nat = Some [mkEvent (Push 2) (Fin 4)] /\
    infos w3 !! 0%nat = Some (mkInfo (Fin 2) (Fin 9)).
Proof.
  destruct (watched_SharedTestSource_records_window shared_timeline_store 0 0
              [P 1 (Fin 1); P 2 (Fin 4); E (Fin 9)] [] (mkInfo (Fin 2) (Fin 9)) 8)
    as (w1 & w2 & w3 & H1 & H2 & H3 & H4 & H5 & _);
    [reflexivity | reflexivity | reflexivity | reflexivity | reflexivity | reflexivity
    | vm_compute; discriminate | simpl; lia |].
  exists w1, w2, w3.
  split; [exact H1|]. split; [exact H2|]. split; [exact H3|]. split; [exact H4 | exact H5].
Defined.

(** * Re-entrant flush *)

(** *** What leaves the guard as it is *)

Lemma for_each_isFlushing {A} (f : A -> M unit) (l : list A) :
  (forall x w w', In x l -> f x w = Returns tt w' -> isFlushing w' = isFlushing w) ->
  forall w w', for_each f l w = Returns tt w' -> isFlushing w' = isFlushing w.
Proof.
  induction l as [|x l IH]; intros Hf w w' H.
  - by injection H as <-.
  - cbn [for_each] in H. unfold bind in H.
    destruct (f x w) as [[] w1| | |] eqn:Hx; try done.
    rewrite (IH (fun y v v' Hy => Hf y v v' (or_intror Hy)) _ _ H).
    apply (Hf x); [by left | done].
Qed.

Lemma run_teardown_isFlushing td w : isFlushing (run_teardown td w) = isFlushing w.
Proof. by destruct td. Qed.

Lemma dispose_isFlushing n : forall d w w',
  dispose n d w = Returns tt w' -> isFlushing w' = isFlushing w.
Proof.
  induction n as [|n IH]; intros d w w' H; [done|].
  cbn [dispose] in H. destruct (disposables w !! d) as [obj|]; [|done].
  destruct (active obj); [|by injection H as <-].
  unfold bind in H.
  destruct (for_each (run_child (dispose n)) (children obj) w) as [[] w1| | |] eqn:Hch;
    try done.
  unfold modify in H. injection H as <-. cbn.
  apply (for_each_isFlushing _ _) in Hch; [done|].
  intros [td|c] v v' _ Hv; cbn [run_child] in Hv.
  - unfold modify in Hv. injection Hv as <-. apply run_teardown_isFlushing.
  - by apply IH in Hv.
Qed.

Lemma testSchedule_isFlushing n cb delay sub w w' :
  testSchedule n cb delay sub w = Returns tt w' -> isFlushing w' = isFlushing w.
Proof.
  cbv [testSchedule bind is_inactive ret].
  destruct sub as [s|].
  - destruct (disposables w !! s) as [obj|] eqn:Hs; [|done].
    destruct (active obj) eqn:Hact; cbn [negb]; [|by intros H; injection H as <-].
    destruct (getActionInsertIndex _ _); [|done].
    cbv [Disposable add]. cbn [disposables set_disposables set_next_action set_actions].
    rewrite (lookup_app_l_Some _ _ _ _ Hs), Hact. by intros H; injection H as <-.
  - destruct (getActionInsertIndex _ _); [|done]. by intros H; injection H as <-.
Qed.

(** Operations other than reset() leave the guard set. *)
Lemma run_ops_keeps_guard n body : forall w w',
  forallb no_reset body = true ->
  isFlushing w = true ->
  run_ops (flush n) n body w = Returns tt w' ->
  isFlushing w' = true.
Proof.
  unfold run_ops. induction body as [|op body IH]; intros w w' Hbody Hfl H.
  - by injection H as <-.
  - cbn [forallb] in Hbody. apply andb_true_iff in Hbody as [Hop Hbody].
    cbn [for_each] in H. unfold bind in H.
    destruct (run_op (flush n) n op w) as [[] w1| | |] eqn:Hrun; try done.
    apply (IH w1 w' Hbody); [|done].
    destruct op; cbn [run_op] in Hrun; try done.
    + unfold modify in Hrun. by injection Hrun as <-.
    + destruct n as [|n]; [done|]. rewrite flush_reentrant in Hrun by done.
      by injection Hrun as <-.
    + apply testSchedule_isFlushing in Hrun. congruence.
    + apply dispose_isFlushing in Hrun. congruence.
Qed.

Lemma run_ops_app fl n l1 l2 w :
  run_ops fl n (l1 ++ l2) w = (run_ops fl n l1 ;;; run_ops fl n l2) w.
Proof.
  unfold run_ops. revert w. induction l1 as [|op l1 IH]; intros w; [done|].
  cbn [app for_each]. unfold bind.
  destruct (run_op fl n op w) as [[] w1| | |]; try done.
Qed.

(** C5, amended.  A flush is started on a schedule that is not flushing,
    runs the observing callbacks queued in front, and then runs a callback
    that, after operations [before] none of which is a reset(), calls
    flush().  Then the nested call is a no-op: the callback runs in the store
    [w0], and whenever it has got to the nested call, in a store [w1], the
    nested flush() returns at once with [w1] unchanged, queue and
    currentFrame included; and the whole flush has the outcome of the flush
    in which the callback does not make the nested call. *)
Theorem nested_flush_is_noop (w : World) (pre rest : list TestScheduleAction)
      (a : TestScheduleAction) (before after : list Op) (fuel : nat) :
  isFlushing w = false ->
  actions w = pre ++ a :: rest ->
  Forall (fun x => passive (callback x) = true) pre ->
  shouldCall a = true ->
  callback a = CbUser (before ++ OFlush :: after) ->
  forallb no_reset before = true ->
  (length pre + 3 <= fuel)%nat ->
  let n := (fuel - length pre - 2)%nat in
  let w0 := set_currentFrame (executionFrame a)
              (set_actions rest (advanced pre (a :: rest) (set_isFlushing true w))) in
  flush fuel w =
    match run_ops (flush n) n (before ++ OFlush :: after) w0 with
    | Returns _ w2 => (drain n ;;; modify (set_isFlushing false)) w2
    | Throws error w2 => Throws error (reset w2)
    | OutOfFuel => OutOfFuel
    | Stuck => Stuck
    end /\
  (forall w1,
     run_ops (flush n) n before w0 = Returns tt w1 ->
     isFlushing w1 = true /\ flush n w1 = Returns tt w1) /\
  flush fuel w =
  flush fuel
    (set_actions
       (pre ++ mkAction (action_id a) (CbUser (before ++ after)) (executionFrame a) true
            :: rest) w).
Proof.
  intros Hfl Hq Hpre Hcall Hcb Hbefore Hfuel n w0.
  set (a' := mkAction (action_id a) (CbUser (before ++ after)) (executionFrame a) true).
  set (wt := set_isFlushing true w).
  set (wt' := set_isFlushing true (set_actions (pre ++ a' :: rest) w)).
  assert (Hn : fuel = S (length pre + S n)) by (subst n; lia).
  assert (Hpos : n = S (n - 1)) by (subst n; lia).
  clearbody n.
  assert (Hguard : forall w1, run_ops (flush n) n before w0 = Returns tt w1 ->
            isFlushing w1 = true /\ flush n w1 = Returns tt w1).
  { intros w1 Hrun.
    assert (H1 : isFlushing w1 = true).
    { by apply (run_ops_keeps_guard n before w0 w1). }
    split; [done|]. rewrite Hpos. by apply flush_reentrant. }
  assert (Hsame : run_ops (flush n) n (before ++ OFlush :: after) w0 =
                  run_ops (flush n) n (before ++ after) w0).
  { rewrite !run_ops_app. unfold bind.
    destruct (run_ops (flush n) n before w0) as [[] w1| | |] eqn:Hrun; try done.
    destruct (Hguard w1 eq_refl) as [_ Hnested].
    unfold run_ops at 1. cbn [for_each run_op]. unfold bind at 1. by rewrite Hnested. }
  assert (Hleft : flush fuel w =
            match run_ops (flush n) n (before ++ OFlush :: after) w0 with
            | Returns _ w2 => (drain n ;;; modify (set_isFlushing false)) w2
            | Throws error w2 => Throws error (reset w2)
            | OutOfFuel => OutOfFuel
            | Stuck => Stuck
            end).
  { rewrite Hn at 1. rewrite flush_S, Hfl. unfold bind at 1. fold wt.
    rewrite (drain_prefix (a :: rest) pre wt); [|done|done].
    rewrite drain_S. cbn [actions advanced set_log set_currentFrame set_actions].
    cbv zeta. rewrite Hcall, Hcb. cbn [call].
    unfold bind. subst w0 wt.
    by destruct (run_ops (flush n) n (before ++ OFlush :: after) _). }
  split; [exact Hleft|]. split; [exact Hguard|].
  assert (Hright : flush fuel (set_actions (pre ++ a' :: rest) w) =
            match run_ops (flush n) n (before ++ after) w0 with
            | Returns _ w2 => (drain n ;;; modify (set_isFlushing false)) w2
            | Throws error w2 => Throws error (reset w2)
            | OutOfFuel => OutOfFuel
            | Stuck => Stuck
            end).
  { rewrite Hn at 1. rewrite flush_S.
    change (isFlushing (set_actions (pre ++ a' :: rest) w)) with (isFlushing w).
    rewrite Hfl. unfold bind at 1. fold wt'.
    rewrite (drain_prefix (a' :: rest) pre wt'); [|done|done].
    rewrite drain_S. cbn [actions advanced set_log set_currentFrame set_actions].
    cbv zeta. subst a'. cbn [shouldCall callback executionFrame call].
    match goal with
    | |- context [run_ops (flush n) n (before ++ after) ?x] =>
        replace x with w0 by (subst w0 wt wt'; unfold advanced; by destruct w)
    end.
    unfold bind. by destruct (run_ops (flush n) n (before ++ after) w0). }
  by rewrite Hleft, Hright, Hsame.
Qed.

Lemma nested_flush_is_noop_witness :
  flush 5 (set_next_action 2 (set_actions busy_reentrant_queue fresh)) =
  flush 5
    (set_actions
       [mkAction 0 (CbUser [OLog 1; OSchedule (CbUser [OLog 4]) (Fin 0) None; OLog 2])
                 (Fin 1) true;
        mkAction 1 (CbUser [OLog 3]) (Fin 2) true]
       (set_next_action 2 (set_actions busy_reentrant_queue fresh))).
Proof.
  apply (nested_flush_is_noop (set_next_action 2 (set_actions busy_reentrant_queue fresh))
           [] [mkAction 1 (CbUser [OLog 3]) (Fin 2) true]
           (mkAction 0 (CbUser [OLog 1; OSchedule (CbUser [OLog 4]) (Fin 0) None;
                                OFlush; OLog 2]) (Fin 1) true)
           [OLog 1; OSchedule (CbUser [OLog 4]) (Fin 0) None] [OLog 2] 5);
    [reflexivity | reflexivity | constructor | reflexivity | reflexivity | reflexivity
    | simpl; lia].
Defined.

(** The flush of [busy_reentrant_queue]: the callback scheduled by the first
    callback is run after that callback has ended, not by its flush(). *)
Example busy_reentrant_queue_run :
  exists w', flush 5 (set_next_action 2 (set_actions busy_reentrant_queue fresh))
             = Returns tt w' /\
             log w' = [1; 2; 4; 3]%nat.
Proof. eexists. split; [vm_compute; reflexivity | reflexivity]. Qed.

(** A flush runs the callback of [reset_reentrant_queue], so a flush is in
    progress when the callback calls flush(); but the callback has called
    reset() before, and the nested flush() runs the callback that was scheduled
    in between: 5 is observed before 6.  In the run without the nested call 6
    comes first.  At the nested call the queue holds one action; the nested
    flush() runs it and leaves the queue empty. *)
Lemma nested_flush_after_reset_counterexample :
  (exists w',
     flush 5 (set_next_action 1 (set_actions reset_reentrant_queue fresh)) = Returns tt w' /\
     log w' = [1; 5; 6]%nat) /\
  (exists w',
     flush 5 (set_next_action 1 (set_actions reset_plain_queue fresh)) = Returns tt w' /\
     log w' = [1; 6; 5]%nat) /\
  (exists w1 w2,
     run_ops (flush 3) 3 [OLog 1; OReset; OSchedule (CbUser [OLog 5]) (Fin 0) None]
       (set_currentFrame (Fin 2)
          (set_actions [] (set_isFlushing true (set_next_action 1 fresh))))
       = Returns tt w1 /\
     actions w1 = [mkAction 1 (CbUser [OLog 5]) (Fin 0) true] /\
     flush 3 w1 = Returns tt w2 /\
     actions w2 = [] /\ log w2 = [1; 5]%nat /\ w2 <> w1).
Proof.
  split; [|split].
  - eexists. split; [vm_compute; reflexivity | reflexivity].
  - eexists. split; [vm_compute; reflexivity | reflexivity].
  - do 2 eexists. split; [vm_compute; reflexivity|].
    split; [reflexivity|]. split; [vm_compute; reflexivity|].
    split; [reflexivity|]. split; [reflexivity|]. discriminate.
Qed.

(** * SharedTestSource: subscribing does not schedule *)

Lemma subject_subscribe_registry fuel subject sink w s obj registry :
  subjects w !! subject = Some registry -> sinks w !! sink = Some s ->
  disposables w !! bound s = Some obj ->
  exists w',
    subject_subscribe fuel subject sink w = Returns tt w' /\
    same_schedule w w' /\ sources w' = sources w /\ infos w' = infos w /\
    subjects w' !! subject =
      Some (if active obj then registry ++ [sink]
            else List.filter (fun x => negb (Nat.eqb x sink)) registry).
Proof.
  intros Hsj Hsink Hd. unfold subject_subscribe. rewrite Hsj, Hsink.
  cbv [bind modify add run_child]. cbn [disposables set_subjects]. rewrite Hd.
  destruct (active obj).
  - eexists. split; [reflexivity|]. split; [by repeat split|].
    cbn. repeat split; try done.
    by rewrite list_lookup_alter_eq, Hsj.
  - eexists. split; [reflexivity|]. split; [by repeat split|].
    cbn. repeat split; try done.
    rewrite !list_lookup_alter_eq, Hsj. cbn. rewrite List.filter_app. cbn.
    by rewrite Nat.eqb_refl, app_nil_r.
Qed.

(** C9, amended.  Subscribing a Sink to a SharedTestSource leaves the queue,
    currentFrame and the guard as they are.  It appends one subscription
    info, open when the Disposable of the Sink is active and closed at once
    when it is disposed already, and it registers the Sink with the Subject
    when that Disposable is active; the Sink of a disposed one is not left in
    the registry.  schedule(subscription?) called with no subscription or an
    active one keeps what is queued and enqueues exactly one action per
    declared event, the callback that pushes that event into the Subject, at
    the current frame plus the frame of the event, whatever the registry of
    the Subject holds, which it leaves alone; called with an inactive
    subscription it enqueues nothing. *)
Theorem shared_subscribe_does_not_schedule (w : World) (source sink : nat)
        (events : list TestSourceEvent) (subs : list nat) (subject : nat)
        (s : SinkObj) (obj : DisposableObj) (registry : list nat) (fuel : nat) :
  sources w !! source = Some (SharedTestSourceObj events subs subject) ->
  sinks w !! sink = Some s ->
  disposables w !! bound s = Some obj ->
  subjects w !! subject = Some registry ->
  (1 <= fuel)%nat ->
  (exists w',
     subscribe fuel source sink w = Returns tt w' /\
     actions w' = actions w /\ currentFrame w' = currentFrame w /\
     isFlushing w' = isFlushing w /\
     sources w' !! source =
       Some (SharedTestSourceObj events (subs ++ [length (infos w)]) subject) /\
     length (infos w') = S (length (infos w)) /\
     infos w' !! length (infos w) =
       Some (mkInfo (currentFrame w) (if active obj then Infinity else currentFrame w)) /\
     subjects w' !! subject =
       Some (if active obj then registry ++ [sink]
             else List.filter (fun x => negb (Nat.eqb x sink)) registry)) /\
  (forall subscription,
     usable subscription w = true ->
     Z.of_nat (length (actions w) + length events) <= 2 ^ 31 ->
     exists w',
       shared_schedule fuel source subscription w = Returns tt w' /\
       Permutation (actions w')
         (actions w ++
          imap (fun i ev => mkAction (next_action w + i) (CbSubjectEvent subject ev)
                              (num_add (currentFrame w) (frame ev)) true) events) /\
       length (actions w') = (length (actions w) + length events)%nat /\
       currentFrame w' = currentFrame w /\
       subjects w' = subjects w /\ sinks w' = sinks w) /\
  (forall d o,
     disposables w !! d = Some o -> active o = false ->
     shared_schedule fuel source (Some d) w = Returns tt w).
Proof.
  intros Hsrc Hsink Hd Hsj Hfuel. split; [|split].
  - unfold subscribe, Source. rewrite Hsrc, Hsink.
    destruct (watchSubscriptionInfo_effect fuel (bound s) w obj Hd Hfuel)
      as (w1 & Hrun1 & Hsame1 & Hsinks1 & Hsubj1 & _ & Hsrc1 & Hlen1 & Hinfo1
          & obj' & Hd1 & Hact1).
    unfold bind at 1. rewrite Hrun1. unfold bind at 1, push_subscription, modify.
    set (w2 := set_sources _ w1).
    destruct (subject_subscribe_registry fuel subject sink w2 s obj' registry)
      as (w3 & Hrun3 & Hsame3 & Hsrc3 & Hinfos3 & Hreg3);
      [by rewrite <- Hsj, <- Hsubj1 | by rewrite <- Hsink, <- Hsinks1 | done |].
    exists w3. split; [done|].
    assert (Hsame : same_schedule w w3).
    { eapply same_schedule_trans; [exact Hsame1|].
      eapply same_schedule_trans; [|exact Hsame3]. by repeat split. }
    destruct Hsame as (Ha & Hcf & Hfl & _).
    split; [done|]. split; [done|]. split; [done|]. split.
    { rewrite Hsrc3. subst w2. cbn. by rewrite list_lookup_alter_eq, Hsrc1, Hsrc. }
    split; [by rewrite Hinfos3|]. split; [by rewrite Hinfos3|].
    by rewrite Hreg3, Hact1.
  - intros subscription Husable Hlen. unfold shared_schedule. rewrite Hsrc.
    destruct (for_each_testSchedule fuel (CbSubjectEvent subject) subscription events w
                Husable Hlen)
      as (w' & Hrun & Hlen' & _ & Hcf & _ & _ & _ & Hsinks & Hsubj & _).
    destruct (schedule_all_perm fuel
                (timeline_calls (CbSubjectEvent subject) subscription events) w)
      as (w'' & Hrun' & Hperm & _).
    { by apply timeline_calls_usable. }
    { by rewrite timeline_calls_length. }
    rewrite <- for_each_timeline, Hrun in Hrun'. injection Hrun' as <-.
    exists w'. split; [done|]. split; [by rewrite Hperm, enqueue_timeline|].
    by repeat split.
  - intros d o Hd' Ho. unfold shared_schedule. rewrite Hsrc.
    apply for_each_testSchedule_inactive. by exists o.
Qed.

Lemma shared_subscribe_does_not_schedule_witness :
  (exists w',
     subscribe 1 0 0 shared_store = Returns tt w' /\
     actions w' = actions shared_store /\ currentFrame w' = currentFrame shared_store /\
     subjects w' !! 0%nat = Some [0%nat]) /\
  (exists w',
     shared_schedule 1 0 None shared_store = Returns tt w' /\
     Permutation (actions w')
       [mkAction 0 (CbSubjectEvent 0 (P 1 (Fin 0))) (Fin 0) true;
        mkAction 1 (CbSubjectEvent 0 (E (Fin 5))) (Fin 5) true]).
Proof.
  destruct (shared_subscribe_does_not_schedule shared_store 0 0
              [P 1 (Fin 0); E (Fin 5)] [] 0 (mkSink (ScRecord 0) 0)
              (mkDisposable true []) [] 1)
    as [(w' & H1 & H2 & H3 & _ & _ & _ & _ & H4) [Hschedule _]];
    [reflexivity | reflexivity | reflexivity | reflexivity | lia |].
  split.
  - exists w'. split; [exact H1|]. split; [exact H2|]. split; [exact H3 | exact H4].
  - destruct (Hschedule None) as (w'' & H5 & H6 & _);
      [reflexivity | vm_compute; discriminate |].
    exists w''. split; [exact H5 | exact H6].
Defined.

(** A Sink whose Disposable was disposed before is subscribed to the
    SharedTestSource of [shared_store]: a subscription from frame 0 to frame 0
    is recorded, and the registry of the Subject is left empty. *)
Example shared_subscribe_disposed_sink :
  exists w0 w',
    dispose 1 0 shared_store = Returns tt w0 /\
    subscribe 1 0 0 w0 = Returns tt w' /\
    actions w' = [] /\
    subscriptions_of 0 w' = Some [mkInfo (Fin 0) (Fin 0)] /\
    subjects w' !! 0%nat = Some [].
Proof. do 2 eexists. split; [vm_compute; reflexivity|]. by repeat split. Qed.
